(** * Batch transcription and audio extraction scripts: a shallow embedding

    The repository holds two independent command-line scripts:

    - [audioToText2.py]: converts every audio file of a folder to WAV, cuts
      it into fixed-length chunks, sends each chunk to a recognition service
      and writes one combined transcript;
    - [VideoToAudio.py]: walks a folder tree, probes every video with
      ffprobe, extracts its audio track with ffmpeg while estimating the
      progress from ffmpeg's status lines, and counts successes and failures.

    The scripts are embedded function by function.  Python values are
    modelled as follows: [int] is [Z]; [str] is a list of code points, here
    restricted to the code points below 256 ([ascii]); a raised exception is
    the [Raise] branch of [result]; the file system, the recognition service
    and the external tools are explicit arguments (an oracle or a state that
    is passed along), and everything printed is collected in a log. *)

From Stdlib Require Import ZArith List String Ascii Bool Lia Sorted DecimalString.
From Stdlib Require Import Uint63 Floats.PrimFloat Floats.FloatOps Floats.SpecFloat.
From stdpp Require Import gmap strings.
Import ListNotations.
Local Open Scope Z_scope.

(* ===================================================================== *)
(** * Python runtime: exceptions and strings                              *)
(* ===================================================================== *)

Module Py.

(** The exception classes the two scripts can meet.  All of them derive from
    [Exception], so [except Exception] catches every one. *)
Inductive exn : Type :=
| Exception (msg : list ascii)
| UnboundLocalError (var : list ascii)
| IndexError
| ValueError
| OverflowError
| ZeroDivisionError
| CouldntDecodeError (msg : list ascii)
| OSError (msg : list ascii)
| FileNotFoundError (msg : list ascii)
| UnknownValueError
| RequestError (msg : list ascii)
| CalledProcessError (returncode : Z).

Inductive result (A : Type) : Type :=
| Ok (a : A)
| Raise (e : exn).
Arguments Ok {A} a.
Arguments Raise {A} e.

Definition bind {A B} (r : result A) (k : A -> result B) : result B :=
  match r with
  | Ok a => k a
  | Raise e => Raise e
  end.

Definition is_ok {A} (r : result A) : bool :=
  match r with Ok _ => true | Raise _ => false end.

(** [str]: a sequence of code points. *)
Definition str : Type := list ascii.

Definition lit (s : string) : str := list_ascii_of_string s.

Definition chr (n : nat) : ascii := ascii_of_nat n.

Definition ascii_eqb (a b : ascii) : bool := Ascii.eqb a b.

Fixpoint str_eqb (a b : str) : bool :=
  match a, b with
  | [], [] => true
  | x :: a', y :: b' => ascii_eqb x y && str_eqb a' b'
  | _, _ => false
  end.

(** [c.lower()] on one code point below 256: the ASCII capitals and the
    Latin-1 capitals (U+00C0..U+00DE without the multiplication sign). *)
Definition lower_char (c : ascii) : ascii :=
  let n := nat_of_ascii c in
  if ((65 <=? n) && (n <=? 90))%nat
     || ((192 <=? n) && (n <=? 222) && negb (n =? 215))%nat
  then ascii_of_nat (n + 32)
  else c.

(** [s.lower()] *)
Definition lower (s : str) : str := map lower_char s.

(** [c.isspace()] on one code point below 256. *)
Definition isspace (c : ascii) : bool :=
  let n := nat_of_ascii c in
  (((9 <=? n) && (n <=? 13)) || ((28 <=? n) && (n <=? 32))
   || (n =? 133) || (n =? 160))%nat.

(** [s.startswith(pre)] *)
Fixpoint startswith (pre s : str) : bool :=
  match pre, s with
  | [], _ => true
  | _ :: _, [] => false
  | x :: pre', y :: s' => ascii_eqb x y && startswith pre' s'
  end.

(** [s.endswith(suf)] *)
Definition endswith (suf s : str) : bool := startswith (rev suf) (rev s).

(** [sub in s] *)
Fixpoint contains (sub s : str) : bool :=
  startswith sub s
  || match s with
     | [] => false
     | _ :: t => contains sub t
     end.

(** [s.split(sep)] for a non-empty separator: a left-to-right scan for
    non-overlapping occurrences.  [skip] counts the characters of an
    occurrence that are still to be passed over, [cur] is the piece being
    collected. *)
Fixpoint split_on (sep : str) (skip : nat) (cur s : str) : list str :=
  match s with
  | [] => [cur]
  | a :: t =>
      match skip with
      | S k => split_on sep k cur t
      | O =>
          if startswith sep s
          then cur :: split_on sep (Nat.pred (List.length sep)) [] t
          else split_on sep 0 (cur ++ [a]) t
      end
  end.

Definition split (sep s : str) : list str := split_on sep 0 [] s.

(** [s.split(c)] for a one-character separator, by recursion on [s]. *)
Fixpoint split_char (c : ascii) (s : str) : list str :=
  match s with
  | [] => [[]]
  | a :: t =>
      if ascii_eqb a c then [] :: split_char c t
      else match split_char c t with
           | h :: r => (a :: h) :: r
           | [] => [[a]]
           end
  end.

(** [s.split()]: pieces between runs of white space, none of them empty. *)
Fixpoint split_ws_from (cur s : str) : list str :=
  match s with
  | [] => match cur with [] => [] | _ => [cur] end
  | a :: t =>
      if isspace a
      then match cur with
           | [] => split_ws_from [] t
           | _ => cur :: split_ws_from [] t
           end
      else split_ws_from (cur ++ [a]) t
  end.

Definition split_ws (s : str) : list str := split_ws_from [] s.

Fixpoint lstrip (s : str) : str :=
  match s with
  | [] => []
  | a :: t => if isspace a then lstrip t else s
  end.

(** [s.strip()] *)
Definition strip (s : str) : str := rev (lstrip (rev (lstrip s))).

(** [sep.join(l)] *)
Fixpoint join (sep : str) (l : list str) : str :=
  match l with
  | [] => []
  | [x] => x
  | x :: r => x ++ sep ++ join sep r
  end.

(** [s.rfind(c)] for one character: the last index of [c], or -1. *)
Fixpoint rfind_nat (c : ascii) (s : str) : option nat :=
  match s with
  | [] => None
  | a :: t =>
      match rfind_nat c t with
      | Some i => Some (S i)
      | None => if ascii_eqb a c then Some O else None
      end
  end.

Definition rfind (c : ascii) (s : str) : Z :=
  match rfind_nat c s with
  | Some i => Z.of_nat i
  | None => -1
  end.

(** [s[i:j]] for [0 <= i]; [s[:j]] and [s[i:]]. *)
Definition slice (s : str) (i j : Z) : str :=
  firstn (Z.to_nat (j - i)) (skipn (Z.to_nat i) s).
Definition upto (s : str) (j : Z) : str := firstn (Z.to_nat j) s.
Definition from (s : str) (i : Z) : str := skipn (Z.to_nat i) s.

(** [range(n)] *)
Definition range (n : Z) : list Z := map Z.of_nat (seq 0 (Z.to_nat n)).

(** [str(i)] for an [int]. *)
Definition decimal (i : Z) : str := lit (NilZero.string_of_int (Z.to_int i)).

End Py.

(* ===================================================================== *)
(** * [os.path] on a POSIX system                                         *)
(* ===================================================================== *)

Module PosixPath.
Import Py.

Definition sep : ascii := "/"%char.
Definition extsep : ascii := "."%char.

(** [os.path.join(a, b)] *)
Definition join (a b : str) : str :=
  if startswith [sep] b then b
  else match a with
       | [] => b
       | _ => if endswith [sep] a then a ++ b else a ++ [sep] ++ b
       end.

(** [os.path.join(a, *p)] *)
Definition join_all (a : str) (p : list str) : str := fold_left join p a.

(** [os.path.splitext(p)]: the extension starts at the last dot of the last
    component, unless only dots precede it there. *)
Definition splitext (p : str) : str * str :=
  let sepIndex := rfind sep p in
  let dotIndex := rfind extsep p in
  if sepIndex <? dotIndex then
    if existsb (fun c => negb (ascii_eqb c extsep)) (slice p (sepIndex + 1) dotIndex)
    then (upto p dotIndex, from p dotIndex)
    else (p, [])
  else (p, []).

(** [os.path.basename(p)] *)
Definition basename (p : str) : str := from p (rfind sep p + 1).

Fixpoint all_sep (s : str) : bool :=
  match s with
  | [] => true
  | a :: t => ascii_eqb a sep && all_sep t
  end.

Fixpoint lstrip_sep (s : str) : str :=
  match s with
  | [] => []
  | a :: t => if ascii_eqb a sep then lstrip_sep t else s
  end.

(** [os.path.dirname(p)] *)
Definition dirname (p : str) : str :=
  let head := upto p (rfind sep p + 1) in
  match head with
  | [] => head
  | _ => if all_sep head then head else rev (lstrip_sep (rev head))
  end.

(** [os.path.isabs(p)] *)
Definition isabs (p : str) : bool := startswith [sep] p.

(** One step of the loop of [os.path.normpath] over the components.
    [rooted] tells whether the path began with a slash. *)
Definition norm_step (rooted : bool) (new_comps : list str) (comp : str)
  : list str :=
  if str_eqb comp [] || str_eqb comp (lit ".") then new_comps
  else if negb (str_eqb comp (lit ".."))
          || (negb rooted && match new_comps with [] => true | _ => false end)
          || match List.rev new_comps with
             | c :: _ => str_eqb c (lit "..")
             | [] => false
             end
       then new_comps ++ [comp]
       else removelast new_comps.

Definition norm_comps (path : str) : list str :=
  fold_left (norm_step (startswith [sep] path)) (split_char sep path) [].

(** [os.path.normpath(path)] *)
Definition normpath (path : str) : str :=
  match path with
  | [] => lit "."
  | _ =>
      let initial_slashes : nat :=
        if startswith [sep] path
        then if startswith [sep; sep] path && negb (startswith [sep; sep; sep] path)
             then 2%nat else 1%nat
        else 0%nat in
      let p := repeat sep initial_slashes ++ Py.join [sep] (norm_comps path) in
      match p with
      | [] => lit "."
      | _ => p
      end
  end.

(** [os.path.abspath(path)], with the working directory as an argument. *)
Definition abspath (cwd path : str) : str :=
  normpath (if isabs path then path else join cwd path).

Fixpoint common_prefix_len (a b : list str) : nat :=
  match a, b with
  | x :: a', y :: b' => if str_eqb x y then S (common_prefix_len a' b') else O
  | _, _ => O
  end.

Definition nonempty (s : str) : bool :=
  match s with [] => false | _ => true end.

(** [os.path.relpath(path, start)] *)
Definition relpath (cwd path start : str) : result str :=
  match path with
  | [] => Raise ValueError
  | _ =>
      let start_list := List.filter nonempty (split_char sep (abspath cwd start)) in
      let path_list := List.filter nonempty (split_char sep (abspath cwd path)) in
      let i := common_prefix_len start_list path_list in
      let rel_list :=
        repeat (lit "..") (List.length start_list - i) ++ skipn i path_list in
      match rel_list with
      | [] => Ok (lit ".")
      | c :: r => Ok (join_all c r)
      end
  end.

End PosixPath.

(* ===================================================================== *)
(** * Python floats                                                       *)
(* ===================================================================== *)

(** The float operations the video script uses.  The script's control flow
    is stated over this interface; [B64] below implements it with IEEE 754
    binary64, which is what CPython's [float] is. *)
Class PyFloat : Type := {
  pyfloat : Type;
  (** [float(s)]; [None] stands for [ValueError]. *)
  float_of_str : Py.str -> option pyfloat;
  (** the conversion of an [int] operand in mixed arithmetic *)
  float_of_Z : Z -> pyfloat;
  fmul : pyfloat -> pyfloat -> pyfloat;
  fadd : pyfloat -> pyfloat -> pyfloat;
  (** [x / y]; [None] stands for [ZeroDivisionError]. *)
  fdiv : pyfloat -> pyfloat -> option pyfloat;
  (** [int(x)]: truncation; [ValueError] on nan, [OverflowError] on an
      infinity. *)
  int_of_float : pyfloat -> Py.result Z;
  (** [x == 0] *)
  float_is_zero : pyfloat -> bool
}.

Module B64.
Import Py.

Definition digit_val (c : ascii) : option Z :=
  let n := nat_of_ascii c in
  if ((48 <=? n) && (n <=? 57))%nat then Some (Z.of_nat (n - 48)) else None.

Definition is_digit (c : ascii) : bool :=
  match digit_val c with Some _ => true | None => false end.

(** Reads the rest of a digit part: digits, with single underscores allowed
    between two digits.  Returns the accumulated value, the number of digits
    read and the unread rest. *)
Fixpoint digits_from (acc cnt : Z) (s : str) : Z * Z * str :=
  match s with
  | [] => (acc, cnt, [])
  | c :: t =>
      match digit_val c with
      | Some d => digits_from (acc * 10 + d) (cnt + 1) t
      | None =>
          if ascii_eqb c "_"%char && (0 <? cnt) then
            match t with
            | c' :: t' =>
                match digit_val c' with
                | Some d => digits_from (acc * 10 + d) (cnt + 1) t'
                | None => (acc, cnt, s)
                end
            | [] => (acc, cnt, s)
            end
          else (acc, cnt, s)
      end
  end.

(** A digit part must start with a digit. *)
Definition digit_part (acc : Z) (s : str) : option (Z * Z * str) :=
  match s with
  | c :: _ => if is_digit c then Some (digits_from acc 0 s) else None
  | [] => None
  end.

Definition read_sign (s : str) : bool * str :=
  match s with
  | c :: t =>
      if ascii_eqb c "-"%char then (true, t)
      else if ascii_eqb c "+"%char then (false, t)
      else (false, s)
  | [] => (false, s)
  end.

(** The optional exponent and the end of the literal. *)
Definition read_exponent (s : str) : option Z :=
  match s with
  | [] => Some 0
  | c :: t =>
      if ascii_eqb (lower_char c) "e"%char then
        let (neg, t') := read_sign t in
        match digit_part 0 t' with
        | Some (e, _, []) => Some (if neg then - e else e)
        | _ => None
        end
      else None
  end.

(** A decimal literal without its sign, as mantissa and power of ten. *)
Definition read_number (s : str) : option (Z * Z) :=
  match s with
  | c :: t =>
      if ascii_eqb c "."%char then
        match digit_part 0 t with
        | Some (m, nfrac, rest) =>
            match read_exponent rest with
            | Some e => Some (m, e - nfrac)
            | None => None
            end
        | None => None
        end
      else
        match digit_part 0 s with
        | Some (m, _, rest) =>
            match rest with
            | c' :: t' =>
                if ascii_eqb c' "."%char then
                  let '(m', nfrac, rest') :=
                    match digit_part m t' with
                    | Some r => r
                    | None => (m, 0, t')
                    end in
                  match read_exponent rest' with
                  | Some e => Some (m', e - nfrac)
                  | None => None
                  end
                else
                  match read_exponent rest with
                  | Some e => Some (m, e)
                  | None => None
                  end
            | [] => Some (m, 0)
            end
        | None => None
        end
  | [] => None
  end.

(** The binary64 number nearest to [m * 10^e10] (ties to even): the quotient
    is computed with more than 64 significant bits and a sticky bit, then
    rounded once. *)
Definition round_decimal (neg : bool) (m e10 : Z) : spec_float :=
  if m =? 0 then S754_zero neg
  else if 400 <? e10 then S754_infinity neg
  else if e10 <? -10000 - Z.log2 m then S754_zero neg
  else
    let n := m * 10 ^ Z.max e10 0 in
    let d := 10 ^ Z.max (- e10) 0 in
    let k := Z.max 0 (70 + Z.log2 d - Z.log2 n) in
    let q := (n * 2 ^ k) / d in
    let sticky := if (n * 2 ^ k) mod d =? 0 then 0 else 1 in
    let v := 2 * q + sticky in
    binary_normalize prec emax (if neg then - v else v) (- (k + 1)) false.

(** The white space [float()] passes over around a literal: the ASCII
    blanks and the two Latin-1 spaces, but not the separators U+001C to
    U+001F, which [str.strip] removes. *)
Definition float_space (c : ascii) : bool :=
  let n := nat_of_ascii c in
  (((9 <=? n) && (n <=? 13)) || (n =? 32) || (n =? 133) || (n =? 160))%nat.

Fixpoint lstrip_spaces (s : str) : str :=
  match s with
  | [] => []
  | a :: t => if float_space a then lstrip_spaces t else s
  end.

Definition strip_spaces (s : str) : str :=
  rev (lstrip_spaces (rev (lstrip_spaces s))).

(** [float(s)] *)
Definition of_str (s : str) : option float :=
  let (neg, t) := read_sign (strip_spaces s) in
  let w := lower t in
  if str_eqb w (lit "inf") || str_eqb w (lit "infinity")
  then Some (if neg then neg_infinity else infinity)
  else if str_eqb w (lit "nan") then Some nan
  else match read_number t with
       | Some (m, e10) => Some (SF2Prim (round_decimal neg m e10))
       | None => None
       end.

Definition of_Z (z : Z) : float := SF2Prim (binary_normalize prec emax z 0 false).

(** [int(x)] *)
Definition to_Z (x : float) : result Z :=
  match Prim2SF x with
  | S754_zero _ => Ok 0
  | S754_infinity _ => Raise OverflowError
  | S754_nan => Raise ValueError
  | S754_finite s m e =>
      let v := if 0 <=? e then Z.pos m * 2 ^ e else Z.pos m / 2 ^ (- e) in
      Ok (if s then - v else v)
  end.

Definition is_zero (x : float) : bool := PrimFloat.eqb x zero.

(** [math.ceil(x)] *)
Definition ceil (x : float) : result Z :=
  match Prim2SF x with
  | S754_zero _ => Ok 0
  | S754_infinity _ => Raise OverflowError
  | S754_nan => Raise ValueError
  | S754_finite s m e =>
      if 0 <=? e then Ok (if s then - (Z.pos m * 2 ^ e) else Z.pos m * 2 ^ e)
      else
        let q := Z.pos m / 2 ^ (- e) in
        let exact := Z.pos m mod 2 ^ (- e) =? 0 in
        Ok (if s then - q else if exact then q else q + 1)
  end.

Definition div (x y : float) : option float :=
  if is_zero y then None else Some (PrimFloat.div x y).

#[export] Instance binary64 : PyFloat := {|
  pyfloat := float;
  float_of_str := of_str;
  float_of_Z := of_Z;
  fmul := PrimFloat.mul;
  fadd := PrimFloat.add;
  fdiv := div;
  int_of_float := to_Z;
  float_is_zero := is_zero
|}.

End B64.

(* ===================================================================== *)
(** * Folder contents                                                     *)
(* ===================================================================== *)

(** A folder as [os.listdir] and [os.walk] see it: every entry has a name
    and is either a file or a directory with entries of its own. *)
#[warnings="-register-all"]
Inductive node : Type :=
| File (name : Py.str)
| Dir (name : Py.str) (children : list node).

Definition node_name (n : node) : Py.str :=
  match n with
  | File name => name
  | Dir name _ => name
  end.

Definition is_file (n : node) : bool :=
  match n with
  | File _ => true
  | Dir _ _ => false
  end.

(* ===================================================================== *)
(** * [audioToText2.py]                                                   *)
(* ===================================================================== *)

Module AudioToText.
Import Py.

(** What [recognizer.record] followed by [recognizer.recognize_google]
    does with one chunk: a text, or a raised exception. *)
Inductive recognition : Type :=
| Recognized (text : str)
| Failed (e : exn).

(** An [AudioSegment]: its length in milliseconds ([len(audio)]) and, for
    the slice [audio[start:end]], what the recognition service makes of it. *)
Record audio : Type := {
  length_ms : Z;
  heard : Z -> Z -> recognition
}.

Inductive content : Type :=
| Media (a : audio)
| Text (s : str)
| Unreadable.

(** Everything the script prints. *)
Inductive message : Type :=
| ProcessedChunk (i chunks : Z)
| CouldNotUnderstand (i : Z)
| ServiceErrorInChunk (i : Z) (msg : str)
| NoAudioFilesFound
| ProcessingFile (i n : Z) (audio_file : str)
| TranscriptionCompleted (audio_file : str)
| ErrorOccurred (audio_file : str) (e : exn)
| AllCompleted (output_file : str).

(** [str(e)] *)
Definition exn_str (e : exn) : str :=
  match e with
  | Exception msg | CouldntDecodeError msg | OSError msg | FileNotFoundError msg
  | RequestError msg => msg
  | UnboundLocalError var =>
      lit "cannot access local variable '" ++ var
      ++ lit "' where it is not associated with a value"
  | _ => []
  end.

Definition nl : str := [chr 10].

Definition audio_extensions : list str :=
  [lit ".mp3"; lit ".wav"; lit ".m4a"; lit ".flac"; lit ".aac"; lit ".ogg";
   lit ".wma"].

Definition default_output_file : str := lit "temp.wav".
Definition default_chunk_duration : Z := 30.

(** [math.ceil(num / den)], the quotient taken exactly. *)
Definition ceil_quot (num den : Z) : Z := - ((- num) / den).

(** The number of chunks, [math.ceil((len(audio) / 1000) / chunk_duration)],
    for a chunk duration that is a whole number of seconds, as in every call
    of the script.  The script divides two floats; for a length and a
    duration below 2^50 the binary64 quotient lies on the same side of every
    integer as the exact one, and the quotient is taken exactly here. *)
Definition chunk_count (len chunk_duration : Z) : Z :=
  ceil_quot len (1000 * chunk_duration).

(** The same two lines as the interpreter evaluates them in binary64, for a
    chunk duration that is a float. *)
Definition chunks_binary64 (len : Z) (chunk_duration : float) : result Z :=
  let duration := PrimFloat.div (B64.of_Z len) (B64.of_Z 1000) in
  match B64.div duration chunk_duration with
  | None => Raise ZeroDivisionError
  | Some q => B64.ceil q
  end.

(** [start_time] and [end_time] of chunk [i]. *)
Definition chunk_window (len chunk_duration i : Z) : Z * Z :=
  (i * chunk_duration * 1000, Z.min ((i + 1) * chunk_duration * 1000) len).

Definition chunk_windows (len chunk_duration : Z) : list (Z * Z) :=
  map (chunk_window len chunk_duration) (range (chunk_count len chunk_duration)).

(** [audio[start_time:end_time]] for two positions that are not negative:
    both are cut to the length of the audio. *)
Definition audio_slice (a : audio) (start_time end_time : Z) : audio :=
  let s := Z.min start_time (length_ms a) in
  let e := Z.min end_time (length_ms a) in
  {| length_ms := Z.max 0 (e - s);
     heard := fun x y => heard a (s + x) (s + y) |}.

(** [f"temp_chunk_{i}.wav"] *)
Definition chunk_path (i : Z) : str :=
  lit "temp_chunk_" ++ decimal i ++ lit ".wav".

(** The file system: the content of every file that exists, keyed by the
    resolved path. *)
Abbreviation filesystem := (gmap str content).

Section FileSystem.

(** The file a path names: the working directory and the links on the way
    are folded into this function. *)
Variable resolve : str -> str.

(** [AudioSegment.from_file(path)] and [AudioSegment.from_wav(path)] *)
Definition from_file (fs : filesystem) (path : str) : result audio :=
  match fs !! resolve path with
  | Some (Media a) => Ok a
  | Some _ => Raise (CouldntDecodeError (lit "Decoding failed"))
  | None => Raise (OSError (lit "No such file or directory"))
  end.

(** [audio.export(path, format="wav")].  A failing export (a full disk, a
    missing encoder) is outside the model: a conversion fails in
    [from_file]. *)
Definition export (fs : filesystem) (path : str) (a : audio) : filesystem :=
  <[resolve path := Media a]> fs.

(** [os.path.exists(path)] and [os.remove(path)] *)
Definition exists_ (fs : filesystem) (path : str) : bool :=
  match fs !! resolve path with Some _ => true | None => false end.
Definition remove (fs : filesystem) (path : str) : filesystem :=
  delete (resolve path) fs.

Definition convert_to_wav (fs : filesystem) (input_file output_file : str)
  : filesystem * result str :=
  match from_file fs input_file with
  | Ok a => (export fs output_file a, Ok output_file)
  | Raise e =>
      (fs, Raise (Exception (lit "Error converting audio: " ++ exn_str e)))
  end.

(** The body of [for i in range(chunks)], over the indices still to come.
    Each chunk is exported to [temp_chunk_i.wav] and read back by the
    recogniser, whose outcome on the slice is [heard a start_time end_time];
    the file is removed at the end of the iteration, which an exception that
    is not caught never reaches. *)
Fixpoint transcribe_chunks (a : audio) (chunk_duration chunks : Z)
    (todo : list Z) (full_transcript : list str) (console : list message)
    (fs : filesystem)
  : filesystem * list message * result (list str) :=
  match todo with
  | [] => (fs, console, Ok full_transcript)
  | i :: todo' =>
      let (start_time, end_time) := chunk_window (length_ms a) chunk_duration i in
      let fs1 := export fs (chunk_path i) (audio_slice a start_time end_time) in
      match heard a start_time end_time with
      | Recognized text =>
          transcribe_chunks a chunk_duration chunks todo'
            (full_transcript ++ [text])
            (console ++ [ProcessedChunk (i + 1) chunks])
            (remove fs1 (chunk_path i))
      | Failed UnknownValueError =>
          transcribe_chunks a chunk_duration chunks todo' full_transcript
            (console ++ [CouldNotUnderstand (i + 1)])
            (remove fs1 (chunk_path i))
      | Failed (RequestError msg) =>
          transcribe_chunks a chunk_duration chunks todo' full_transcript
            (console ++ [ServiceErrorInChunk (i + 1) msg])
            (remove fs1 (chunk_path i))
      | Failed e => (fs1, console, Raise e)
      end
  end.

(** The part of [transcribe_audio] after the file is loaded. *)
Definition transcribe_segment (fs : filesystem) (a : audio) (chunk_duration : Z)
  : filesystem * list message * result str :=
  if chunk_duration =? 0 then (fs, [], Raise ZeroDivisionError)
  else
    let chunks := chunk_count (length_ms a) chunk_duration in
    let '(fs', console, r) :=
      transcribe_chunks a chunk_duration chunks (range chunks) [] [] fs in
    (fs', console,
     bind r (fun full_transcript => Ok (join (lit " ") full_transcript))).

Definition transcribe_audio (fs : filesystem) (audio_path : str)
    (chunk_duration : Z) : filesystem * list message * result str :=
  match from_file fs audio_path with
  | Ok a => transcribe_segment fs a chunk_duration
  | Raise e => (fs, [], Raise e)
  end.

(** The variables of [main] that outlive one iteration, the file system,
    the console and the arguments of the [os.remove] calls of [main] itself.
    [wav_file] is [None] as long as the local variable is unbound. *)
Record state : Type := {
  wav_file : option str;
  all_transcripts : list str;
  files : filesystem;
  console : list message;
  removed : list str
}.

Definition header (audio_file : str) : str :=
  nl ++ nl ++ lit "--- TRANSCRIPT FOR: " ++ audio_file ++ lit " ---" ++ nl ++ nl.

(** The [try] and [except] blocks of one iteration.  Every exception of the
    [try] block is caught. *)
Definition try_file (full_path audio_file : str) (st : state) : state :=
  match convert_to_wav (files st) full_path default_output_file with
  | (fs1, Ok w) =>
      let file_transcript := header audio_file in
      match transcribe_audio fs1 w default_chunk_duration with
      | (fs2, out, Ok transcript) =>
          {| wav_file := Some w;
             all_transcripts := all_transcripts st ++ [file_transcript ++ transcript];
             files := fs2;
             console := console st ++ out ++ [TranscriptionCompleted audio_file];
             removed := removed st |}
      | (fs2, out, Raise e) =>
          {| wav_file := Some w;
             all_transcripts := all_transcripts st;
             files := fs2;
             console := console st ++ out ++ [ErrorOccurred audio_file e];
             removed := removed st |}
      end
  | (fs1, Raise e) =>
      {| wav_file := wav_file st;
         all_transcripts := all_transcripts st;
         files := fs1;
         console := console st ++ [ErrorOccurred audio_file e];
         removed := removed st |}
  end.

(** The [finally] block: reading the unbound [wav_file] raises. *)
Definition finally_file (full_path : str) (st : state) : state * result unit :=
  match wav_file st with
  | None => (st, Raise (UnboundLocalError (lit "wav_file")))
  | Some w =>
      if negb (str_eqb w full_path) && exists_ (files st) w
      then ({| wav_file := wav_file st;
               all_transcripts := all_transcripts st;
               files := remove (files st) w;
               console := console st;
               removed := removed st ++ [w] |}, Ok tt)
      else (st, Ok tt)
  end.

Definition process_file (input_folder : str) (n i : Z) (audio_file : str)
    (st : state) : state * result unit :=
  let st0 :=
    {| wav_file := wav_file st;
       all_transcripts := all_transcripts st;
       files := files st;
       console := console st ++ [ProcessingFile (i + 1) n audio_file];
       removed := removed st |} in
  let full_path := PosixPath.join input_folder audio_file in
  finally_file full_path (try_file full_path audio_file st0).

(** [for i, audio_file in enumerate(audio_files)], from index [i] on. *)
Fixpoint process_files (input_folder : str) (n i : Z) (todo : list str)
    (st : state) : state * result unit :=
  match todo with
  | [] => (st, Ok tt)
  | audio_file :: todo' =>
      match process_file input_folder n i audio_file st with
      | (st', Ok _) => process_files input_folder n (i + 1) todo' st'
      | (st', Raise e) => (st', Raise e)
      end
  end.

(** The two list comprehensions that select the audio files. *)
Definition is_audio_name (f : str) : bool :=
  existsb (str_eqb (snd (PosixPath.splitext (lower f)))) audio_extensions.

Definition scan_audio (listing : list node) : list str :=
  List.filter is_audio_name (map node_name (List.filter is_file listing)).

Definition initial (fs : filesystem) : state :=
  {| wav_file := None; all_transcripts := []; files := fs; console := [];
     removed := [] |}.

(** [main()], for the folder name read from the prompt, the entries of that
    folder and the file system it runs on. *)
Definition main (input_folder : str) (listing : list node) (fs : filesystem)
  : state * result unit :=
  let audio_files := scan_audio listing in
  match audio_files with
  | [] =>
      ({| wav_file := None; all_transcripts := []; files := fs;
          console := [NoAudioFilesFound]; removed := [] |}, Ok tt)
  | _ =>
      let output_file := PosixPath.join input_folder (lit "combined_transcript.txt") in
      match process_files input_folder (Z.of_nat (List.length audio_files)) 0
              audio_files (initial fs) with
      | (st, Ok _) =>
          ({| wav_file := wav_file st;
              all_transcripts := all_transcripts st;
              files := <[resolve output_file := Text (join nl (all_transcripts st))]> (files st);
              console := console st ++ [AllCompleted output_file];
              removed := removed st |}, Ok tt)
      | (st, Raise e) => (st, Raise e)
      end
  end.

End FileSystem.

End AudioToText.

(* ===================================================================== *)
(** * [VideoToAudio.py]                                                   *)
(* ===================================================================== *)

Module VideoToAudio.
Import Py.

(** Everything the script prints. *)
Inductive message : Type :=
| ErrorGettingDuration (video_path : str)
| ErrorExtracting (video_path : str)
| ToolDiagnostics (text : str)
| Extracted (output_path : str) (size_bytes : Z)
| NoVideoFilesFound (input_folder : str)
| FoundVideoFiles (n : Z)
| ProcessingVideo (i n : Z) (name : str)
| ExtractionComplete
| SuccessfulExtractions (n : Z)
| FailedExtractions (n : Z)
| OutputFolder (path : str).

(** What the script does to the outside, in order. *)
Inductive event : Type :=
| Makedirs (path : str)
| Run (cmd : list str)
| Print (m : message)
| PbarOpen (desc : str)
| PbarUpdate (n : Z)
| PbarClose.

(** One run of ffprobe: exit status and standard output. *)
Record probe_run : Type := {
  probe_status : Z;
  probe_stdout : str
}.

(** One run of ffmpeg: the lines [readline] returns while [poll()] is still
    [None], the exit status, what is left on standard error afterwards and
    the size of the file written. *)
Record ffmpeg_run : Type := {
  stderr_lines : list str;
  returncode : Z;
  stderr_rest : str;
  output_size : Z
}.

(** The external tools, by command line. *)
Record tools : Type := {
  ffprobe : list str -> probe_run;
  ffmpeg : list str -> ffmpeg_run
}.

Definition video_extensions : list str :=
  [lit ".mp4"; lit ".avi"; lit ".mov"; lit ".mkv"; lit ".wmv"; lit ".flv";
   lit ".webm"; lit ".m4v"; lit ".3gp"].

(** [codec_map.get(audio_format, audio_format)] *)
Definition codec_of (audio_format : str) : str :=
  if str_eqb audio_format (lit "mp3") then lit "libmp3lame"
  else if str_eqb audio_format (lit "aac") then lit "aac"
  else if str_eqb audio_format (lit "wav") then lit "pcm_s16le"
  else if str_eqb audio_format (lit "flac") then lit "flac"
  else if str_eqb audio_format (lit "ogg") then lit "libvorbis"
  else audio_format.

Definition ffprobe_cmd (video_path : str) : list str :=
  [lit "ffprobe"; lit "-v"; lit "error"; lit "-show_entries";
   lit "format=duration"; lit "-of";
   lit "default=noprint_wrappers=1:nokey=1"; video_path].

Definition ffmpeg_cmd (video_path output_path audio_format audio_bitrate : str)
  : list str :=
  [lit "ffmpeg"; lit "-i"; video_path; lit "-vn"; lit "-acodec";
   codec_of audio_format; lit "-ab"; audio_bitrate; lit "-ar"; lit "44100";
   lit "-y"; output_path].

(** Whether an event starts the transcode tool. *)
Definition is_transcode (e : event) : bool :=
  match e with
  | Run (tool :: _) => str_eqb tool (lit "ffmpeg")
  | _ => false
  end.

(** [os.makedirs(path, exist_ok=True)]: the empty path raises
    [FileNotFoundError].  Other failures of the file system (a path that
    cannot be created, a missing tool) are outside the model. *)
Definition makedirs (path : str) : list event * result unit :=
  match path with
  | [] =>
      ([], Raise (FileNotFoundError (lit "[Errno 2] No such file or directory: ''")))
  | _ => ([Makedirs path], Ok tt)
  end.

Section WithFloat.
Context {FL : PyFloat}.

(** A Python number: [get_video_duration] returns a [float] or the [int] 0. *)
Inductive pynum : Type :=
| PInt (z : Z)
| PFloat (x : pyfloat).

Definition to_float (d : pynum) : pyfloat :=
  match d with
  | PInt z => float_of_Z z
  | PFloat x => x
  end.

(** [d == 0] *)
Definition num_is_zero (d : pynum) : bool :=
  match d with
  | PInt z => z =? 0
  | PFloat x => float_is_zero x
  end.

(** [subprocess.check_output(cmd)] raises [CalledProcessError] on a nonzero
    exit status; only that exception is caught. *)
Definition get_video_duration (t : tools) (video_path : str)
  : list event * result pynum :=
  let cmd := ffprobe_cmd video_path in
  let run := ffprobe t cmd in
  if probe_status run =? 0 then
    match float_of_str (strip (probe_stdout run)) with
    | Some x => ([Run cmd], Ok (PFloat x))
    | None => ([Run cmd], Raise ValueError)
    end
  else ([Run cmd; Print (ErrorGettingDuration video_path)], Ok (PInt 0)).

(** [int((current_time / duration) * 100)] inside the [try] block, for the
    three fields of a time stamp: [Ok (Some percent)], or [Ok None] when
    [ValueError] is caught; other exceptions pass through. *)
Definition percent_of (duration : pynum) (hours minutes seconds : str)
  : result (option Z) :=
  match float_of_str hours, float_of_str minutes, float_of_str seconds with
  | Some h, Some m, Some s =>
      let current_time :=
        fadd (fadd (fmul h (float_of_Z 3600)) (fmul m (float_of_Z 60))) s in
      match fdiv current_time (to_float duration) with
      | None => Raise ZeroDivisionError
      | Some q =>
          match int_of_float (fmul q (float_of_Z 100)) with
          | Ok p => Ok (Some p)
          | Raise ValueError => Ok None
          | Raise e => Raise e
          end
      end
  | _, _, _ => Ok None
  end.

(** [progress = min(percent, 100)] *)
Definition clamp (r : result (option Z)) : result (option Z) :=
  match r with
  | Ok (Some percent) => Ok (Some (Z.min percent 100))
  | _ => r
  end.

(** The fields of a time stamp after [split(':')], when there are three of
    them; the seconds lose their fraction. *)
Definition stamp_fields (stamp : str) : option (str * str * str) :=
  match split_char ":"%char stamp with
  | [hours; minutes; seconds] =>
      Some (hours, minutes,
            if contains (lit ".") seconds
            then hd [] (split_char "."%char seconds)
            else seconds)
  | _ => None
  end.

(** What one status line says about the progress: [Ok (Some progress)] when
    the line carries a time stamp that parses, [Ok None] when the line is
    passed over. *)
Definition progress_of_line (duration : pynum) (line : str) : result (option Z) :=
  if contains (lit "time=") line then
    match split (lit "time=") line with
    | _ :: after :: _ =>
        match split_ws after with
        | [] => Raise IndexError
        | stamp :: _ =>
            match stamp_fields stamp with
            | Some (hours, minutes, seconds) =>
                clamp (percent_of duration hours minutes seconds)
            | None => Ok None
            end
        end
    | _ => Raise IndexError
    end
  else Ok None.

(** One turn of [while process.poll() is None] on the line just read:
    the new [last_progress] and the progress bar update, if any. *)
Definition track_line (duration : pynum) (last_progress : Z) (line : str)
  : result (Z * list event) :=
  match progress_of_line duration line with
  | Ok (Some progress) =>
      if last_progress <? progress
      then Ok (progress, [PbarUpdate (progress - last_progress)])
      else Ok (last_progress, [])
  | Ok None => Ok (last_progress, [])
  | Raise e => Raise e
  end.

(** The whole loop.  Besides the events it returns the successive values of
    [last_progress], one after each line, and the final value or the
    exception that ended the loop. *)
Fixpoint track_progress (duration : pynum) (last_progress : Z) (lines : list str)
  : list event * list Z * result Z :=
  match lines with
  | [] => ([], [], Ok last_progress)
  | line :: lines' =>
      match track_line duration last_progress line with
      | Ok (p, evs) =>
          let '(evs', ps, r) := track_progress duration p lines' in
          (evs ++ evs', p :: ps, r)
      | Raise e => ([], [], Raise e)
      end
  end.

Definition extract_audio (t : tools)
    (video_path output_path audio_format audio_bitrate : str)
  : list event * result bool :=
  let dir := PosixPath.dirname output_path in
  match makedirs (match dir with [] => lit "." | _ => dir end) with
  | (ev0, Raise e) => (ev0, Raise e)
  | (ev0, Ok _) =>
      match get_video_duration t video_path with
      | (ev1, Raise e) => (ev0 ++ ev1, Raise e)
      | (ev1, Ok duration) =>
          if num_is_zero duration then (ev0 ++ ev1, Ok false)
          else
            let cmd := ffmpeg_cmd video_path output_path audio_format audio_bitrate in
            let run := ffmpeg t cmd in
            let ev2 :=
              [Run cmd;
               PbarOpen (lit "Extracting " ++ PosixPath.basename video_path)] in
            match track_progress duration 0 (stderr_lines run) with
            | (ev3, _, Raise e) => (ev0 ++ ev1 ++ ev2 ++ ev3, Raise e)
            | (ev3, _, Ok _) =>
                if negb (returncode run =? 0) then
                  (ev0 ++ ev1 ++ ev2 ++ ev3
                   ++ [PbarClose; Print (ErrorExtracting video_path);
                       Print (ToolDiagnostics (stderr_rest run))],
                   Ok false)
                else
                  (ev0 ++ ev1 ++ ev2 ++ ev3
                   ++ [PbarClose; Print (Extracted output_path (output_size run))],
                   Ok true)
            end
      end
  end.

(** [os.walk(top)]: every directory with the names of its files, the
    directory itself first, then its sub-directories in order. *)
Definition file_names (entries : list node) : list str :=
  map node_name (List.filter is_file entries).

Fixpoint walk_in (root : str) (n : node) {struct n} : list (str * list str) :=
  match n with
  | File _ => []
  | Dir name children =>
      let top := PosixPath.join root name in
      (top, file_names children) :: flat_map (walk_in top) children
  end.

Definition walk (top : str) (entries : list node) : list (str * list str) :=
  (top, file_names entries) :: flat_map (walk_in top) entries.

(** [any(file.lower().endswith(ext) for ext in video_extensions)] *)
Definition is_video_name (file : str) : bool :=
  existsb (fun ext => endswith ext (lower file)) video_extensions.

Definition scan_videos (input_folder : str) (entries : list node) : list str :=
  flat_map
    (fun '(root, files) =>
       map (PosixPath.join root) (List.filter is_video_name files))
    (walk input_folder entries).

(** The output path of one video (lines 152 and 153). *)
Definition output_path_of (cwd input_folder output_folder audio_format video_path : str)
  : result str :=
  bind (PosixPath.relpath cwd video_path input_folder) (fun rel_path =>
  Ok (PosixPath.join output_folder
        (fst (PosixPath.splitext rel_path) ++ lit "." ++ audio_format))).

(** The counters of the batch. *)
Record tally : Type := {
  successful : Z;
  failed : Z
}.

(** [for i, video_path in enumerate(video_files)], from index [i] on. *)
Fixpoint process_videos (cwd : str) (t : tools)
    (input_folder output_folder audio_format audio_bitrate : str)
    (n i : Z) (todo : list str) (c : tally)
  : list event * tally * result unit :=
  match todo with
  | [] => ([], c, Ok tt)
  | video_path :: todo' =>
      let ev0 := [Print (ProcessingVideo (i + 1) n (PosixPath.basename video_path))] in
      match output_path_of cwd input_folder output_folder audio_format video_path with
      | Raise e => (ev0, c, Raise e)
      | Ok output_path =>
          match makedirs (PosixPath.dirname output_path) with
          | (ev1, Raise e) => (ev0 ++ ev1, c, Raise e)
          | (ev1, Ok _) =>
              match extract_audio t video_path output_path audio_format
                      audio_bitrate with
              | (ev2, Raise e) => (ev0 ++ ev1 ++ ev2, c, Raise e)
              | (ev2, Ok ok) =>
                  let c' :=
                    if ok
                    then {| successful := successful c + 1; failed := failed c |}
                    else {| successful := successful c; failed := failed c + 1 |} in
                  let '(ev3, c'', r) :=
                    process_videos cwd t input_folder output_folder
                      audio_format audio_bitrate n (i + 1) todo' c' in
                  (ev0 ++ ev1 ++ ev2 ++ ev3, c'', r)
              end
          end
      end
  end.

(** The four lines printed at the end of the batch. *)
Definition summary (cwd output_folder : str) (c : tally) : list event :=
  [Print ExtractionComplete;
   Print (SuccessfulExtractions (successful c));
   Print (FailedExtractions (failed c));
   Print (OutputFolder (PosixPath.abspath cwd output_folder))].

(** [process_video_folder], for the working directory, the tools and the
    entries of the input folder.  The counters are returned with the
    events. *)
Definition process_video_folder (cwd : str) (t : tools) (entries : list node)
    (input_folder output_folder audio_format audio_bitrate : str)
  : list event * tally * result unit :=
  let zero := {| successful := 0; failed := 0 |} in
  match makedirs output_folder with
  | (ev0, Raise e) => (ev0, zero, Raise e)
  | (ev0, Ok _) =>
      let video_files := scan_videos input_folder entries in
      match video_files with
      | [] => (ev0 ++ [Print (NoVideoFilesFound input_folder)], zero, Ok tt)
      | _ =>
          let n := Z.of_nat (List.length video_files) in
          let '(ev1, c, r) :=
            process_videos cwd t input_folder output_folder audio_format
              audio_bitrate n 0 video_files zero in
          match r with
          | Raise e => (ev0 ++ [Print (FoundVideoFiles n)] ++ ev1, c, Raise e)
          | Ok _ =>
              (ev0 ++ [Print (FoundVideoFiles n)] ++ ev1
               ++ summary cwd output_folder c,
               c, Ok tt)
          end
      end
  end.

End WithFloat.

End VideoToAudio.

(* ===================================================================== *)
(** * Notions used in the statements                                      *)
(* ===================================================================== *)

(** [tiles lo hi ws]: the windows [ws] follow each other from [lo] to [hi];
    each one starts where the one before ends and none is empty, so that
    they are disjoint and cover exactly the interval from [lo] to [hi]. *)
Fixpoint tiles (lo hi : Z) (ws : list (Z * Z)) : Prop :=
  match ws with
  | [] => lo = hi
  | (s, e) :: r => s = lo /\ s < e /\ tiles e hi r
  end.

(** The text a recognition outcome contributes to the transcript. *)
Definition recognized_text (r : AudioToText.recognition) : option Py.str :=
  match r with
  | AudioToText.Recognized text => Some text
  | AudioToText.Failed _ => None
  end.

(** The outcomes [transcribe_audio] handles: a text, unintelligible audio
    or a service error. *)
Definition handled (r : AudioToText.recognition) : bool :=
  match r with
  | AudioToText.Recognized _ => true
  | AudioToText.Failed Py.UnknownValueError => true
  | AudioToText.Failed (Py.RequestError _) => true
  | AudioToText.Failed _ => false
  end.

(** What is heard in a window of an audio segment. *)
Definition heard_in (a : AudioToText.audio) (w : Z * Z) : AudioToText.recognition :=
  AudioToText.heard a (fst w) (snd w).

(** The texts of the windows that were recognised, in the order of the
    windows. *)
Definition recognized_texts (a : AudioToText.audio) (ws : list (Z * Z))
  : list Py.str :=
  flat_map
    (fun w => match recognized_text (heard_in a w) with
              | Some text => [text]
              | None => []
              end)
    ws.

(** The extension of a name as [os.path.splitext] gives it, and the text
    of a name from its last dot on. *)
Definition splitext_ext (name : Py.str) : Py.str := snd (PosixPath.splitext name).

Definition last_dot_ext (name : Py.str) : Py.str :=
  match Py.rfind_nat PosixPath.extsep name with
  | Some i => skipn i name
  | None => []
  end.

(** [file_under top entries path f]: the folder [top] with the entries
    [entries] holds, at some depth, a file named [f], and [path] is the path
    [os.walk] and [os.path.join] give it. *)
Inductive file_under : Py.str -> list node -> Py.str -> Py.str -> Prop :=
| file_here (top : Py.str) (entries : list node) (f : Py.str) :
    In (File f) entries ->
    file_under top entries (PosixPath.join top f) f
| file_below (top : Py.str) (entries : list node) (d : Py.str)
    (children : list node) (path f : Py.str) :
    In (Dir d children) entries ->
    file_under (PosixPath.join top d) children path f ->
    file_under top entries path f.

(** A name as a directory listing can hold it: not empty, without a slash,
    and neither of the two special entries. *)
Definition is_name (d : Py.str) : bool :=
  PosixPath.nonempty d
  && negb (existsb (Py.ascii_eqb PosixPath.sep) d)
  && negb (Py.str_eqb d (Py.lit "."))
  && negb (Py.str_eqb d (Py.lit "..")).

(** The non-empty pieces of a path between its slashes. *)
Definition comps (path : Py.str) : list Py.str :=
  List.filter PosixPath.nonempty (Py.split_char PosixPath.sep path).

(** The path [os.walk] and [os.path.join] form for the file [name] in the
    sub-directory [ds] (one name per level) of the folder [top]. *)
Definition walk_path (top : Py.str) (ds : list Py.str) (name : Py.str) : Py.str :=
  PosixPath.join_all top (ds ++ [name]).

(** The same place written relative to the folder: the names joined by
    slashes. *)
Definition rel_path (ds : list Py.str) (name : Py.str) : Py.str :=
  Py.join [PosixPath.sep] (ds ++ [name]).

(** A component that is not empty and holds no slash. *)
Definition plain (c : Py.str) : Prop := c <> [] /\ ~ In PosixPath.sep c.

(** The directory part of a relative path, with its closing slash. *)
Definition dir_prefix (ds : list Py.str) : Py.str :=
  concat (map (fun d => d ++ [PosixPath.sep]) ds).

(** Whether a stem has a character other than the dot. *)
Definition has_stem (b : Py.str) : bool :=
  existsb (fun c => negb (Py.ascii_eqb c PosixPath.extsep)) b.

(** [file_at entries ds f]: the entries hold the file [f] in the
    sub-directory reached by the names [ds], one per level. *)
Inductive file_at : list node -> list Py.str -> Py.str -> Prop :=
| file_at_here (entries : list node) (f : Py.str) :
    In (File f) entries -> file_at entries [] f
| file_at_below (entries : list node) (d : Py.str) (children : list node)
    (ds : list Py.str) (f : Py.str) :
    In (Dir d children) entries -> file_at children ds f ->
    file_at entries (d :: ds) f.

(** The two scanners select by extension, for a given reading [ext] of
    "the extension of a file name", compared without regard to case. *)
Definition scanners_select_by (ext : Py.str -> Py.str) : Prop :=
  (forall (listing : list node) (f : Py.str),
     In f (AudioToText.scan_audio listing)
     <-> In (File f) listing
         /\ In (ext (Py.lower f)) AudioToText.audio_extensions)
  /\ (forall (top : Py.str) (entries : list node) (path : Py.str),
        In path (VideoToAudio.scan_videos top entries)
        <-> exists f, file_under top entries path f
                      /\ In (ext (Py.lower f)) VideoToAudio.video_extensions).

(** The number of chunks computed in binary64, the way the script writes
    it: [math.ceil((len(audio) / 1000) / chunk_duration)]. *)
Definition chunk_count_binary64 (len chunk_duration : Z) : Py.result Z :=
  AudioToText.chunks_binary64 len (B64.of_Z chunk_duration).

(** A recording of 70.5 seconds for the examples: the first thirty seconds
    are recognised as "hello", the next thirty are unintelligible and the
    rest is recognised as "world". *)
Definition sample_audio : AudioToText.audio :=
  {| AudioToText.length_ms := 70500;
     AudioToText.heard := fun start_time _ =>
       if start_time =? 0 then AudioToText.Recognized (Py.lit "hello")
       else if start_time =? 30000 then AudioToText.Failed Py.UnknownValueError
       else AudioToText.Recognized (Py.lit "world") |}.

(** Path resolution for the examples: every path names itself. *)
Definition literally (path : Py.str) : Py.str := path.

(** The folder of the examples: [bad.mp3] cannot be decoded, [good.mp3] is
    the sample recording. *)
Definition sample_listing : list node :=
  [File (Py.lit "bad.mp3"); File (Py.lit "good.mp3"); File (Py.lit "notes.txt")].

Definition sample_files : AudioToText.filesystem :=
  {[ Py.lit "in/bad.mp3" := AudioToText.Unreadable;
     Py.lit "in/good.mp3" := AudioToText.Media sample_audio;
     Py.lit "in/notes.txt" := AudioToText.Text (Py.lit "minutes") ]}.

(** The section a file contributes to the combined transcript, on the file
    system [fs]: none when its conversion or its transcription raises. *)
Definition section_of (resolve : Py.str -> Py.str) (fs : AudioToText.filesystem)
    (input_folder audio_file : Py.str) : list Py.str :=
  match AudioToText.from_file resolve fs (PosixPath.join input_folder audio_file) with
  | Py.Ok a =>
      match snd (AudioToText.transcribe_segment resolve fs a
                   AudioToText.default_chunk_duration) with
      | Py.Ok transcript => [AudioToText.header audio_file ++ transcript]
      | Py.Raise _ => []
      end
  | Py.Raise _ => []
  end.

(** The paths the script uses for files of its own: the temporary copy and
    the chunk files. *)
Definition scratch (resolve : Py.str -> Py.str) (k : Py.str) : Prop :=
  k = resolve AudioToText.default_output_file
  \/ exists i : Z, k = resolve (AudioToText.chunk_path i).

(** [only_scratch_touched resolve fs0 st]: in the state [st], reached from
    the file system [fs0], the variable [wav_file] is unbound or holds the
    default temporary path, [main] itself has called [os.remove] on that
    path only, and every file that is neither the temporary copy nor a chunk
    file is as it was. *)
Definition only_scratch_touched (resolve : Py.str -> Py.str)
    (fs0 : AudioToText.filesystem) (st : AudioToText.state) : Prop :=
  (forall w, AudioToText.wav_file st = Some w -> w = AudioToText.default_output_file)
  /\ Forall (fun path => path = AudioToText.default_output_file)
       (AudioToText.removed st)
  /\ forall k, ~ scratch resolve k -> AudioToText.files st !! k = fs0 !! k.

(** The ceiling of D / C for D = [len] / 1000 and the exact value of a
    positive finite float C. *)
Definition exact_ceiling (len : Z) (C : float) : option Z :=
  match Prim2SF C with
  | S754_finite false m e =>
      Some (if 0 <=? e
            then AudioToText.ceil_quot len (1000 * Z.pos m * 2 ^ e)
            else AudioToText.ceil_quot (len * 2 ^ (- e)) (1000 * Z.pos m))
  | _ => None
  end.

(** The floats Python reads for the literals [0.3] and [29.9]. *)
Definition float_0_3 : float := 0x1.3333333333333p-2%float.
Definition float_29_9 : float := 0x1.de66666666666p+4%float.

(** What the specification expects of the number of chunks, for every
    positive chunk duration: the ceiling of D / C. *)
Definition chunks_are_ceiling : Prop :=
  forall (len : Z) (C : float) (n : Z),
    0 <= len -> exact_ceiling len C = Some n ->
    AudioToText.chunks_binary64 len C = Py.Ok n.

(** What the extraction of one video of the batch comes to: the derived
    output path, then [extract_audio]. *)
Definition extraction_result {FL : PyFloat} (cwd : Py.str) (t : VideoToAudio.tools)
    (input_folder output_folder audio_format audio_bitrate video_path : Py.str)
  : Py.result bool :=
  Py.bind
    (VideoToAudio.output_path_of cwd input_folder output_folder audio_format video_path)
    (fun output_path =>
       snd (VideoToAudio.extract_audio t video_path output_path audio_format
              audio_bitrate)).

Definition extraction_failed (r : Py.result bool) : bool :=
  match r with
  | Py.Ok true => false
  | _ => true
  end.

(** The files the batch announces with "Processing video i/n: name". *)
Definition announced (ev : list VideoToAudio.event) : list (Z * Z * Py.str) :=
  flat_map
    (fun e => match e with
              | VideoToAudio.Print (VideoToAudio.ProcessingVideo i n name) =>
                  [(i, n, name)]
              | _ => []
              end)
    ev.

(** The announcements of the files [vs], numbered from [i + 1] on. *)
Fixpoint announcements (n i : Z) (vs : list Py.str) : list (Z * Z * Py.str) :=
  match vs with
  | [] => []
  | v :: vs' => (i + 1, n, PosixPath.basename v) :: announcements n (i + 1) vs'
  end.

(** What the specification expects of one run of the video batch: with N
    the number of discovered videos and K the number of those whose
    extraction fails, the run ends without an exception, the counters are K
    and N - K, every file is announced and the summary closes the output. *)
Definition batch_tallies {FL : PyFloat} (cwd : Py.str) (t : VideoToAudio.tools)
    (entries : list node)
    (input_folder output_folder audio_format audio_bitrate : Py.str) : Prop :=
  let vs := VideoToAudio.scan_videos input_folder entries in
  let N := Z.of_nat (List.length vs) in
  let K :=
    Z.of_nat
      (List.length
         (List.filter
            (fun v => extraction_failed
                        (extraction_result cwd t input_folder output_folder
                           audio_format audio_bitrate v))
            vs)) in
  let run :=
    VideoToAudio.process_video_folder cwd t entries input_folder output_folder
      audio_format audio_bitrate in
  let c := snd (fst run) in
  snd run = Py.Ok tt
  /\ VideoToAudio.failed c = K
  /\ VideoToAudio.successful c = N - K
  /\ announced (fst (fst run)) = announcements N 0 vs
  /\ exists ev, fst (fst run) = ev ++ VideoToAudio.summary cwd output_folder c.

(** A folder of videos for the examples. *)
Definition sample_videos : list node :=
  [File (Py.lit "broken.mp4"); File (Py.lit "clip.MP4");
   Dir (Py.lit "sub") [File (Py.lit "b.mov"); File (Py.lit "notes.txt")]].

(** A probed duration of 180 seconds, as a binary64 float. *)
Definition duration_180 : @VideoToAudio.pynum B64.binary64 :=
  @VideoToAudio.PFloat B64.binary64 180%float.

(** Tools for the examples: ffprobe fails on [broken.mp4] and reports 180
    seconds for every other file; ffmpeg prints one status line at 90.5
    seconds, then, for [odd.mp4], a line that ends with the marker. *)
Definition sample_tools : VideoToAudio.tools :=
  {| VideoToAudio.ffprobe := fun cmd =>
       if existsb (Py.str_eqb (Py.lit "in/broken.mp4")) cmd
       then {| VideoToAudio.probe_status := 1; VideoToAudio.probe_stdout := [] |}
       else {| VideoToAudio.probe_status := 0;
               VideoToAudio.probe_stdout := Py.lit "180.000000" ++ [Py.chr 10] |};
     VideoToAudio.ffmpeg := fun cmd =>
       {| VideoToAudio.stderr_lines :=
            (Py.lit "size=    1408kB time=00:01:30.50 bitrate= 127.4kbits/s speed=45x"
             ++ [Py.chr 10])
            :: (if existsb (Py.str_eqb (Py.lit "in/odd.mp4")) cmd
                then [Py.lit "    title           : showtime=" ++ [Py.chr 10]]
                else []);
          VideoToAudio.returncode := 0;
          VideoToAudio.stderr_rest := [];
          VideoToAudio.output_size := 2883584 |} |}.

(** The files for which [main] printed "An error occurred with ...". *)
Definition errors_logged (out : list AudioToText.message) : list Py.str :=
  flat_map
    (fun m => match m with
              | AudioToText.ErrorOccurred audio_file _ => [audio_file]
              | _ => []
              end)
    out.

(** Whether a file contributes no section. *)
Definition no_section (l : list Py.str) : bool :=
  match l with
  | [] => true
  | _ => false
  end.

(** Path resolution in which a leading "./" changes nothing: [./x] and [x]
    name the same file. *)
Definition in_cwd (path : Py.str) : Py.str :=
  if Py.startswith (Py.lit "./") path then skipn 2 path else path.

(** The sum of the increments sent to the progress bar. *)
Definition sum_updates (ev : list VideoToAudio.event) : Z :=
  fold_right
    (fun e acc => match e with
                  | VideoToAudio.PbarUpdate n => n + acc
                  | _ => acc
                  end)
    0 ev.

(** Whether every increment sent to the progress bar is positive. *)
Definition updates_positive (ev : list VideoToAudio.event) : Prop :=
  Forall (fun e => match e with
                   | VideoToAudio.PbarUpdate n => 0 < n
                   | _ => True
                   end) ev.

(** The four kinds of lines of the final summary. *)
Definition is_summary (e : VideoToAudio.event) : bool :=
  match e with
  | VideoToAudio.Print VideoToAudio.ExtractionComplete
  | VideoToAudio.Print (VideoToAudio.SuccessfulExtractions _)
  | VideoToAudio.Print (VideoToAudio.FailedExtractions _)
  | VideoToAudio.Print (VideoToAudio.OutputFolder _) => true
  | _ => false
  end.

(** Tools for the examples whose ffprobe exits normally but has no duration
    to report. *)
Definition tools_without_duration : VideoToAudio.tools :=
  {| VideoToAudio.ffprobe := fun _ =>
       {| VideoToAudio.probe_status := 0;
          VideoToAudio.probe_stdout := Py.lit "N/A" ++ [Py.chr 10] |};
     VideoToAudio.ffmpeg := VideoToAudio.ffmpeg sample_tools |}.

(** Tools for the examples whose ffmpeg exits with status 1. *)
Definition tools_failing_transcode : VideoToAudio.tools :=
  {| VideoToAudio.ffprobe := VideoToAudio.ffprobe sample_tools;
     VideoToAudio.ffmpeg := fun _ =>
       {| VideoToAudio.stderr_lines := [];
          VideoToAudio.returncode := 1;
          VideoToAudio.stderr_rest := Py.lit "Invalid data found";
          VideoToAudio.output_size := 0 |} |}.

(** A recording in which nothing can be understood. *)
Definition mumbled_audio : AudioToText.audio :=
  {| AudioToText.length_ms := 45000;
     AudioToText.heard := fun _ _ => AudioToText.Failed Py.UnknownValueError |}.

(** A recording whose second chunk makes the recogniser raise an exception
    that [transcribe_audio] does not expect. *)
Definition poisoned_audio : AudioToText.audio :=
  {| AudioToText.length_ms := 70500;
     AudioToText.heard := fun start_time _ =>
       if start_time =? 30000 then AudioToText.Failed (Py.OSError (Py.lit "timed out"))
       else AudioToText.Recognized (Py.lit "hello") |}.

(** The lines an event list prints, and the command lines it runs. *)
Definition printed (ev : list VideoToAudio.event) : list VideoToAudio.message :=
  flat_map
    (fun e => match e with
              | VideoToAudio.Print m => [m]
              | _ => []
              end)
    ev.

Definition commands_run (ev : list VideoToAudio.event) : list (list Py.str) :=
  flat_map
    (fun e => match e with
              | VideoToAudio.Run cmd => [cmd]
              | _ => []
              end)
    ev.

Definition is_update (e : VideoToAudio.event) : bool :=
  match e with
  | VideoToAudio.PbarUpdate _ => true
  | _ => false
  end.

(** A character that can stand in a field of a time stamp: no white space
    and no colon. *)
Definition field_char (c : ascii) : bool :=
  negb (Py.isspace c) && negb (Py.ascii_eqb c ":"%char).

Definition is_field (x : Py.str) : bool := forallb field_char x.

(** The text of the seconds of a time stamp: the whole seconds, then the
    fraction after a dot when there is one. *)
Definition seconds_text (seconds : Py.str) (fraction : option Py.str) : Py.str :=
  match fraction with
  | Some f => seconds ++ PosixPath.extsep :: f
  | None => seconds
  end.

(** A status line cut off, or followed by white space. *)
Definition ends_token (tail : Py.str) : bool :=
  match tail with
  | [] => true
  | w :: _ => Py.isspace w
  end.

(** Whether every entry of a folder, at every depth, has a name a directory
    listing can hold. *)
Fixpoint names_ok (n : node) : bool :=
  match n with
  | File name => is_name name
  | Dir name children => is_name name && forallb names_ok children
  end.

(** What the specification expects of the output path: a discovered video
    at the relative place [ds]/[b].[ext] under the input folder gets the
    output path O/[ds]/[b].F, the extension replaced by the format. *)
Definition replaces_extension : Prop :=
  forall (cwd input_folder output_folder audio_format : Py.str)
         (entries : list node) (ds : list Py.str) (b ext : Py.str),
    PosixPath.isabs cwd = true ->
    output_folder <> [] ->
    forallb names_ok entries = true ->
    file_at entries ds (b ++ Py.lit "." ++ ext) ->
    In (walk_path input_folder ds (b ++ Py.lit "." ++ ext))
      (VideoToAudio.scan_videos input_folder entries) ->
    ~ In PosixPath.extsep ext ->
    VideoToAudio.output_path_of cwd input_folder output_folder audio_format
      (walk_path input_folder ds (b ++ Py.lit "." ++ ext))
    = Py.Ok (PosixPath.join output_folder
               (rel_path ds (b ++ Py.lit "." ++ audio_format))).

(** A folder with three videos, the second of which makes ffmpeg print the
    status line that ends with the marker. *)
Definition videos_with_odd : list node :=
  [File (Py.lit "clip.mp4"); File (Py.lit "odd.mp4"); File (Py.lit "z.mp4")].

(* ===================================================================== *)
(** * The runtime model on known values                                   *)
(* ===================================================================== *)

Section RuntimeChecks.
Import Py.

Example split_marker :
  split (lit "time=") (lit "size=1kB time=00:01:30.50 bitrate=128k")
  = [lit "size=1kB "; lit "00:01:30.50 bitrate=128k"]
  /\ split (lit "time=") (lit "time=") = [[]; []]
  /\ split (lit "aa") (lit "aaa") = [[]; lit "a"].
Proof. repeat split; reflexivity. Qed.

Example split_char_fields :
  split_char ":"%char (lit "00:01:30.50") = [lit "00"; lit "01"; lit "30.50"]
  /\ split_char ","%char (lit "a,b,,c") = [lit "a"; lit "b"; []; lit "c"]
  /\ split_char ","%char [] = [[]].
Proof. repeat split; reflexivity. Qed.

Example split_ws_tokens :
  split_ws (lit " 00:01:30.50  bitrate= 128k ") = [lit "00:01:30.50"; lit "bitrate="; lit "128k"]
  /\ split_ws (lit "  " ++ [chr 10]) = [].
Proof. split; reflexivity. Qed.

Example lower_mixed : lower (lit "Clip.MP4") = lit "clip.mp4".
Proof. reflexivity. Qed.

Example splitext_values :
  PosixPath.splitext (lit "archive.tar.gz") = (lit "archive.tar", lit ".gz")
  /\ PosixPath.splitext (lit ".mp4") = (lit ".mp4", [])
  /\ PosixPath.splitext (lit "...x.mp4") = (lit "...x", lit ".mp4")
  /\ PosixPath.splitext (lit "a/b.c/d") = (lit "a/b.c/d", [])
  /\ PosixPath.splitext (lit "a/b.mov") = (lit "a/b", lit ".mov").
Proof. repeat split; reflexivity. Qed.

Example join_values :
  PosixPath.join (lit "a") (lit "b") = lit "a/b"
  /\ PosixPath.join (lit "a/") (lit "b") = lit "a/b"
  /\ PosixPath.join (lit "a") (lit "/b") = lit "/b"
  /\ PosixPath.join [] (lit "b") = lit "b".
Proof. repeat split; reflexivity. Qed.

Example dirname_basename_values :
  PosixPath.dirname (lit "out/a/b.mp3") = lit "out/a"
  /\ PosixPath.dirname (lit "b.mp3") = []
  /\ PosixPath.dirname (lit "/b.mp3") = lit "/"
  /\ PosixPath.basename (lit "in/a/b.mov") = lit "b.mov".
Proof. repeat split; reflexivity. Qed.

Example normpath_values :
  PosixPath.normpath (lit "a//b/../c/.") = lit "a/c"
  /\ PosixPath.normpath (lit "/../x") = lit "/x"
  /\ PosixPath.normpath [] = lit "."
  /\ PosixPath.normpath (lit "//x") = lit "//x"
  /\ PosixPath.normpath (lit "///x") = lit "/x"
  /\ PosixPath.normpath (lit "a/../..") = lit "..".
Proof. repeat split; reflexivity. Qed.

Example relpath_values :
  PosixPath.relpath (lit "/home/u") (lit "vids/a/b.mov") (lit "vids/") = Ok (lit "a/b.mov")
  /\ PosixPath.relpath (lit "/home/u") (lit "/x/a/b.mov") (lit "../y")
     = Ok (lit "../../x/a/b.mov")
  /\ PosixPath.relpath (lit "/home/u") (lit "a") (lit "a") = Ok (lit ".")
  /\ PosixPath.relpath (lit "/home/u") [] (lit "a") = Raise ValueError.
Proof. repeat split; reflexivity. Qed.

Example float_of_str_values :
  B64.of_str (lit "180.000000") = Some 180%float
  /\ B64.of_str (lit "30") = Some 30%float
  /\ B64.of_str (lit " 1_0.5e+1 ") = Some 105%float
  /\ B64.of_str (lit ".5") = Some 0.5%float
  /\ B64.of_str (lit "-inf") = Some neg_infinity
  /\ B64.of_str (lit "N/A") = None
  /\ B64.of_str (lit "1__0") = None
  /\ B64.of_str (chr 28 :: lit "1") = None
  /\ B64.of_str (lit "1" ++ [chr 160]) = Some 1%float
  /\ B64.of_str [] = None.
Proof. repeat split; vm_compute; reflexivity. Qed.

(** Binary64 rounds where the exact quotient does not: 29 seconds of 100
    are 28 percent. *)
Example int_of_float_values :
  B64.to_Z (PrimFloat.mul (PrimFloat.div 29 100) 100) = Ok 28
  /\ B64.to_Z (PrimFloat.mul (PrimFloat.div 90 180) 100) = Ok 50
  /\ B64.to_Z infinity = Raise OverflowError
  /\ B64.to_Z nan = Raise ValueError.
Proof. repeat split; vm_compute; reflexivity. Qed.

(** The exact number of chunks is the one binary64 gives, on every length
    up to two minutes in steps of 7 ms and on lengths around the multiples
    of the chunk length. *)
Example chunk_count_binary64_agrees :
  forallb
    (fun len => match chunk_count_binary64 len 30 with
                | Ok n => n =? AudioToText.chunk_count len 30
                | Raise _ => false
                end)
    (map (fun k => 7 * k) (range 17200)
     ++ [29999; 30000; 30001; 59999; 60000; 60001; 3599999; 3600000; 3600001;
         86399999; 86400000; 86400001])
  = true.
Proof. vm_compute. reflexivity. Qed.

End RuntimeChecks.

(* ===================================================================== *)
(** * Facts about strings and paths                                       *)
(* ===================================================================== *)

Section StringFacts.
Import Py.

Lemma ascii_eqb_eq (a b : ascii) : ascii_eqb a b = true <-> a = b.
Proof. unfold ascii_eqb. apply Ascii.eqb_eq. Qed.

Lemma ascii_eqb_refl (a : ascii) : ascii_eqb a a = true.
Proof. apply ascii_eqb_eq. reflexivity. Qed.

Lemma ascii_eqb_neq (a b : ascii) : a <> b -> ascii_eqb a b = false.
Proof.
  intros Hne. destruct (ascii_eqb a b) eqn:E; [|reflexivity].
  apply ascii_eqb_eq in E. contradiction.
Qed.

Lemma str_eqb_eq (a b : str) : str_eqb a b = true <-> a = b.
Proof.
  revert b. induction a as [|x a IH]; intros [|y b]; cbn [str_eqb];
    try (split; discriminate); [split; reflexivity|].
  rewrite andb_true_iff, IH, ascii_eqb_eq.
  split; [intros [-> ->]; reflexivity | intros [= -> ->]; split; reflexivity].
Qed.

Lemma str_eqb_refl (a : str) : str_eqb a a = true.
Proof. apply str_eqb_eq. reflexivity. Qed.

Lemma str_eqb_neq (a b : str) : a <> b -> str_eqb a b = false.
Proof.
  intros Hne. destruct (str_eqb a b) eqn:E; [|reflexivity].
  apply str_eqb_eq in E. contradiction.
Qed.

Lemma existsb_str_eqb (x : str) (l : list str) :
  existsb (str_eqb x) l = true <-> In x l.
Proof.
  rewrite existsb_exists. split.
  - intros (y & Hy & Heq). apply str_eqb_eq in Heq. subst. exact Hy.
  - intros Hx. exists x. split; [exact Hx | apply str_eqb_refl].
Qed.

Lemma startswith_spec (pre s : str) :
  startswith pre s = true <-> exists t, s = pre ++ t.
Proof.
  revert s. induction pre as [|x pre IH]; intros s.
  - cbn. split; [intros _; exists s; reflexivity | reflexivity].
  - destruct s as [|y s]; cbn [startswith].
    + split; [discriminate | intros (t & Ht); discriminate].
    + rewrite andb_true_iff, ascii_eqb_eq, IH. split.
      * intros (-> & t & ->). exists t. reflexivity.
      * intros (t & [= -> ->]). split; [reflexivity | exists t; reflexivity].
Qed.

Lemma endswith_spec (suf s : str) :
  endswith suf s = true <-> exists pre, s = pre ++ suf.
Proof.
  unfold endswith. rewrite startswith_spec. split.
  - intros (t & Ht). exists (rev t).
    rewrite <- (rev_involutive s), Ht, rev_app_distr, rev_involutive. reflexivity.
  - intros (pre & ->). exists (rev pre). apply rev_app_distr.
Qed.

Lemma rfind_nat_none (c : ascii) (s : str) :
  rfind_nat c s = None <-> ~ In c s.
Proof.
  induction s as [|a s IH]; cbn [rfind_nat In].
  - tauto.
  - destruct (rfind_nat c s) as [i|].
    + split; [discriminate|]. intros Hn. exfalso.
      assert (Hs : ~ In c s) by tauto. apply IH in Hs. discriminate.
    + destruct (ascii_eqb a c) eqn:E.
      * apply ascii_eqb_eq in E. split; [discriminate | intros Hn; tauto].
      * split; [|reflexivity]. intros _ [Hac|Hin].
        -- rewrite Hac, ascii_eqb_refl in E. discriminate.
        -- apply IH in Hin; [exact Hin | reflexivity].
Qed.

Lemma rfind_nat_app (c : ascii) (pre body : str) :
  ~ In c body -> rfind_nat c (pre ++ c :: body) = Some (List.length pre).
Proof.
  intros Hbody. induction pre as [|a pre IH]; cbn [app rfind_nat List.length].
  - apply rfind_nat_none in Hbody. rewrite Hbody, ascii_eqb_refl. reflexivity.
  - rewrite IH. reflexivity.
Qed.

Lemma rfind_nat_some (c : ascii) (s : str) (i : nat) :
  rfind_nat c s = Some i ->
  exists pre body, s = pre ++ c :: body /\ List.length pre = i /\ ~ In c body.
Proof.
  revert i. induction s as [|a s IH]; intros i; cbn [rfind_nat]; [discriminate|].
  destruct (rfind_nat c s) as [j|] eqn:Hj.
  - intros [= <-]. destruct (IH j eq_refl) as (pre & body & -> & Hlen & Hb).
    exists (a :: pre), body. cbn. split; [reflexivity|]. split; [lia | exact Hb].
  - destruct (ascii_eqb a c) eqn:E; [|discriminate].
    intros [= <-]. apply ascii_eqb_eq in E. subst a.
    exists [], s. split; [reflexivity|]. split; [reflexivity|].
    apply rfind_nat_none, Hj.
Qed.

Lemma skipn_length_app {A : Type} (pre t : list A) :
  skipn (List.length pre) (pre ++ t) = t.
Proof. induction pre; [reflexivity | assumption]. Qed.

Lemma firstn_length_app {A : Type} (pre t : list A) :
  firstn (List.length pre) (pre ++ t) = pre.
Proof. induction pre as [|a pre IH]; [destruct t; reflexivity | cbn; f_equal; exact IH]. Qed.

(** For an extension made of a dot and a dot-free body, a name ends with
    the extension exactly when its text from the last dot on is that
    extension. *)
Lemma endswith_last_dot_ext (body s : str) :
  ~ In PosixPath.extsep body ->
  endswith (PosixPath.extsep :: body) s = true
  <-> last_dot_ext s = PosixPath.extsep :: body.
Proof.
  intros Hbody. rewrite endswith_spec. unfold last_dot_ext. split.
  - intros (pre & ->). rewrite rfind_nat_app by exact Hbody.
    apply skipn_length_app.
  - destruct (rfind_nat PosixPath.extsep s) as [i|] eqn:Hi; [|discriminate].
    destruct (rfind_nat_some _ _ _ Hi) as (pre & body' & -> & <- & _).
    rewrite skipn_length_app. intros [= ->]. exists pre. reflexivity.
Qed.

(** On a name without a slash that does not begin with a dot, the extension
    of [os.path.splitext] is the text from the last dot on. *)
Lemma splitext_ext_last_dot (c : ascii) (t : str) :
  c <> PosixPath.extsep -> ~ In PosixPath.sep (c :: t) ->
  splitext_ext (c :: t) = last_dot_ext (c :: t).
Proof.
  intros Hc Hsep. unfold splitext_ext, last_dot_ext, PosixPath.splitext, rfind.
  apply rfind_nat_none in Hsep. rewrite Hsep.
  destruct (rfind_nat PosixPath.extsep (c :: t)) as [i|] eqn:Hi; [|reflexivity].
  destruct (rfind_nat_some _ _ _ Hi) as (pre & body & Heq & <- & _).
  destruct pre as [|c' pre]; cbn [app] in Heq; injection Heq as Hc' Ht.
  { congruence. }
  subst c' t.
  destruct (Z.ltb_spec (-1) (Z.of_nat (List.length (c :: pre)))) as [_|Hf]; [|lia].
  unfold slice, upto, from.
  replace (Z.to_nat (-1 + 1)) with 0%nat by lia.
  replace (Z.to_nat (Z.of_nat (List.length (c :: pre)) - (-1 + 1)))
    with (List.length (c :: pre)) by lia.
  rewrite Nat2Z.id. cbn [skipn].
  change (c :: pre ++ PosixPath.extsep :: body)
    with ((c :: pre) ++ PosixPath.extsep :: body).
  rewrite firstn_length_app. cbn [existsb].
  rewrite (ascii_eqb_neq c PosixPath.extsep Hc). cbn [negb orb snd].
  reflexivity.
Qed.

End StringFacts.

(* ===================================================================== *)
(** * Properties of [audioToText2.py]                                     *)
(* ===================================================================== *)

Section Chunking.
Import Py AudioToText.

Lemma ceil_quot_bounds (num den : Z) :
  0 < den -> den * (ceil_quot num den - 1) < num <= den * ceil_quot num den.
Proof.
  intros Hden. unfold ceil_quot.
  pose proof (Z.div_mod (- num) den) as Hdm.
  pose proof (Z.mod_pos_bound (- num) den Hden) as Hr.
  lia.
Qed.

Lemma chunk_count_nonneg (len C : Z) :
  0 <= len -> 0 < C -> 0 <= chunk_count len C.
Proof.
  intros Hlen HC. unfold chunk_count.
  pose proof (ceil_quot_bounds len (1000 * C)) as Hb. nia.
Qed.

Lemma range_length (n : Z) : 0 <= n -> Z.of_nat (List.length (range n)) = n.
Proof.
  intros Hn. unfold range. rewrite length_map, length_seq. lia.
Qed.

Lemma range_nth (n : Z) (i : nat) :
  (i < Z.to_nat n)%nat -> nth i (range n) 0 = Z.of_nat i.
Proof.
  intros Hi. unfold range.
  change 0 with (Z.of_nat 0).
  rewrite map_nth, seq_nth by assumption. reflexivity.
Qed.

Lemma chunk_windows_length (len C : Z) :
  0 <= len -> 0 < C ->
  Z.of_nat (List.length (chunk_windows len C)) = chunk_count len C.
Proof.
  intros Hlen HC. unfold chunk_windows. rewrite length_map.
  apply range_length, chunk_count_nonneg; assumption.
Qed.

Lemma chunk_windows_nth (len C : Z) (i : nat) :
  (i < List.length (chunk_windows len C))%nat ->
  nth i (chunk_windows len C) (0, 0) = chunk_window len C (Z.of_nat i).
Proof.
  unfold chunk_windows. rewrite length_map. intros Hi.
  rewrite (nth_indep _ (0, 0) (chunk_window len C 0)) by (rewrite length_map; exact Hi).
  rewrite map_nth. f_equal. apply range_nth.
  unfold range in Hi. rewrite length_map, length_seq in Hi. exact Hi.
Qed.

(** The windows of the indices [k], [k+1], ..., [k+m-1], when [k+m] is the
    number of chunks, run from the start of chunk [k] to the end. *)
Lemma tiles_from (len C : Z) (m k : nat) :
  0 < C ->
  Z.of_nat (k + m) = chunk_count len C ->
  (m = 0%nat -> Z.of_nat k * C * 1000 = len) ->
  tiles (Z.of_nat k * C * 1000) len
    (map (chunk_window len C) (map Z.of_nat (seq k m))).
Proof.
  intros HC. revert k. induction m as [|m IH]; intros k Hn Hz.
  - simpl. apply Hz. reflexivity.
  - pose proof (ceil_quot_bounds len (1000 * C)) as Hb.
    fold (chunk_count len C) in Hb.
    cbn [seq map tiles chunk_window]. split; [reflexivity|].
    destruct m as [|m'].
    + assert (Hmin : Z.min ((Z.of_nat k + 1) * C * 1000) len = len) by nia.
      rewrite Hmin. split; [nia|]. simpl. reflexivity.
    + assert (Hmin : Z.min ((Z.of_nat k + 1) * C * 1000) len
                     = Z.of_nat (S k) * C * 1000) by nia.
      rewrite Hmin. split; [nia|].
      apply IH; [lia | discriminate].
Qed.

Lemma chunk_windows_tiles (len C : Z) :
  0 <= len -> 0 < C -> tiles 0 len (chunk_windows len C).
Proof.
  intros Hlen HC.
  pose proof (chunk_count_nonneg len C Hlen HC) as Hn.
  pose proof (ceil_quot_bounds len (1000 * C)) as Hb.
  fold (chunk_count len C) in Hb.
  unfold chunk_windows, range.
  change 0 with (Z.of_nat 0 * C * 1000) at 1.
  apply tiles_from; [assumption | lia | ].
  intros Hz. nia.
Qed.

Lemma chunk_window_length (len C : Z) (i : Z) :
  0 < C -> 0 <= i < chunk_count len C ->
  let w := chunk_window len C i in
  snd w - fst w =
    if i + 1 <? chunk_count len C then 1000 * C
    else if len mod (1000 * C) =? 0 then 1000 * C
         else len mod (1000 * C).
Proof.
  intros HC Hi.
  pose proof (ceil_quot_bounds len (1000 * C)) as Hb.
  fold (chunk_count len C) in Hb.
  cbn [chunk_window fst snd].
  destruct (Z.ltb_spec (i + 1) (chunk_count len C)) as [Hlt|Hge].
  - nia.
  - assert (Hi' : i = chunk_count len C - 1) by lia.
    assert (Hmin : Z.min ((i + 1) * C * 1000) len = len) by nia.
    rewrite Hmin.
    destruct (Z.eqb_spec (len mod (1000 * C)) 0) as [Hz|Hnz].
    + apply Z.mod_divide in Hz; [|lia]. destruct Hz as [q Hq].
      assert (Hq' : q = i + 1).
      { assert (i < q) by nia. assert (q < i + 2) by nia. lia. }
      subst q. lia.
    + pose proof (Z.mod_pos_bound len (1000 * C) ltac:(lia)) as Hm.
      pose proof (Z.div_mod len (1000 * C) ltac:(lia)) as Hdm.
      assert (Hq : len / (1000 * C) = i).
      { assert (i - 1 < len / (1000 * C)) by nia.
        assert (len / (1000 * C) < i + 1) by nia. lia. }
      rewrite Hq in Hdm. lia.
Qed.

(** The chunk files are the only files the loop touches. *)
Lemma transcribe_chunks_touches (resolve : str -> str) (a : audio) (C chunks : Z)
    (todo : list Z) (full_transcript : list str) (out : list message)
    (fs : filesystem) (k : str) :
  (forall i, In i todo -> resolve (chunk_path i) <> k) ->
  fst (fst (transcribe_chunks resolve a C chunks todo full_transcript out fs)) !! k
  = fs !! k.
Proof.
  revert full_transcript out fs.
  induction todo as [|i todo IH]; intros full_transcript out fs Hk; [reflexivity|].
  cbn [transcribe_chunks].
  destruct (chunk_window (length_ms a) C i) as [start_time end_time].
  assert (Hi : resolve (chunk_path i) <> k) by (apply Hk; left; reflexivity).
  assert (Hrest : forall j, In j todo -> resolve (chunk_path j) <> k)
    by (intros j Hj; apply Hk; right; exact Hj).
  assert (Hstep : remove resolve
                    (export resolve fs (chunk_path i)
                       (audio_slice a start_time end_time))
                    (chunk_path i) !! k
                  = fs !! k).
  { unfold remove, export.
    rewrite lookup_delete_ne, lookup_insert_ne by exact Hi. reflexivity. }
  destruct (heard a start_time end_time) as [text|e].
  - rewrite IH by exact Hrest. exact Hstep.
  - destruct e;
      try (cbn [fst]; unfold export; rewrite lookup_insert_ne by exact Hi;
           reflexivity);
      rewrite IH by exact Hrest; exact Hstep.
Qed.

(** What the loop prints and returns does not depend on the file system. *)
Lemma transcribe_chunks_frame (resolve : str -> str) (a : audio) (C chunks : Z)
    (todo : list Z) (full_transcript : list str) (out : list message)
    (fs fs' : filesystem) :
  snd (transcribe_chunks resolve a C chunks todo full_transcript out fs)
  = snd (transcribe_chunks resolve a C chunks todo full_transcript out fs')
  /\ snd (fst (transcribe_chunks resolve a C chunks todo full_transcript out fs))
     = snd (fst (transcribe_chunks resolve a C chunks todo full_transcript out fs')).
Proof.
  revert full_transcript out fs fs'.
  induction todo as [|i todo IH]; intros full_transcript out fs fs';
    [split; reflexivity|].
  cbn [transcribe_chunks].
  destruct (chunk_window (length_ms a) C i) as [start_time end_time].
  destruct (heard a start_time end_time) as [text|e]; [apply IH|].
  destruct e; try (split; reflexivity); apply IH.
Qed.

Lemma transcribe_segment_touches (resolve : str -> str) (fs : filesystem)
    (a : audio) (C : Z) (k : str) :
  (forall i, resolve (chunk_path i) <> k) ->
  fst (fst (transcribe_segment resolve fs a C)) !! k = fs !! k.
Proof.
  intros Hk. unfold transcribe_segment. destruct (C =? 0); [reflexivity|].
  pose proof (transcribe_chunks_touches resolve a C (chunk_count (length_ms a) C)
                (range (chunk_count (length_ms a) C)) [] [] fs k
                (fun i _ => Hk i)) as H.
  destruct (transcribe_chunks resolve a C _ _ [] [] fs) as [[fs' out] r].
  exact H.
Qed.

Lemma transcribe_segment_frame (resolve : str -> str) (fs fs' : filesystem)
    (a : audio) (C : Z) :
  snd (transcribe_segment resolve fs a C) = snd (transcribe_segment resolve fs' a C)
  /\ snd (fst (transcribe_segment resolve fs a C))
     = snd (fst (transcribe_segment resolve fs' a C)).
Proof.
  unfold transcribe_segment. destruct (C =? 0); [split; reflexivity|].
  pose proof (transcribe_chunks_frame resolve a C (chunk_count (length_ms a) C)
                (range (chunk_count (length_ms a) C)) [] [] fs fs') as (Hr & Hc).
  destruct (transcribe_chunks resolve a C _ _ [] [] fs) as [[fs1 out1] r1].
  destruct (transcribe_chunks resolve a C _ _ [] [] fs') as [[fs2 out2] r2].
  cbn [fst snd] in *. subst. split; reflexivity.
Qed.

(** The loop over chunks whose outcomes are all handled: every chunk is
    reported and the recognised texts are collected in order. *)
Lemma transcribe_chunks_handled (resolve : str -> str) (a : audio) (C chunks : Z)
    (todo : list Z) (full_transcript : list str) (out : list message)
    (fs : filesystem) :
  Forall (fun i => handled (heard_in a (chunk_window (length_ms a) C i)) = true) todo ->
  exists fs' out',
    transcribe_chunks resolve a C chunks todo full_transcript out fs
    = (fs', out ++ out',
       Ok (full_transcript
           ++ recognized_texts a (map (chunk_window (length_ms a) C) todo)))
    /\ List.length out' = List.length todo.
Proof.
  revert full_transcript out fs.
  induction todo as [|i todo IH]; intros full_transcript out fs Hall.
  - exists fs, []. simpl. rewrite !List.app_nil_r. split; reflexivity.
  - inversion Hall as [|? ? Hi Hrest]; subst.
    cbn [transcribe_chunks map recognized_texts flat_map].
    unfold heard_in in Hi. unfold heard_in at 1.
    destruct (chunk_window (length_ms a) C i) as [start_time end_time] eqn:Hw.
    cbn [fst snd] in *.
    destruct (heard a start_time end_time) as [text|e] eqn:Hh; cbn [recognized_text].
    + edestruct (IH (full_transcript ++ [text])
                   (out ++ [ProcessedChunk (i + 1) chunks])) as (fs' & out' & Heq & Hlen);
        [exact Hrest|].
      exists fs', (ProcessedChunk (i + 1) chunks :: out').
      rewrite Heq, <- !app_assoc. cbn [app List.length]. split; [reflexivity | lia].
    + destruct e; cbn [handled] in Hi; try discriminate.
      * edestruct (IH full_transcript (out ++ [CouldNotUnderstand (i + 1)]))
          as (fs' & out' & Heq & Hlen); [exact Hrest|].
        exists fs', (CouldNotUnderstand (i + 1) :: out').
        rewrite Heq, <- !app_assoc. cbn [app List.length]. split; [reflexivity | lia].
      * edestruct (IH full_transcript (out ++ [ServiceErrorInChunk (i + 1) msg]))
          as (fs' & out' & Heq & Hlen); [exact Hrest|].
        exists fs', (ServiceErrorInChunk (i + 1) msg :: out').
        rewrite Heq, <- !app_assoc. cbn [app List.length]. split; [reflexivity | lia].
Qed.

(** [transcribe_audio] on chunks whose outcomes are all handled. *)
Lemma transcribe_audio_handled (resolve : str -> str) (fs : filesystem)
    (audio_path : str) (a : audio) (C : Z) :
  from_file resolve fs audio_path = Ok a ->
  C <> 0 ->
  Forall (fun w => handled (heard_in a w) = true) (chunk_windows (length_ms a) C) ->
  snd (transcribe_audio resolve fs audio_path C)
  = Ok (join (lit " ") (recognized_texts a (chunk_windows (length_ms a) C)))
  /\ List.length (snd (fst (transcribe_audio resolve fs audio_path C)))
     = List.length (chunk_windows (length_ms a) C).
Proof.
  intros Hload HC Hall.
  unfold transcribe_audio. rewrite Hload. unfold transcribe_segment.
  destruct (Z.eqb_spec C 0) as [->|_]; [contradiction|].
  assert (Hall' : Forall (fun i => handled (heard_in a (chunk_window (length_ms a) C i)) = true)
                    (range (chunk_count (length_ms a) C))).
  { unfold chunk_windows in Hall. rewrite Forall_map in Hall. exact Hall. }
  destruct (transcribe_chunks_handled resolve a C (chunk_count (length_ms a) C) _
              [] [] fs Hall') as (fs' & out' & Heq & Hlen).
  rewrite Heq. cbn [fst snd bind app].
  split; [reflexivity|].
  unfold chunk_windows. rewrite length_map. exact Hlen.
Qed.




End Chunking.

Section Transcript.
Import Py AudioToText.

Lemma window_starts_sorted (len C : Z) (k m : nat) :
  0 < C ->
  StronglySorted Z.lt
    (map fst (map (chunk_window len C) (map Z.of_nat (seq k m)))).
Proof.
  intros HC. revert k. induction m as [|m IH]; intros k.
  - constructor.
  - cbn [seq map]. constructor; [apply IH|].
    apply List.Forall_forall. intros x Hx.
    apply in_map_iff in Hx. destruct Hx as (w & <- & Hw).
    apply in_map_iff in Hw. destruct Hw as (z & <- & Hz).
    apply in_map_iff in Hz. destruct Hz as (j & <- & Hj).
    apply in_seq in Hj. cbn [chunk_window fst]. nia.
Qed.

(** C3: when every chunk is either recognised, unintelligible or hit by a
    service error, [transcribe_audio] returns the recognised texts joined by
    single spaces, in the order of the chunks, whose start times increase
    strictly; a failed chunk adds nothing to the transcript, and every chunk
    is processed and reported, whatever happened to the chunks before it. *)
Theorem transcribe_audio_transcript (resolve : str -> str) (fs : filesystem)
    (audio_path : str) (a : audio) (C : Z) :
  from_file resolve fs audio_path = Ok a ->
  0 < C ->
  Forall (fun w => handled (heard_in a w) = true) (chunk_windows (length_ms a) C) ->
  let ws := chunk_windows (length_ms a) C in
  snd (transcribe_audio resolve fs audio_path C)
    = Ok (join (lit " ") (recognized_texts a ws))
  /\ List.length (snd (fst (transcribe_audio resolve fs audio_path C)))
     = List.length ws
  /\ StronglySorted Z.lt (map fst ws).
Proof.
  intros Hload HC Hall ws.
  destruct (transcribe_audio_handled resolve fs audio_path a C Hload
              ltac:(lia) Hall) as (Hres & Hout).
  split; [exact Hres|]. split; [exact Hout|].
  subst ws. unfold chunk_windows, range. apply window_starts_sorted. exact HC.
Qed.

Lemma transcribe_audio_transcript_witness :
  snd (transcribe_audio literally {[ lit "temp.wav" := Media sample_audio ]}
         (lit "temp.wav") 30)
  = Ok (lit "hello world").
Proof.
  pose proof (transcribe_audio_transcript literally
                {[ lit "temp.wav" := Media sample_audio ]} (lit "temp.wav")
                sample_audio 30) as H.
  cbv zeta in H.
  destruct H as (Hres & _ & _).
  - vm_compute. reflexivity.
  - lia.
  - vm_compute. repeat constructor.
  - rewrite Hres. vm_compute. reflexivity.
Defined.

End Transcript.

Section Driver.
Import Py AudioToText.
Variable resolve : str -> str.

Abbreviation temp := default_output_file.

Lemma convert_to_wav_ok (fs : filesystem) (input_file output_file w : str) :
  snd (convert_to_wav resolve fs input_file output_file) = Ok w ->
  w = output_file
  /\ exists a, from_file resolve fs input_file = Ok a
       /\ fst (convert_to_wav resolve fs input_file output_file)
          = export resolve fs output_file a.
Proof.
  unfold convert_to_wav.
  destruct (from_file resolve fs input_file) as [a|e]; cbn [fst snd]; intros Hw.
  - injection Hw as <-. split; [reflexivity|]. exists a. split; reflexivity.
  - discriminate.
Qed.

Lemma convert_to_wav_raise (fs : filesystem) (input_file output_file : str) (e : exn) :
  from_file resolve fs input_file = Raise e ->
  convert_to_wav resolve fs input_file output_file
  = (fs, Raise (Exception (lit "Error converting audio: " ++ exn_str e))).
Proof. intros H. unfold convert_to_wav. rewrite H. reflexivity. Qed.

Lemma chunk_paths_scratch (k : str) :
  ~ scratch resolve k -> forall i, resolve (chunk_path i) <> k.
Proof. intros Hk i Heq. apply Hk. right. exists i. symmetry. exact Heq. Qed.

Lemma temp_scratch (k : str) : ~ scratch resolve k -> resolve temp <> k.
Proof. intros Hk Heq. apply Hk. left. symmetry. exact Heq. Qed.

Lemma transcribe_audio_touches (fs : filesystem) (audio_path : str) (C : Z)
    (k : str) :
  (forall i, resolve (chunk_path i) <> k) ->
  fst (fst (transcribe_audio resolve fs audio_path C)) !! k = fs !! k.
Proof.
  intros Hk. unfold transcribe_audio.
  destruct (from_file resolve fs audio_path);
    [apply transcribe_segment_touches, Hk | reflexivity].
Qed.

(** Reading back the temporary copy gives the audio that was converted. *)
Lemma transcribe_audio_temp (fs : filesystem) (a : audio) (C : Z) :
  transcribe_audio resolve (export resolve fs temp a) temp C
  = transcribe_segment resolve (export resolve fs temp a) a C.
Proof.
  unfold transcribe_audio, from_file, export. rewrite lookup_insert_eq. reflexivity.
Qed.

Lemma try_file_touches (fs0 : filesystem) (full_path audio_file : str) (st : state) :
  only_scratch_touched resolve fs0 st ->
  only_scratch_touched resolve fs0 (try_file resolve full_path audio_file st).
Proof.
  intros (Hw & Hr & Hf). unfold try_file.
  destruct (convert_to_wav resolve (files st) full_path temp) as [fs1 [w|e]] eqn:Hc.
  - pose proof (convert_to_wav_ok (files st) full_path temp w) as Hok.
    rewrite Hc in Hok. cbn [fst snd] in Hok.
    destruct (Hok eq_refl) as (-> & a & _ & ->).
    assert (Hfs : forall k, ~ scratch resolve k ->
                    fst (fst (transcribe_audio resolve
                                (export resolve (files st) temp a) temp
                                default_chunk_duration)) !! k
                    = fs0 !! k).
    { intros k Hk.
      rewrite transcribe_audio_touches by (apply chunk_paths_scratch, Hk).
      unfold export. rewrite lookup_insert_ne by (apply temp_scratch, Hk).
      apply Hf, Hk. }
    destruct (transcribe_audio resolve _ temp default_chunk_duration)
      as [[fs2 out] [t|e]]; cbn [fst] in Hfs;
      (split; [|split]); cbn [wav_file removed files]; try assumption;
      intros w Hw'; congruence.
  - unfold convert_to_wav in Hc.
    destruct (from_file resolve (files st) full_path); [discriminate|].
    injection Hc as <- _.
    split; [|split]; cbn [wav_file removed files]; assumption.
Qed.

Lemma finally_file_touches (fs0 : filesystem) (full_path : str) (st : state) :
  only_scratch_touched resolve fs0 st ->
  only_scratch_touched resolve fs0 (fst (finally_file resolve full_path st)).
Proof.
  intros Hinv. pose proof Hinv as (Hw & Hr & Hf). unfold finally_file.
  destruct (wav_file st) as [w|] eqn:Hwav; cbn [fst]; [|exact Hinv].
  destruct (negb (str_eqb w full_path) && exists_ resolve (files st) w);
    cbn [fst]; [|exact Hinv].
  pose proof (Hw w eq_refl) as ->.
  split; [|split]; cbn [wav_file removed files].
  - intros w Hw'. congruence.
  - apply Forall_app. split; [assumption | repeat constructor].
  - intros k Hk. unfold remove.
    rewrite lookup_delete_ne by (apply temp_scratch, Hk).
    apply Hf, Hk.
Qed.

Lemma process_file_touches (fs0 : filesystem) (input_folder : str) (n i : Z)
    (audio_file : str) (st : state) :
  only_scratch_touched resolve fs0 st ->
  only_scratch_touched resolve fs0
    (fst (process_file resolve input_folder n i audio_file st)).
Proof.
  intros (Hw & Hr & Hf). unfold process_file.
  apply finally_file_touches, try_file_touches.
  split; [|split]; cbn [wav_file removed files]; assumption.
Qed.

Lemma process_files_touches (fs0 : filesystem) (input_folder : str) (n : Z)
    (todo : list str) (i : Z) (st : state) :
  only_scratch_touched resolve fs0 st ->
  only_scratch_touched resolve fs0
    (fst (process_files resolve input_folder n i todo st)).
Proof.
  revert i st. induction todo as [|f todo IH]; intros i st Hinv.
  - exact Hinv.
  - cbn [process_files].
    pose proof (process_file_touches fs0 input_folder n i f st Hinv) as Hstep.
    destruct (process_file resolve input_folder n i f st) as [st' [u|e]];
      cbn [fst] in *.
    + apply IH, Hstep.
    + exact Hstep.
Qed.

Lemma initial_touches (fs : filesystem) : only_scratch_touched resolve fs (initial fs).
Proof.
  split; [|split]; cbn [initial wav_file removed files].
  - intros w Hw. discriminate.
  - constructor.
  - reflexivity.
Qed.

Lemma main_touches (input_folder : str) (listing : list node) (fs : filesystem) :
  let st := fst (main resolve input_folder listing fs) in
  (forall w, wav_file st = Some w -> w = temp)
  /\ Forall (fun path => path = temp) (removed st)
  /\ forall path, ~ scratch resolve (resolve path) ->
       exists_ resolve fs path = true -> exists_ resolve (files st) path = true.
Proof.
  unfold main.
  destruct (scan_audio listing) as [|f rest] eqn:Hscan.
  - cbn [fst wav_file removed files]. split; [discriminate|]. split; [constructor|].
    intros path _ H. exact H.
  - pose proof (process_files_touches fs input_folder
                  (Z.of_nat (List.length (f :: rest))) (f :: rest) 0 (initial fs)
                  (initial_touches fs)) as (Hw & Hr & Hf).
    destruct (process_files resolve input_folder _ 0 (f :: rest) (initial fs))
      as [st [u|e]]; cbn [fst wav_file removed files] in *.
    + split; [exact Hw|]. split; [exact Hr|].
      intros path Hne. unfold exists_.
      destruct (decide (resolve path
                        = resolve (PosixPath.join input_folder
                                     (lit "combined_transcript.txt")))) as [->|Hk].
      * rewrite lookup_insert_eq. reflexivity.
      * rewrite lookup_insert_ne by congruence. rewrite Hf by exact Hne. tauto.
    + split; [exact Hw|]. split; [exact Hr|].
      intros path Hne. unfold exists_. rewrite Hf by exact Hne. tauto.
Qed.

(** Where [wav_file] is bound, one iteration never raises; it adds the
    section of its file, if there is one, and leaves [wav_file] bound. *)
Lemma process_file_bound (fs0 : filesystem) (input_folder : str) (n i : Z)
    (audio_file : str) (st : state) :
  only_scratch_touched resolve fs0 st ->
  ~ scratch resolve (resolve (PosixPath.join input_folder audio_file)) ->
  (wav_file st <> None
   \/ exists a, from_file resolve fs0 (PosixPath.join input_folder audio_file) = Ok a) ->
  let st' := fst (process_file resolve input_folder n i audio_file st) in
  snd (process_file resolve input_folder n i audio_file st) = Ok tt
  /\ wav_file st' <> None
  /\ all_transcripts st'
     = all_transcripts st ++ section_of resolve fs0 input_folder audio_file.
Proof.
  intros (Hw & Hr & Hf) Hne Hbound. unfold process_file, try_file, section_of.
  cbn [wav_file all_transcripts files console removed].
  set (full_path := PosixPath.join input_folder audio_file) in *.
  assert (Hload : from_file resolve (files st) full_path
                  = from_file resolve fs0 full_path).
  { unfold from_file. rewrite Hf by exact Hne. reflexivity. }
  unfold convert_to_wav. rewrite Hload.
  destruct (from_file resolve fs0 full_path) as [a|e] eqn:Hfrom.
  - rewrite transcribe_audio_temp.
    destruct (transcribe_segment_frame resolve (export resolve (files st) temp a)
                fs0 a default_chunk_duration) as (Hres & _).
    rewrite <- Hres.
    destruct (transcribe_segment resolve (export resolve (files st) temp a) a
                default_chunk_duration) as [[fs2 out] [t|e]];
      cbn [snd finally_file wav_file all_transcripts files console removed];
      destruct (negb (str_eqb temp full_path) && exists_ resolve _ temp);
      cbn [fst snd wav_file all_transcripts];
      rewrite ?List.app_nil_r; repeat split; discriminate.
  - destruct Hbound as [Hb|(a & Ha)]; [|discriminate Ha].
    destruct (wav_file st) as [w|] eqn:Hwav; [|contradiction].
    cbn [finally_file wav_file all_transcripts files console removed].
    destruct (negb (str_eqb w full_path) && exists_ resolve (files st) w);
      cbn [fst snd wav_file all_transcripts];
      rewrite ?List.app_nil_r; repeat split; try discriminate; congruence.
Qed.

Lemma process_files_bound (fs0 : filesystem) (input_folder : str) (n : Z)
    (todo : list str) (i : Z) (st : state) :
  only_scratch_touched resolve fs0 st ->
  (forall f, In f todo ->
     ~ scratch resolve (resolve (PosixPath.join input_folder f))) ->
  (wav_file st <> None
   \/ todo = []
   \/ exists a, from_file resolve fs0 (PosixPath.join input_folder (hd [] todo)) = Ok a) ->
  snd (process_files resolve input_folder n i todo st) = Ok tt
  /\ all_transcripts (fst (process_files resolve input_folder n i todo st))
     = all_transcripts st ++ flat_map (section_of resolve fs0 input_folder) todo.
Proof.
  revert i st. induction todo as [|f todo IH]; intros i st Hinv Hne Hbound.
  - cbn. rewrite List.app_nil_r. split; reflexivity.
  - cbn [process_files flat_map].
    assert (Hb : wav_file st <> None
                 \/ exists a, from_file resolve fs0 (PosixPath.join input_folder f) = Ok a).
    { destruct Hbound as [Hb|[Hb|Hb]]; [left; exact Hb | discriminate Hb | right; exact Hb]. }
    pose proof (process_file_bound fs0 input_folder n i f st Hinv
                  (Hne f (or_introl eq_refl)) Hb) as Hstep.
    pose proof (process_file_touches fs0 input_folder n i f st Hinv) as Hinv'.
    cbv zeta in Hstep.
    destruct (process_file resolve input_folder n i f st) as [st' r].
    cbn [fst snd] in *. destruct Hstep as (-> & Hw' & Ht').
    destruct (IH (i + 1) st' Hinv' (fun g Hg => Hne g (or_intror Hg))
                (or_introl Hw')) as (Hr & Ha).
    split; [exact Hr|]. rewrite Ha, Ht', <- app_assoc. reflexivity.
Qed.

(** X4: when the first audio file converts, and no input file is the
    temporary copy or a chunk file of the script, [main] runs to its end and
    the combined transcript it writes holds the sections of exactly the
    files that did not fail, in the order of the listing. *)
Lemma main_sections (input_folder : str) (listing : list node) (fs : filesystem)
    (f : str) (rest : list str) (a : audio) :
  scan_audio listing = f :: rest ->
  (forall g, In g (f :: rest) ->
     ~ scratch resolve (resolve (PosixPath.join input_folder g))) ->
  from_file resolve fs (PosixPath.join input_folder f) = Ok a ->
  let st := fst (main resolve input_folder listing fs) in
  snd (main resolve input_folder listing fs) = Ok tt
  /\ all_transcripts st = flat_map (section_of resolve fs input_folder) (f :: rest)
  /\ files st !! resolve (PosixPath.join input_folder (lit "combined_transcript.txt"))
     = Some (Text (join nl (all_transcripts st))).
Proof.
  intros Hscan Hne Hfirst. unfold main. rewrite Hscan.
  destruct (process_files_bound fs input_folder (Z.of_nat (List.length (f :: rest)))
              (f :: rest) 0 (initial fs) (initial_touches fs) Hne
              (or_intror (or_intror (ex_intro _ a Hfirst)))) as (Hr & Ha).
  destruct (process_files resolve input_folder _ 0 (f :: rest) (initial fs))
    as [st r]. cbn [fst snd] in *. subst r.
  cbn [fst snd all_transcripts files]. split; [reflexivity|].
  split; [exact Ha|]. apply lookup_insert_eq.
Qed.

(** C10: [convert_to_wav], called with its default output path, writes the
    converted audio to [temp.wav] and returns that path for every input it
    can decode, WAV inputs included.  Provided no input file is the file
    [temp.wav] names, the returned path differs from the input path, so the
    comparison of the cleanup is true; [main] itself calls [os.remove] on
    [temp.wav] only, and every input file that is not one of the chunk
    files [transcribe_audio] writes and removes still exists at the end. *)
Theorem convert_to_wav_temporary_copy (input_folder : str) (listing : list node)
    (fs : filesystem) :
  (forall f, In f (scan_audio listing) ->
     resolve (PosixPath.join input_folder f) <> resolve (lit "temp.wav")) ->
  let st := fst (main resolve input_folder listing fs) in
  (forall fs' input_file w,
     snd (convert_to_wav resolve fs' input_file default_output_file) = Ok w ->
     w = lit "temp.wav"
     /\ exists a, from_file resolve fs' input_file = Ok a
          /\ from_file resolve
               (fst (convert_to_wav resolve fs' input_file default_output_file)) w
             = Ok a)
  /\ (forall f fs' w, In f (scan_audio listing) ->
        snd (convert_to_wav resolve fs' (PosixPath.join input_folder f)
               default_output_file) = Ok w ->
        negb (str_eqb w (PosixPath.join input_folder f)) = true)
  /\ (forall f w, In f (scan_audio listing) -> wav_file st = Some w ->
        negb (str_eqb w (PosixPath.join input_folder f)) = true)
  /\ Forall (fun path => path = lit "temp.wav") (removed st)
  /\ (forall f, In f (scan_audio listing) ->
        (forall i, resolve (PosixPath.join input_folder f)
                   <> resolve (chunk_path i)) ->
        exists_ resolve fs (PosixPath.join input_folder f) = true ->
        exists_ resolve (files st) (PosixPath.join input_folder f) = true).
Proof.
  intros Hprov st.
  assert (Hdiff : forall f, In f (scan_audio listing) ->
            negb (str_eqb temp (PosixPath.join input_folder f)) = true).
  { intros f Hf. rewrite str_eqb_neq; [reflexivity|].
    intros Heq. apply (Hprov f Hf). rewrite <- Heq. reflexivity. }
  destruct (main_touches input_folder listing fs) as (Hw & Hr & Hex).
  fold st in Hw, Hr, Hex.
  split; [|split; [|split; [|split]]].
  - intros fs' input_file w Hok.
    destruct (convert_to_wav_ok fs' input_file temp w Hok) as (-> & a & Ha & Hfs).
    split; [reflexivity|]. exists a. split; [exact Ha|].
    rewrite Hfs. unfold from_file, export. rewrite lookup_insert_eq. reflexivity.
  - intros f fs' w Hf Hok.
    destruct (convert_to_wav_ok fs' _ temp w Hok) as (-> & _).
    apply Hdiff, Hf.
  - intros f w Hf Hwav. rewrite (Hw w Hwav). apply Hdiff, Hf.
  - exact Hr.
  - intros f Hf Hchunk. apply Hex.
    intros [Htemp|(i & Hi)]; [exact (Hprov f Hf Htemp) | exact (Hchunk i Hi)].
Qed.

(** C1, where the code departs from it: when the first audio file cannot be
    converted, the [finally] block reads the unbound [wav_file];
    [UnboundLocalError] leaves the loop and [main], no further file is
    processed and no combined transcript is written. *)
Theorem main_first_conversion_failure (input_folder : str) (listing : list node)
    (fs : filesystem) (f : str) (rest : list str) (e : exn) :
  scan_audio listing = f :: rest ->
  from_file resolve fs (PosixPath.join input_folder f) = Raise e ->
  main resolve input_folder listing fs
  = ({| wav_file := None;
        all_transcripts := [];
        files := fs;
        console :=
          [ProcessingFile 1 (Z.of_nat (List.length (f :: rest))) f;
           ErrorOccurred f
             (Exception (lit "Error converting audio: " ++ exn_str e))];
        removed := [] |},
     Raise (UnboundLocalError (lit "wav_file"))).
Proof.
  intros Hscan Hfail. unfold main. rewrite Hscan.
  cbn [process_files]. unfold process_file, try_file.
  cbn [initial wav_file all_transcripts files console removed].
  rewrite (convert_to_wav_raise fs _ temp e Hfail).
  cbn [finally_file wav_file all_transcripts files console removed app].
  reflexivity.
Qed.

End Driver.

Section DriverExamples.
Import Py AudioToText.

(** Under literal path resolution a path that does not begin with the
    letter t is neither the temporary copy nor a chunk file. *)
Lemma not_scratch_literally (c : ascii) (path : str) :
  c <> "t"%char -> ~ scratch literally (c :: path).
Proof.
  intros Hc [H|(i & H)];
    cbv [literally default_output_file chunk_path lit] in H;
    cbn [list_ascii_of_string app] in H; injection H as H _; exact (Hc H).
Qed.

Lemma chunk_path_not_temp (i : Z) : chunk_path i <> lit "temp.wav".
Proof.
  cbv [chunk_path lit]. cbn [list_ascii_of_string app]. discriminate.
Qed.

Lemma convert_to_wav_temporary_copy_witness :
  removed (fst (main literally (lit "in") [File (lit "a.wav"); File (lit "b.mp3")]
                  {[ lit "in/a.wav" := Media sample_audio;
                     lit "in/b.mp3" := Media sample_audio ]}))
  = [lit "temp.wav"; lit "temp.wav"]
  /\ Forall (fun path => path = lit "temp.wav")
       (removed (fst (main literally (lit "in")
                        [File (lit "a.wav"); File (lit "b.mp3")]
                        {[ lit "in/a.wav" := Media sample_audio;
                           lit "in/b.mp3" := Media sample_audio ]}))).
Proof.
  split; [vm_compute; reflexivity|].
  refine (proj1 (proj2 (proj2 (proj2
    (convert_to_wav_temporary_copy literally (lit "in")
       [File (lit "a.wav"); File (lit "b.mp3")]
       {[ lit "in/a.wav" := Media sample_audio;
          lit "in/b.mp3" := Media sample_audio ]} _))))).
  intros f Hf. vm_compute in Hf.
  destruct Hf as [<-|[<-|[]]]; vm_compute; discriminate.
Defined.

Lemma main_first_conversion_failure_witness :
  snd (main literally (lit "in") sample_listing sample_files)
  = Raise (UnboundLocalError (lit "wav_file"))
  /\ files (fst (main literally (lit "in") sample_listing sample_files))
       !! lit "in/combined_transcript.txt" = None.
Proof.
  rewrite (main_first_conversion_failure literally (lit "in") sample_listing
             sample_files (lit "bad.mp3") [lit "good.mp3"]
             (CouldntDecodeError (lit "Decoding failed"))).
  - split; [reflexivity | vm_compute; reflexivity].
  - vm_compute. reflexivity.
  - vm_compute. reflexivity.
Defined.

End DriverExamples.

(* ===================================================================== *)
(** * The folder scanners of both scripts                                 *)
(* ===================================================================== *)

Section Scanners.
Import Py.

Lemma node_nested_ind (P : node -> Prop) :
  (forall f, P (File f)) ->
  (forall d children, Forall P children -> P (Dir d children)) ->
  forall n, P n.
Proof.
  intros HF HD. fix IH 1. intros [f|d children].
  - apply HF.
  - apply HD. induction children as [|n children IHc]; constructor.
    + apply IH.
    + exact IHc.
Qed.

Lemma file_names_In (entries : list node) (f : str) :
  In f (VideoToAudio.file_names entries) <-> In (File f) entries.
Proof.
  unfold VideoToAudio.file_names. rewrite in_map_iff. split.
  - intros (n & Hname & Hin). apply filter_In in Hin. destruct Hin as (Hin & Hfile).
    destruct n as [g|d children]; [|discriminate]. cbn in Hname. subst g. exact Hin.
  - intros Hin. exists (File f). split; [reflexivity|].
    apply filter_In. split; [exact Hin | reflexivity].
Qed.

Lemma walk_in_dir (top d : str) (children : list node) :
  VideoToAudio.walk_in top (Dir d children)
  = VideoToAudio.walk (PosixPath.join top d) children.
Proof. reflexivity. Qed.

(** Every file [os.walk] reports lies in the tree, under the path that
    [os.path.join] forms from the reported directory. *)
Lemma walk_sound (entries : list node) :
  forall top root files f,
    In (root, files) (VideoToAudio.walk top entries) -> In f files ->
    file_under top entries (PosixPath.join root f) f.
Proof.
  assert (Hnode : forall n top root files f,
            In (root, files) (VideoToAudio.walk_in top n) -> In f files ->
            forall es, In n es ->
            file_under top es (PosixPath.join root f) f).
  { induction n as [g|d children IHc] using node_nested_ind;
      intros top root files f Hin Hf es Hn.
    - destruct Hin.
    - rewrite walk_in_dir in Hin. unfold VideoToAudio.walk in Hin.
      apply (file_below top es d children); [exact Hn|].
      destruct Hin as [[= <- <-]|Hin].
      + apply file_here. apply file_names_In, Hf.
      + apply in_flat_map in Hin. destruct Hin as (n & Hn' & Hin).
        rewrite List.Forall_forall in IHc.
        apply (IHc n Hn' _ root files f Hin Hf children Hn'). }
  intros top root files f Hin Hf. unfold VideoToAudio.walk in Hin.
  destruct Hin as [[= <- <-]|Hin].
  - apply file_here. apply file_names_In, Hf.
  - apply in_flat_map in Hin. destruct Hin as (n & Hn & Hin).
    apply (Hnode n top root files f Hin Hf entries Hn).
Qed.

(** Every file of the tree is reported by [os.walk]. *)
Lemma walk_complete (top : str) (entries : list node) (path f : str) :
  file_under top entries path f ->
  exists root files,
    In (root, files) (VideoToAudio.walk top entries) /\ In f files
    /\ path = PosixPath.join root f.
Proof.
  induction 1 as [top entries f Hin | top entries d children path f Hd _ IH].
  - exists top, (VideoToAudio.file_names entries).
    split; [left; reflexivity|]. split; [apply file_names_In, Hin | reflexivity].
  - destruct IH as (root & files & Hw & Hf & ->).
    exists root, files. split; [|split; [exact Hf | reflexivity]].
    right. apply in_flat_map. exists (Dir d children).
    split; [exact Hd | rewrite walk_in_dir; exact Hw].
Qed.

Lemma scan_videos_In (top : str) (entries : list node) (path : str) :
  In path (VideoToAudio.scan_videos top entries)
  <-> exists f, file_under top entries path f
                /\ VideoToAudio.is_video_name f = true.
Proof.
  unfold VideoToAudio.scan_videos. rewrite in_flat_map. split.
  - intros ([root files] & Hw & Hin). apply in_map_iff in Hin.
    destruct Hin as (f & <- & Hf). apply filter_In in Hf. destruct Hf as (Hf & Hv).
    exists f. split; [apply (walk_sound entries top root files f Hw Hf) | exact Hv].
  - intros (f & Hu & Hv).
    destruct (walk_complete top entries path f Hu) as (root & files & Hw & Hf & ->).
    exists (root, files). split; [exact Hw|].
    apply in_map_iff. exists f. split; [reflexivity|].
    apply filter_In. split; [exact Hf | exact Hv].
Qed.

Lemma scan_audio_In (listing : list node) (f : str) :
  In f (AudioToText.scan_audio listing)
  <-> In (File f) listing
      /\ In (splitext_ext (lower f)) AudioToText.audio_extensions.
Proof.
  unfold AudioToText.scan_audio. rewrite filter_In.
  change (map node_name (List.filter is_file listing))
    with (VideoToAudio.file_names listing).
  rewrite file_names_In. unfold AudioToText.is_audio_name.
  rewrite existsb_str_eqb. reflexivity.
Qed.

(** Every video extension is a dot followed by a body without dots. *)
Lemma video_extensions_shape :
  Forall (fun ext => exists body,
            ext = PosixPath.extsep :: body /\ ~ In PosixPath.extsep body)
    VideoToAudio.video_extensions.
Proof.
  unfold VideoToAudio.video_extensions.
  repeat (constructor;
          [eexists; split; [reflexivity|];
           cbn; intros H; repeat (destruct H as [H|H]; [discriminate H|]); exact H|]).
  constructor.
Qed.

Lemma is_video_name_last_dot (f : str) :
  VideoToAudio.is_video_name f = true
  <-> In (last_dot_ext (lower f)) VideoToAudio.video_extensions.
Proof.
  unfold VideoToAudio.is_video_name. rewrite existsb_exists.
  pose proof video_extensions_shape as Hshape.
  rewrite List.Forall_forall in Hshape. split.
  - intros (ext & Hext & Hend).
    destruct (Hshape ext Hext) as (body & -> & Hbody).
    apply endswith_last_dot_ext in Hend; [|exact Hbody].
    rewrite Hend. exact Hext.
  - intros Hin. exists (last_dot_ext (lower f)). split; [exact Hin|].
    destruct (Hshape _ Hin) as (body & Heq & Hbody).
    rewrite Heq. apply endswith_last_dot_ext; [exact Hbody | exact Heq].
Qed.

(** C4, as the code has it: the audio scanner selects, among the files of
    the flat listing, exactly those whose [os.path.splitext] extension,
    taken on the lower-cased name, is in the audio list; the video scanner
    selects, among the files of the whole tree, exactly those whose
    lower-cased name ends with an extension of the video list, that is,
    whose text from the last dot on is in the list, a name that is nothing
    but the extension, such as [.mp4], included; on a name that does not
    begin with a dot the two readings of the extension are the same. *)
Theorem scanners_select :
  (forall (listing : list node) (f : str),
     In f (AudioToText.scan_audio listing)
     <-> In (File f) listing
         /\ In (splitext_ext (lower f)) AudioToText.audio_extensions)
  /\ (forall (top : str) (entries : list node) (path : str),
        In path (VideoToAudio.scan_videos top entries)
        <-> exists f, file_under top entries path f
                      /\ In (last_dot_ext (lower f)) VideoToAudio.video_extensions)
  /\ (forall f : str,
        existsb (fun ext => endswith ext (lower f)) VideoToAudio.video_extensions
        = true
        <-> In (last_dot_ext (lower f)) VideoToAudio.video_extensions)
  /\ In (lit "v/.mp4") (VideoToAudio.scan_videos (lit "v") [File (lit ".mp4")])
  /\ (forall (c : ascii) (t : str),
        c <> PosixPath.extsep -> ~ In PosixPath.sep (c :: t) ->
        splitext_ext (c :: t) = last_dot_ext (c :: t)).
Proof.
  split; [exact scan_audio_In|]. split; [|split; [|split]].
  - intros top entries path. rewrite scan_videos_In.
    split; intros (f & Hu & Hv); exists f; (split; [exact Hu|]);
      apply is_video_name_last_dot; exact Hv.
  - exact is_video_name_last_dot.
  - vm_compute. left. reflexivity.
  - exact splitext_ext_last_dot.
Qed.

(** C4 as stated fails under either reading of "extension": with the
    extension of [os.path.splitext], the video scanner selects the file
    [.mp4], which has none; with the text from the last dot on, the audio
    scanner leaves out the file [.mp3]. *)
Lemma scanners_select_counterexample :
  ~ scanners_select_by splitext_ext /\ ~ scanners_select_by last_dot_ext.
Proof.
  split.
  - intros [_ Hv].
    destruct (proj1 (Hv (lit "v") [File (lit ".mp4")] (lit "v/.mp4")))
      as (f & Hu & Hin).
    { vm_compute. left. reflexivity. }
    assert (Hf : f = lit ".mp4").
    { inversion Hu as [? ? ? Hin' | ? ? ? ? ? ? Hd _]; subst.
      - destruct Hin' as [[= <-]|[]]. reflexivity.
      - destruct Hd as [Hd|[]]. discriminate Hd. }
    subst f. vm_compute in Hin.
    repeat (destruct Hin as [Hin|Hin]; [discriminate Hin|]). exact Hin.
  - intros [Ha _].
    assert (Hin : In (lit ".mp3") (AudioToText.scan_audio [File (lit ".mp3")])).
    { apply Ha. split; [left; reflexivity | vm_compute; left; reflexivity]. }
    vm_compute in Hin. exact Hin.
Qed.

Lemma scanners_select_witness :
  splitext_ext (lit "clip.mp4") = last_dot_ext (lit "clip.mp4").
Proof.
  apply (proj2 (proj2 (proj2 (proj2 scanners_select))) "c"%char (lit "lip.mp4")).
  - discriminate.
  - vm_compute. intros H. repeat (destruct H as [H|H]; [discriminate H|]). exact H.
Defined.

End Scanners.

(* ===================================================================== *)
(** * Properties of [VideoToAudio.py]                                     *)
(* ===================================================================== *)

Section OutputDirs.
Import Py VideoToAudio.

Lemma makedirs_nonempty (path : str) :
  path <> [] -> makedirs path = ([Makedirs path], Ok tt).
Proof. destruct path; [contradiction | reflexivity]. Qed.

(** The directory [extract_audio] creates is never the empty path. *)
Lemma makedirs_guarded (dir : str) :
  makedirs (match dir with [] => lit "." | _ => dir end)
  = ([Makedirs (match dir with [] => lit "." | _ => dir end)], Ok tt).
Proof. destruct dir; reflexivity. Qed.

Lemma all_sep_spec (l : str) :
  PosixPath.all_sep l = true <-> forall c, In c l -> c = PosixPath.sep.
Proof.
  induction l as [|a l IH]; cbn [PosixPath.all_sep].
  - split; [intros _ c [] | reflexivity].
  - rewrite andb_true_iff, ascii_eqb_eq, IH. split.
    + intros (-> & H) c [<-|Hc]; [reflexivity | apply H, Hc].
    + intros H. split; [apply H; left; reflexivity|].
      intros c Hc. apply H. right. exact Hc.
Qed.

Lemma lstrip_sep_nil (l : str) :
  PosixPath.lstrip_sep l = [] -> PosixPath.all_sep l = true.
Proof.
  induction l as [|a l IH]; [reflexivity|]. cbn [PosixPath.lstrip_sep PosixPath.all_sep].
  destruct (ascii_eqb a PosixPath.sep); [exact IH | discriminate].
Qed.

(** A path with a slash has a directory part. *)
Lemma dirname_nonempty (p : str) :
  In PosixPath.sep p -> PosixPath.dirname p <> [].
Proof.
  intros Hin. unfold PosixPath.dirname, rfind.
  destruct (rfind_nat PosixPath.sep p) as [i|] eqn:Hi;
    [|apply rfind_nat_none in Hi; contradiction].
  destruct (rfind_nat_some _ _ _ Hi) as (pre & body & -> & <- & _).
  unfold upto.
  replace (Z.to_nat (Z.of_nat (List.length pre) + 1))
    with (List.length (pre ++ [PosixPath.sep]))
    by (rewrite length_app; cbn [List.length]; lia).
  change (pre ++ PosixPath.sep :: body) with (pre ++ [PosixPath.sep] ++ body).
  rewrite app_assoc, firstn_length_app.
  destruct (pre ++ [PosixPath.sep]) as [|c head] eqn:Hhead;
    [destruct pre; discriminate Hhead|].
  destruct (PosixPath.all_sep (c :: head)) eqn:Hall; [discriminate|].
  intros Hnil. apply (f_equal (@rev ascii)) in Hnil.
  rewrite rev_involutive in Hnil. cbn [rev] in Hnil.
  apply lstrip_sep_nil in Hnil.
  assert (Hall' : PosixPath.all_sep (c :: head) = true).
  { apply all_sep_spec. intros x Hx.
    apply (proj1 (all_sep_spec _) Hnil). apply in_rev in Hx. exact Hx. }
  congruence.
Qed.

Lemma join_has_sep (a b : str) : a <> [] -> In PosixPath.sep (PosixPath.join a b).
Proof.
  intros Ha. unfold PosixPath.join.
  destruct (startswith [PosixPath.sep] b) eqn:Hb.
  - apply startswith_spec in Hb. destruct Hb as (t & ->). left. reflexivity.
  - destruct a as [|c a]; [contradiction|].
    destruct (endswith [PosixPath.sep] (c :: a)) eqn:He.
    + apply endswith_spec in He. destruct He as (pre & ->).
      apply in_or_app. left. apply in_or_app. right. left. reflexivity.
    + apply in_or_app. right. left. reflexivity.
Qed.

(** Under an output folder with a name, the directory of every derived
    output path can be created. *)
Lemma output_path_dir (cwd input_folder output_folder audio_format video_path : str)
    (output_path : str) :
  output_folder <> [] ->
  output_path_of cwd input_folder output_folder audio_format video_path
  = Ok output_path ->
  makedirs (PosixPath.dirname output_path)
  = ([Makedirs (PosixPath.dirname output_path)], Ok tt).
Proof.
  intros Hne. unfold output_path_of.
  destruct (PosixPath.relpath cwd video_path input_folder) as [rel_path|e];
    [|discriminate].
  cbn [bind]. intros [= <-].
  apply makedirs_nonempty, dirname_nonempty, join_has_sep, Hne.
Qed.

End OutputDirs.

Section Progress.
Import Py VideoToAudio.
Context {FL : PyFloat}.

(** [extract_audio] after its first line, which always succeeds. *)
Lemma extract_audio_eq (t : tools)
    (video_path output_path audio_format audio_bitrate : str) :
  extract_audio t video_path output_path audio_format audio_bitrate
  = let dir := PosixPath.dirname output_path in
    let ev0 := [Makedirs (match dir with [] => lit "." | _ => dir end)] in
    match get_video_duration t video_path with
    | (ev1, Raise e) => (ev0 ++ ev1, Raise e)
    | (ev1, Ok duration) =>
        if num_is_zero duration then (ev0 ++ ev1, Ok false)
        else
          let cmd := ffmpeg_cmd video_path output_path audio_format audio_bitrate in
          let run := ffmpeg t cmd in
          let ev2 :=
            [Run cmd;
             PbarOpen (lit "Extracting " ++ PosixPath.basename video_path)] in
          match track_progress duration 0 (stderr_lines run) with
          | (ev3, _, Raise e) => (ev0 ++ ev1 ++ ev2 ++ ev3, Raise e)
          | (ev3, _, Ok _) =>
              if negb (returncode run =? 0) then
                (ev0 ++ ev1 ++ ev2 ++ ev3
                 ++ [PbarClose; Print (ErrorExtracting video_path);
                     Print (ToolDiagnostics (stderr_rest run))],
                 Ok false)
              else
                (ev0 ++ ev1 ++ ev2 ++ ev3
                 ++ [PbarClose; Print (Extracted output_path (output_size run))],
                 Ok true)
          end
    end.
Proof. unfold extract_audio. rewrite makedirs_guarded. reflexivity. Qed.

Lemma clamp_some (r : result (option Z)) (p : Z) :
  clamp r = Ok (Some p) ->
  exists percent, r = Ok (Some percent) /\ p = Z.min percent 100.
Proof.
  destruct r as [[percent|]|e]; cbn [clamp]; try discriminate.
  intros [= <-]. exists percent. split; reflexivity.
Qed.

(** A progress value read from a line is the clamped percentage of a time
    stamp. *)
Lemma progress_of_line_some (duration : pynum) (line : str) (p : Z) :
  progress_of_line duration line = Ok (Some p) ->
  exists hours minutes seconds percent,
    percent_of duration hours minutes seconds = Ok (Some percent)
    /\ p = Z.min percent 100.
Proof.
  unfold progress_of_line.
  destruct (contains (lit "time=") line); [|discriminate].
  destruct (split (lit "time=") line) as [|before [|after rest]]; try discriminate.
  destruct (split_ws after) as [|stamp toks]; [discriminate|].
  destruct (stamp_fields stamp) as [[[hours minutes] seconds]|]; [|discriminate].
  intros Hc. destruct (clamp_some _ _ Hc) as (percent & Hp & ->).
  exists hours, minutes, seconds, percent. split; [exact Hp | reflexivity].
Qed.

(** One line either leaves the estimate as it is or raises it to the
    clamped percentage of the line. *)
Lemma track_line_cases (duration : pynum) (last_progress : Z) (line : str)
    (p : Z) (evs : list event) :
  track_line duration last_progress line = Ok (p, evs) ->
  (p = last_progress /\ evs = [])
  \/ (last_progress < p /\ progress_of_line duration line = Ok (Some p)
      /\ evs = [PbarUpdate (p - last_progress)]).
Proof.
  unfold track_line.
  destruct (progress_of_line duration line) as [[progress|]|e]; try discriminate.
  - destruct (Z.ltb_spec last_progress progress) as [Hlt|Hge]; intros [= <- <-].
    + right. split; [exact Hlt|]. split; reflexivity.
    + left. split; reflexivity.
  - intros [= <- <-]. left. split; reflexivity.
Qed.

Lemma track_line_bounds (duration : pynum) (last_progress : Z) (line : str)
    (p : Z) (evs : list event) :
  0 <= last_progress <= 100 ->
  track_line duration last_progress line = Ok (p, evs) ->
  last_progress <= p <= 100.
Proof.
  intros Hb Ht. destruct (track_line_cases _ _ _ _ _ Ht) as [[-> _]|(Hlt & Hp & _)].
  - lia.
  - destruct (progress_of_line_some _ _ _ Hp) as (_ & _ & _ & percent & _ & ->). lia.
Qed.

Lemma track_progress_trace (duration : pynum) (lines : list str) (last_progress : Z) :
  0 <= last_progress <= 100 ->
  let trace := snd (fst (track_progress duration last_progress lines)) in
  Forall (fun p => last_progress <= p <= 100) trace
  /\ StronglySorted Z.le trace
  /\ forall final,
       snd (track_progress duration last_progress lines) = Ok final ->
       final = List.last (last_progress :: trace) 0.
Proof.
  revert last_progress. induction lines as [|line lines IH]; intros last_progress Hb.
  - cbn. split; [constructor|]. split; [constructor|]. intros final [= <-]. reflexivity.
  - cbn [track_progress].
    destruct (track_line duration last_progress line) as [[p evs]|e] eqn:Ht.
    + pose proof (track_line_bounds _ _ _ _ _ Hb Ht) as Hp.
      specialize (IH p ltac:(lia)). cbv zeta in IH.
      destruct (track_progress duration p lines) as [[evs' ps] r].
      cbn [fst snd] in *. destruct IH as (Hall & Hsorted & Hfinal).
      assert (Hall' : Forall (fun q => last_progress <= q <= 100) ps).
      { eapply List.Forall_impl; [|exact Hall]. cbn. intros q Hq. lia. }
      split; [constructor; [lia | exact Hall']|]. split.
      * constructor; [exact Hsorted|].
        eapply List.Forall_impl; [|exact Hall]. cbn. intros q Hq. lia.
      * intros final Hr. rewrite (Hfinal final Hr). reflexivity.
    + cbn. split; [constructor|]. split; [constructor|]. discriminate.
Qed.

(** C6: during one run of the progress loop, on any sequence of status
    lines, every value of [last_progress] lies between 0 and 100 and the
    values never decrease; a line whose percentage is not above the current
    estimate leaves it unchanged, and a percentage above 100 counts as 100. *)
Theorem progress_estimate_monotone (duration : pynum) (lines : list str) :
  let trace := snd (fst (track_progress duration 0 lines)) in
  Forall (fun p => 0 <= p <= 100) trace
  /\ StronglySorted Z.le (0 :: trace)
  /\ (forall final, snd (track_progress duration 0 lines) = Ok final ->
        0 <= final <= 100)
  /\ (forall last_progress line p,
        progress_of_line duration line = Ok (Some p) -> p <= last_progress ->
        track_line duration last_progress line = Ok (last_progress, []))
  /\ (forall line p,
        progress_of_line duration line = Ok (Some p) ->
        exists hours minutes seconds percent,
          percent_of duration hours minutes seconds = Ok (Some percent)
          /\ p = Z.min percent 100)
  /\ (forall last_progress line p,
        progress_of_line duration line = Ok (Some p) -> last_progress < p ->
        track_line duration last_progress line
        = Ok (p, [PbarUpdate (p - last_progress)])).
Proof.
  intros trace.
  destruct (track_progress_trace duration lines 0 ltac:(lia)) as (Hall & Hsorted & Hfinal).
  fold trace in Hall, Hsorted, Hfinal.
  split; [exact Hall|]. split.
  { constructor; [exact Hsorted|].
    eapply List.Forall_impl; [|exact Hall]. cbn. intros q Hq. lia. }
  split.
  { intros final Hr. rewrite (Hfinal final Hr).
    assert (Hall0 : Forall (fun p => 0 <= p <= 100) (0 :: trace))
      by (constructor; [lia | exact Hall]).
    revert Hall0. generalize (0 :: trace). intros l Hl.
    induction Hl as [|q l Hq Hl IHl]; [cbn; lia|].
    destruct l as [|q' l]; [exact Hq | exact IHl]. }
  split.
  { intros last_progress line p Hp Hle. unfold track_line. rewrite Hp.
    destruct (Z.ltb_spec last_progress p); [lia | reflexivity]. }
  split; [exact (progress_of_line_some duration)|].
  intros last_progress line p Hp Hlt. unfold track_line. rewrite Hp.
  destruct (Z.ltb_spec last_progress p); [reflexivity | lia].
Qed.

Lemma track_progress_quiet (duration : pynum) (lines : list str) (last_progress : Z) :
  announced (fst (fst (track_progress duration last_progress lines))) = []
  /\ existsb is_transcode (fst (fst (track_progress duration last_progress lines))) = false.
Proof.
  revert last_progress. induction lines as [|line lines IH]; intros last_progress.
  - split; reflexivity.
  - cbn [track_progress].
    destruct (track_line duration last_progress line) as [[p evs]|e] eqn:Ht;
      [|split; reflexivity].
    specialize (IH p). destruct (track_progress duration p lines) as [[evs' ps] r].
    cbn [fst snd] in *. destruct IH as (Ha & Ht').
    destruct (track_line_cases _ _ _ _ _ Ht) as [[_ ->]|(_ & _ & ->)];
      cbn [app announced flat_map existsb is_transcode orb]; split; assumption.
Qed.

(** C7: when ffprobe exits with a nonzero status, [get_video_duration]
    prints an error and returns 0; and whenever the probed duration equals
    0, [extract_audio] returns [False] and never starts ffmpeg. *)
Theorem probe_failure_short_circuits (t : tools)
    (video_path output_path audio_format audio_bitrate : str) :
  (probe_status (ffprobe t (ffprobe_cmd video_path)) <> 0 ->
   get_video_duration t video_path
   = ([Run (ffprobe_cmd video_path); Print (ErrorGettingDuration video_path)],
      Ok (PInt 0)))
  /\ (forall ev duration,
        get_video_duration t video_path = (ev, Ok duration) ->
        num_is_zero duration = true ->
        snd (extract_audio t video_path output_path audio_format audio_bitrate)
        = Ok false
        /\ existsb is_transcode
             (fst (extract_audio t video_path output_path audio_format audio_bitrate))
           = false).
Proof.
  split.
  - intros Hst. unfold get_video_duration.
    destruct (Z.eqb_spec (probe_status (ffprobe t (ffprobe_cmd video_path))) 0);
      [contradiction | reflexivity].
  - intros ev duration Hd Hz. rewrite extract_audio_eq. cbv zeta. rewrite Hd, Hz.
    cbn [fst snd]. split; [reflexivity|].
    cbn [app existsb is_transcode orb].
    unfold get_video_duration in Hd.
    destruct (probe_status (ffprobe t (ffprobe_cmd video_path)) =? 0).
    + destruct (float_of_str _); injection Hd as <- _; reflexivity.
    + injection Hd as <- _. reflexivity.
Qed.

End Progress.

Section Batch.
Import Py VideoToAudio.
Context {FL : PyFloat}.

Lemma announced_app (a b : list event) :
  announced (a ++ b) = announced a ++ announced b.
Proof. unfold announced. apply flat_map_app. Qed.

Lemma get_video_duration_quiet (t : tools) (video_path : str) :
  announced (fst (get_video_duration t video_path)) = [].
Proof.
  unfold get_video_duration.
  destruct (probe_status (ffprobe t (ffprobe_cmd video_path)) =? 0);
    [destruct (float_of_str _)|]; reflexivity.
Qed.

Lemma extract_audio_quiet (t : tools)
    (video_path output_path audio_format audio_bitrate : str) :
  announced (fst (extract_audio t video_path output_path audio_format audio_bitrate))
  = [].
Proof.
  rewrite extract_audio_eq. cbv zeta.
  pose proof (get_video_duration_quiet t video_path) as Hq.
  destruct (get_video_duration t video_path) as [ev1 [duration|e]]; cbn [fst] in *.
  - destruct (num_is_zero duration).
    + cbn [fst]. rewrite announced_app, Hq. reflexivity.
    + pose proof (track_progress_quiet duration
                    (stderr_lines (ffmpeg t (ffmpeg_cmd video_path output_path
                                                audio_format audio_bitrate))) 0)
        as (Hp & _).
      destruct (track_progress duration 0 _) as [[ev3 ps] [final|e]]; cbn [fst] in *.
      * destruct (negb (returncode _ =? 0)); cbn [fst];
          rewrite !announced_app, Hq, Hp; reflexivity.
      * rewrite !announced_app, Hq, Hp. reflexivity.
  - rewrite announced_app, Hq. reflexivity.
Qed.

Section Loop.
Variables (cwd : str) (t : tools).
Variables (input_folder output_folder audio_format audio_bitrate : str).

Abbreviation result_of :=
  (extraction_result cwd t input_folder output_folder audio_format audio_bitrate).

Abbreviation failures vs :=
  (Z.of_nat (List.length (List.filter (fun v => extraction_failed (result_of v)) vs))).

(** The loop over files whose extractions all return. *)
Lemma process_videos_tally (n : Z) (todo : list str) (i : Z) (c : tally) :
  output_folder <> [] ->
  Forall (fun v => is_ok (result_of v) = true) todo ->
  let run :=
    process_videos cwd t input_folder output_folder audio_format audio_bitrate
      n i todo c in
  snd run = Ok tt
  /\ failed (snd (fst run)) = failed c + failures todo
  /\ successful (snd (fst run))
     = successful c + (Z.of_nat (List.length todo) - failures todo)
  /\ announced (fst (fst run)) = announcements n i todo.
Proof.
  intros Hout. revert i c. induction todo as [|v todo IH]; intros i c Hall.
  - cbn. repeat split; lia.
  - inversion Hall as [|? ? Hv Hrest]; subst.
    cbn [process_videos List.filter announcements].
    assert (Hres : exists ok, result_of v = Ok ok)
      by (destruct (result_of v) as [ok|e]; [exists ok; reflexivity | discriminate]).
    destruct Hres as (ok' & Hres). rewrite Hres. clear Hv.
    unfold extraction_result in Hres.
    destruct (output_path_of cwd input_folder output_folder audio_format v)
      as [output_path|e] eqn:Hpath; [|discriminate].
    cbn [bind] in Hres.
    rewrite (output_path_dir _ _ _ _ _ _ Hout Hpath).
    pose proof (extract_audio_quiet t v output_path audio_format audio_bitrate) as Hq.
    destruct (extract_audio t v output_path audio_format audio_bitrate)
      as [ev2 [ok|e]]; cbn [fst snd] in *; [|discriminate].
    injection Hres as <-.
    match goal with
    | |- context [process_videos _ _ _ _ _ _ n (i + 1) todo ?c'] =>
        specialize (IH (i + 1) c' Hrest)
    end.
    cbv zeta in IH.
    destruct (process_videos cwd t input_folder output_folder audio_format
                audio_bitrate n (i + 1) todo _) as [[ev3 c''] r].
    cbn [fst snd] in *. destruct IH as (Hr & Hf & Hs & Ha).
    split; [exact Hr|].
    rewrite !announced_app, Hq, Ha.
    destruct ok; cbn [extraction_failed failed successful List.length] in *;
      (split; [|split; [|reflexivity]]); lia.
Qed.

End Loop.


End Batch.

Section VideoExamples.
Import Py VideoToAudio.

(** C5, where the code departs from it.  A status line with the stamp
    00:01:30.50 gives 50 percent against 180 seconds, and a line without the
    marker, or with a stamp that is no number, leaves the estimate as it is;
    but a status line on which nothing follows the marker makes
    [split()[0]] raise [IndexError] outside the [try] block, whatever the
    duration and the estimate, and the exception leaves [extract_audio]. *)
Theorem status_line_bare_marker_raises :
  progress_of_line duration_180
    (lit "size=    1408kB time=00:01:30.50 bitrate= 127.4kbits/s speed=45x")
  = Ok (Some 50)
  /\ track_line duration_180 50 (lit "time=xx:yy:zz")
     = Ok (50, [])
  /\ (forall (FL : PyFloat) (duration : pynum) (last_progress : Z),
        track_line duration last_progress (lit "no marker here") = Ok (last_progress, [])
        /\ track_line duration last_progress (lit "time=" ++ [chr 10]) = Raise IndexError)
  /\ snd (extract_audio (FL := B64.binary64) sample_tools (lit "in/odd.mp4")
            (lit "out/odd.mp3") (lit "mp3") (lit "192k"))
     = Raise IndexError.
Proof.
  split; [vm_compute; reflexivity|]. split; [vm_compute; reflexivity|].
  split; [|vm_compute; reflexivity].
  intros FL duration last_progress. split; reflexivity.
Qed.

Lemma probe_failure_short_circuits_witness :
  get_video_duration (FL := B64.binary64) sample_tools (lit "in/broken.mp4")
  = ([Run (ffprobe_cmd (lit "in/broken.mp4"));
      Print (ErrorGettingDuration (lit "in/broken.mp4"))], Ok (PInt 0))
  /\ snd (extract_audio (FL := B64.binary64) sample_tools (lit "in/broken.mp4")
            (lit "out/broken.mp3") (lit "mp3") (lit "192k"))
     = Ok false.
Proof.
  destruct (probe_failure_short_circuits (FL := B64.binary64) sample_tools
              (lit "in/broken.mp4") (lit "out/broken.mp3") (lit "mp3") (lit "192k"))
    as [Hprobe Hshort].
  assert (Hd : get_video_duration (FL := B64.binary64) sample_tools (lit "in/broken.mp4")
               = ([Run (ffprobe_cmd (lit "in/broken.mp4"));
                   Print (ErrorGettingDuration (lit "in/broken.mp4"))], Ok (PInt 0))).
  { apply Hprobe. vm_compute. discriminate. }
  split; [exact Hd|].
  exact (proj1 (Hshort _ _ Hd eq_refl)).
Defined.



End VideoExamples.

(* ===================================================================== *)
(** * The output path of a video                                          *)
(* ===================================================================== *)

Section Paths.
Import Py.

Abbreviation sep := PosixPath.sep.

Lemma split_char_nonempty (c : ascii) (s : str) : split_char c s <> [].
Proof.
  destruct s as [|a s]; cbn [split_char]; [discriminate|].
  destruct (ascii_eqb a c); [discriminate|].
  destruct (split_char c s); discriminate.
Qed.

Lemma split_char_app (c : ascii) (x y : str) :
  split_char c (x ++ c :: y) = split_char c x ++ split_char c y.
Proof.
  induction x as [|a x IH]; cbn [app split_char].
  - rewrite ascii_eqb_refl. reflexivity.
  - destruct (ascii_eqb a c); [rewrite IH; reflexivity|].
    rewrite IH. pose proof (split_char_nonempty c x) as Hne.
    destruct (split_char c x) as [|h r]; [contradiction | reflexivity].
Qed.

Lemma split_char_notin (c : ascii) (s : str) :
  ~ In c s -> split_char c s = [s].
Proof.
  induction s as [|a s IH]; intros Hn; [reflexivity|].
  cbn [split_char]. rewrite ascii_eqb_neq by (intros ->; apply Hn; left; reflexivity).
  rewrite IH by (intros Hin; apply Hn; right; exact Hin). reflexivity.
Qed.

Lemma split_char_pieces (c : ascii) (s : str) :
  Forall (fun piece => ~ In c piece) (split_char c s).
Proof.
  induction s as [|a s IH]; cbn [split_char].
  - constructor; [intros [] | constructor].
  - destruct (ascii_eqb a c) eqn:E.
    + constructor; [intros [] | exact IH].
    + destruct (split_char c s) as [|h r]; [repeat constructor|].
      * intros [->|[]]. rewrite ascii_eqb_refl in E. discriminate.
      * inversion IH as [|? ? Hh Hr]; subst. constructor; [|exact Hr].
        intros [->|Hin]; [rewrite ascii_eqb_refl in E; discriminate | exact (Hh Hin)].
Qed.

Lemma is_name_spec (d : str) :
  is_name d = true ->
  d <> [] /\ ~ In sep d /\ d <> lit "." /\ d <> lit "..".
Proof.
  unfold is_name. rewrite !andb_true_iff, !negb_true_iff.
  intros (((Hne & Hsep) & Hdot) & Hdots).
  split; [intros ->; discriminate|]. split.
  - intros Hin. apply not_true_iff_false in Hsep. apply Hsep.
    apply existsb_exists. exists sep. split; [exact Hin | apply ascii_eqb_refl].
  - split; intros ->; [rewrite str_eqb_refl in Hdot | rewrite str_eqb_refl in Hdots];
      discriminate.
Qed.

Lemma comps_nil : comps [] = [].
Proof. reflexivity. Qed.

Lemma comps_app (x y : str) : comps (x ++ sep :: y) = comps x ++ comps y.
Proof. unfold comps. rewrite split_char_app, List.filter_app. reflexivity. Qed.

Lemma comps_name (d : str) : d <> [] -> ~ In sep d -> comps d = [d].
Proof.
  intros Hne Hsep. unfold comps. rewrite split_char_notin by exact Hsep.
  destruct d; [contradiction | reflexivity].
Qed.

Lemma comps_trailing (x : str) : comps (x ++ [sep]) = comps x.
Proof. rewrite comps_app. change (comps []) with (@nil str). apply List.app_nil_r. Qed.

Lemma startswith_sep_name (d : str) : ~ In sep d -> startswith [sep] d = false.
Proof.
  intros Hsep. destruct d as [|a d]; [reflexivity|]. cbn [startswith].
  rewrite ascii_eqb_neq; [reflexivity|]. intros <-. apply Hsep. left. reflexivity.
Qed.

(** Joining a relative path adds its components. *)
Lemma comps_join (a b : str) :
  startswith [sep] b = false ->
  comps (PosixPath.join a b) = comps a ++ comps b.
Proof.
  intros Hb. unfold PosixPath.join. fold sep. rewrite Hb.
  destruct a as [|c a]; [reflexivity|].
  destruct (endswith [sep] (c :: a)) eqn:He.
  - apply endswith_spec in He. destruct He as (pre & ->).
    rewrite <- app_assoc. cbn [app]. rewrite comps_app, comps_trailing. reflexivity.
  - cbn [app]. change (c :: a ++ sep :: b) with ((c :: a) ++ sep :: b).
    apply comps_app.
Qed.

Lemma isabs_join (a b : str) :
  startswith [sep] b = false ->
  PosixPath.isabs (PosixPath.join a b) = PosixPath.isabs a.
Proof.
  intros Hb. unfold PosixPath.isabs, PosixPath.join. fold sep. rewrite Hb.
  destruct a as [|c a]; [exact Hb|].
  destruct (endswith [sep] (c :: a)); reflexivity.
Qed.

Lemma comps_join_all (l : list str) (a : str) :
  Forall (fun d => is_name d = true) l ->
  comps (PosixPath.join_all a l) = comps a ++ l
  /\ PosixPath.isabs (PosixPath.join_all a l) = PosixPath.isabs a.
Proof.
  revert a. induction l as [|d l IH]; intros a Hall.
  - cbn. rewrite app_nil_r. split; reflexivity.
  - inversion Hall as [|? ? Hd Hl]; subst.
    destruct (is_name_spec d Hd) as (Hne & Hsep & _).
    unfold PosixPath.join_all in *. cbn [fold_left].
    destruct (IH (PosixPath.join a d) Hl) as (Hc & Ha).
    pose proof (startswith_sep_name d Hsep) as Hst.
    rewrite Hc, Ha, (comps_join a d Hst), (isabs_join a d Hst),
      (comps_name d Hne Hsep).
    rewrite <- app_assoc. split; reflexivity.
Qed.

(** [normpath] passes over empty components. *)
Lemma fold_norm_step_filter (rooted : bool) (l acc : list str) :
  fold_left (PosixPath.norm_step rooted) l acc
  = fold_left (PosixPath.norm_step rooted) (List.filter PosixPath.nonempty l) acc.
Proof.
  revert acc. induction l as [|c l IH]; intros acc; [reflexivity|].
  cbn [fold_left List.filter]. destruct c as [|a c]; cbn [PosixPath.nonempty].
  - rewrite <- IH. reflexivity.
  - cbn [fold_left]. apply IH.
Qed.

Lemma norm_comps_comps (q : str) :
  PosixPath.norm_comps q
  = fold_left (PosixPath.norm_step (PosixPath.isabs q)) (comps q) [].
Proof. unfold PosixPath.norm_comps, comps. apply fold_norm_step_filter. Qed.

(** A name is pushed on the components collected so far. *)
Lemma norm_step_name (rooted : bool) (acc : list str) (d : str) :
  is_name d = true -> PosixPath.norm_step rooted acc d = acc ++ [d].
Proof.
  intros Hd. destruct (is_name_spec d Hd) as (Hne & _ & Hdot & Hdots).
  unfold PosixPath.norm_step.
  rewrite (str_eqb_neq d [] Hne), (str_eqb_neq d (lit ".") Hdot),
    (str_eqb_neq d (lit "..") Hdots).
  reflexivity.
Qed.

Lemma fold_norm_step_names (rooted : bool) (l acc : list str) :
  Forall (fun d => is_name d = true) l ->
  fold_left (PosixPath.norm_step rooted) l acc = acc ++ l.
Proof.
  revert acc. induction l as [|d l IH]; intros acc Hall.
  - symmetry. apply List.app_nil_r.
  - inversion Hall as [|? ? Hd Hl]; subst. cbn [fold_left].
    rewrite norm_step_name by exact Hd. rewrite IH by exact Hl.
    rewrite <- app_assoc. reflexivity.
Qed.

Lemma Forall_removelast (P : str -> Prop) (l : list str) :
  Forall P l -> Forall P (removelast l).
Proof.
  induction 1 as [|x l Hx Hl IH]; [constructor|].
  cbn [removelast]. destruct l; [constructor | constructor; assumption].
Qed.

Lemma norm_step_plain (rooted : bool) (acc : list str) (c : str) :
  Forall plain acc -> ~ In sep c ->
  Forall plain (PosixPath.norm_step rooted acc c).
Proof.
  intros Hacc Hc. unfold PosixPath.norm_step.
  destruct (str_eqb c []) eqn:Hnil; cbn [orb]; [exact Hacc|].
  destruct (str_eqb c (lit ".")); [exact Hacc|].
  match goal with |- Forall _ (if ?b then _ else _) => destruct b end.
  - apply Forall_app. split; [exact Hacc|]. constructor; [|constructor].
    split; [|exact Hc]. intros ->. rewrite str_eqb_refl in Hnil. discriminate.
  - apply Forall_removelast, Hacc.
Qed.

Lemma norm_comps_plain (q : str) : Forall plain (PosixPath.norm_comps q).
Proof.
  unfold PosixPath.norm_comps.
  assert (H : forall l acc, Forall (fun piece => ~ In sep piece) l ->
                Forall plain acc ->
                Forall plain
                  (fold_left (PosixPath.norm_step (startswith [sep] q)) l acc)).
  { induction l as [|c l IH]; intros acc Hl Hacc; [exact Hacc|].
    inversion Hl; subst. cbn [fold_left]. apply IH; [assumption|].
    apply norm_step_plain; assumption. }
  apply H; [apply split_char_pieces | constructor].
Qed.

Lemma comps_leading (k : nat) (x : str) : comps (repeat sep k ++ x) = comps x.
Proof.
  induction k as [|k IH]; [reflexivity|].
  cbn [repeat app]. change (sep :: repeat sep k ++ x) with ([] ++ sep :: (repeat sep k ++ x)).
  rewrite comps_app, IH. reflexivity.
Qed.

Lemma comps_joined (cs : list str) :
  Forall plain cs -> comps (Py.join [sep] cs) = cs.
Proof.
  induction 1 as [|c cs [Hne Hsep] Hcs IH]; [reflexivity|].
  destruct cs as [|c' cs].
  - cbn [Py.join]. apply comps_name; assumption.
  - change (Py.join [sep] (c :: c' :: cs)) with (c ++ sep :: Py.join [sep] (c' :: cs)).
    rewrite comps_app, IH, comps_name by assumption. reflexivity.
Qed.

(** The components of an absolute path after [normpath]. *)
Lemma comps_normpath (q : str) :
  PosixPath.isabs q = true ->
  comps (PosixPath.normpath q) = PosixPath.norm_comps q.
Proof.
  intros Habs. unfold PosixPath.isabs in Habs. unfold PosixPath.normpath.
  destruct q as [|a q]; [discriminate|]. fold sep. rewrite Habs.
  set (k := if startswith [sep; sep] (a :: q) && negb (startswith [sep; sep; sep] (a :: q))
            then 2%nat else 1%nat).
  assert (Hk : exists k', k = S k') by (subst k; destruct (_ && _); eexists; reflexivity).
  destruct Hk as (k' & Hk). rewrite Hk. cbn [repeat app].
  change (sep :: repeat sep k' ++ Py.join [sep] (PosixPath.norm_comps (a :: q)))
    with (repeat sep (S k') ++ Py.join [sep] (PosixPath.norm_comps (a :: q))).
  rewrite comps_leading. apply comps_joined, norm_comps_plain.
Qed.

Lemma common_prefix_len_app (l x : list str) :
  PosixPath.common_prefix_len l (l ++ x) = List.length l.
Proof.
  induction l as [|c l IH]; [destruct x; reflexivity|].
  cbn [PosixPath.common_prefix_len app List.length].
  rewrite str_eqb_refl, IH. reflexivity.
Qed.

Lemma endswith_sep_name (x d : str) :
  d <> [] -> ~ In sep d -> endswith [sep] (x ++ d) = false.
Proof.
  intros Hne Hsep. destruct (endswith [sep] (x ++ d)) eqn:He; [|reflexivity].
  apply endswith_spec in He. destruct He as (pre & He).
  destruct (exists_last Hne) as (d' & z & ->).
  rewrite app_assoc in He. apply app_inj_tail in He. destruct He as (_ & ->).
  exfalso. apply Hsep. apply in_or_app. right. left. reflexivity.
Qed.

(** Joining names one after the other is joining them with slashes. *)
Lemma join_all_names (l : list str) (x d : str) :
  d <> [] -> ~ In sep d ->
  Forall (fun d => is_name d = true) l ->
  PosixPath.join_all (x ++ d) l = x ++ Py.join [sep] (d :: l).
Proof.
  revert x d. induction l as [|d' l IH]; intros x d Hne Hsep Hall; [reflexivity|].
  inversion Hall as [|? ? Hd' Hl]; subst.
  destruct (is_name_spec d' Hd') as (Hne' & Hsep' & _).
  unfold PosixPath.join_all in *. cbn [fold_left].
  unfold PosixPath.join at 2. fold sep.
  rewrite (startswith_sep_name d' Hsep').
  rewrite (endswith_sep_name x d Hne Hsep).
  destruct (x ++ d) as [|a r] eqn:Hxd.
  { destruct x; cbn [app] in Hxd; [congruence | discriminate]. }
  rewrite <- Hxd.
  replace ((x ++ d) ++ [sep] ++ d') with ((x ++ d ++ [sep]) ++ d')
    by (rewrite <- !app_assoc; reflexivity).
  rewrite (IH (x ++ d ++ [sep]) d' Hne' Hsep' Hl).
  change (Py.join [sep] (d :: d' :: l)) with (d ++ [sep] ++ Py.join [sep] (d' :: l)).
  rewrite <- !app_assoc. reflexivity.
Qed.

Lemma join_cons (s d : str) (l : list str) :
  l <> [] -> Py.join s (d :: l) = d ++ s ++ Py.join s l.
Proof. destruct l; [contradiction | reflexivity]. Qed.

Lemma rel_path_prefix (ds : list str) (x : str) :
  rel_path ds x = dir_prefix ds ++ x.
Proof.
  unfold rel_path, dir_prefix. induction ds as [|d ds IH]; [reflexivity|].
  change ((d :: ds) ++ [x]) with (d :: (ds ++ [x])).
  rewrite join_cons by (destruct ds; discriminate).
  rewrite IH. cbn [map concat]. rewrite <- !app_assoc. reflexivity.
Qed.

Lemma dir_prefix_shape (ds : list str) :
  dir_prefix ds = [] \/ exists pre, dir_prefix ds = pre ++ [sep].
Proof.
  unfold dir_prefix. induction ds as [|d ds IH]; [left; reflexivity|].
  right. cbn [map concat]. destruct IH as [->|(pre & ->)].
  - exists d. rewrite List.app_nil_r. reflexivity.
  - exists ((d ++ [sep]) ++ pre). rewrite <- !app_assoc. reflexivity.
Qed.

(** [splitext] on a path whose last component has a stem and a dot-free
    extension. *)
Lemma splitext_stem_ext (pre b ext : str) :
  pre = [] \/ (exists pre', pre = pre' ++ [sep]) ->
  ~ In sep b -> ~ In sep ext -> ~ In PosixPath.extsep ext ->
  has_stem b = true ->
  PosixPath.splitext (pre ++ b ++ PosixPath.extsep :: ext)
  = (pre ++ b, PosixPath.extsep :: ext).
Proof.
  intros Hpre Hsb Hse Hde Hstem.
  assert (Htail : ~ In sep (b ++ PosixPath.extsep :: ext)).
  { intros Hin. apply in_app_or in Hin. destruct Hin as [Hin|[Heq|Hin]];
      [exact (Hsb Hin) | discriminate Heq | exact (Hse Hin)]. }
  assert (Hsep : rfind sep (pre ++ b ++ PosixPath.extsep :: ext)
                 = Z.of_nat (List.length pre) - 1).
  { unfold rfind. destruct Hpre as [->|(pre' & ->)].
    - cbn [app]. apply rfind_nat_none in Htail. rewrite Htail. reflexivity.
    - rewrite <- app_assoc. cbn [app]. rewrite rfind_nat_app by exact Htail.
      rewrite length_app. cbn [List.length]. lia. }
  assert (Hdot : rfind PosixPath.extsep (pre ++ b ++ PosixPath.extsep :: ext)
                 = Z.of_nat (List.length (pre ++ b))).
  { unfold rfind. rewrite app_assoc. rewrite rfind_nat_app by exact Hde. reflexivity. }
  unfold PosixPath.splitext. fold sep. rewrite Hsep, Hdot.
  destruct (Z.ltb_spec (Z.of_nat (List.length pre) - 1)
              (Z.of_nat (List.length (pre ++ b)))) as [_|Hge];
    [|rewrite length_app in Hge; lia].
  unfold slice, upto, from.
  replace (Z.to_nat (Z.of_nat (List.length pre) - 1 + 1)) with (List.length pre) by lia.
  replace (Z.to_nat (Z.of_nat (List.length (pre ++ b))
                     - (Z.of_nat (List.length pre) - 1 + 1)))
    with (List.length b) by (rewrite length_app; lia).
  rewrite Nat2Z.id.
  rewrite (skipn_length_app pre), (firstn_length_app b).
  fold (has_stem b). rewrite Hstem.
  rewrite app_assoc, firstn_length_app, skipn_length_app. reflexivity.
Qed.

(** [splitext] on a path whose last component has nothing but dots before
    its last dot: there is no extension to split off. *)
Lemma splitext_no_stem (pre b ext : str) :
  pre = [] \/ (exists pre', pre = pre' ++ [sep]) ->
  ~ In sep b -> ~ In sep ext -> ~ In PosixPath.extsep ext ->
  has_stem b = false ->
  PosixPath.splitext (pre ++ b ++ PosixPath.extsep :: ext)
  = (pre ++ b ++ PosixPath.extsep :: ext, []).
Proof.
  intros Hpre Hsb Hse Hde Hstem.
  assert (Htail : ~ In sep (b ++ PosixPath.extsep :: ext)).
  { intros Hin. apply in_app_or in Hin. destruct Hin as [Hin|[Heq|Hin]];
      [exact (Hsb Hin) | discriminate Heq | exact (Hse Hin)]. }
  assert (Hsep : rfind sep (pre ++ b ++ PosixPath.extsep :: ext)
                 = Z.of_nat (List.length pre) - 1).
  { unfold rfind. destruct Hpre as [->|(pre' & ->)].
    - cbn [app]. apply rfind_nat_none in Htail. rewrite Htail. reflexivity.
    - rewrite <- app_assoc. cbn [app]. rewrite rfind_nat_app by exact Htail.
      rewrite length_app. cbn [List.length]. lia. }
  assert (Hdot : rfind PosixPath.extsep (pre ++ b ++ PosixPath.extsep :: ext)
                 = Z.of_nat (List.length (pre ++ b))).
  { unfold rfind. rewrite app_assoc. rewrite rfind_nat_app by exact Hde. reflexivity. }
  unfold PosixPath.splitext. fold sep. rewrite Hsep, Hdot.
  destruct (Z.ltb_spec (Z.of_nat (List.length pre) - 1)
              (Z.of_nat (List.length (pre ++ b)))) as [_|Hge];
    [|rewrite length_app in Hge; lia].
  unfold slice.
  replace (Z.to_nat (Z.of_nat (List.length pre) - 1 + 1)) with (List.length pre) by lia.
  replace (Z.to_nat (Z.of_nat (List.length (pre ++ b))
                     - (Z.of_nat (List.length pre) - 1 + 1)))
    with (List.length b) by (rewrite length_app; lia).
  rewrite (skipn_length_app pre), (firstn_length_app b).
  fold (has_stem b). rewrite Hstem. reflexivity.
Qed.

(** [relpath] gives back the relative place of a file that [os.walk]
    reached from the folder. *)
Lemma relpath_walk_path (cwd top : str) (ds : list str) (name : str) :
  PosixPath.isabs cwd = true ->
  Forall (fun d => is_name d = true) ds ->
  is_name name = true ->
  PosixPath.relpath cwd (walk_path top ds name) top = Ok (rel_path ds name).
Proof.
  intros Hcwd Hds Hname.
  assert (Hl : Forall (fun d => is_name d = true) (ds ++ [name]))
    by (apply Forall_app; split; [exact Hds | repeat constructor; exact Hname]).
  unfold walk_path, rel_path. set (l := ds ++ [name]) in *.
  destruct (comps_join_all l top Hl) as (Hc & Ha).
  set (path := PosixPath.join_all top l) in *.
  assert (Habs : forall p,
            PosixPath.isabs (if PosixPath.isabs p then p else PosixPath.join cwd p)
            = true).
  { intros p. destruct (PosixPath.isabs p) eqn:Hp; [exact Hp|].
    rewrite isabs_join by exact Hp. exact Hcwd. }
  assert (Hcomps :
            comps (if PosixPath.isabs path then path else PosixPath.join cwd path)
            = comps (if PosixPath.isabs top then top else PosixPath.join cwd top) ++ l).
  { destruct (PosixPath.isabs top) eqn:Htop; rewrite Ha; [exact Hc|].
    rewrite (comps_join cwd path Ha), (comps_join cwd top Htop).
    rewrite Hc, app_assoc. reflexivity. }
  unfold PosixPath.relpath.
  destruct path as [|a path'] eqn:Hpath.
  { exfalso. change (comps []) with (@nil str) in Hc.
    destruct (comps top); destruct ds; discriminate Hc. }
  rewrite <- Hpath in *. clear Hpath a path'.
  unfold PosixPath.abspath. fold (comps (PosixPath.normpath
    (if PosixPath.isabs top then top else PosixPath.join cwd top))).
  fold (comps (PosixPath.normpath
    (if PosixPath.isabs path then path else PosixPath.join cwd path))).
  rewrite !comps_normpath by apply Habs.
  rewrite !norm_comps_comps, !Habs, Hcomps, fold_left_app.
  rewrite (fold_norm_step_names true l _ Hl).
  set (start_list := fold_left (PosixPath.norm_step true) _ []).
  rewrite common_prefix_len_app, Nat.sub_diag. cbn [repeat app].
  rewrite skipn_length_app.
  destruct l as [|c r] eqn:El; [destruct ds; discriminate El|].
  inversion Hl as [|? ? Hc' Hr]; subst.
  destruct (is_name_spec c Hc') as (Hne & Hsep & _).
  pose proof (join_all_names r [] c Hne Hsep Hr) as Hj. cbn [app] in Hj.
  rewrite Hj. reflexivity.
Qed.

End Paths.

Section OutputPath.
Import Py VideoToAudio.

Lemma file_at_under (entries : list node) (ds : list str) (f : str) :
  file_at entries ds f ->
  forall top, file_under top entries (walk_path top ds f) f.
Proof.
  induction 1 as [entries f Hin | entries d children ds f Hd _ IH]; intros top.
  - apply file_here, Hin.
  - apply (file_below top entries d children); [exact Hd|].
    apply (IH (PosixPath.join top d)).
Qed.




End OutputPath.

(* ===================================================================== *)
(** * Further properties of [audioToText2.py]                             *)
(* ===================================================================== *)

Section TranscriberMore.
Import Py AudioToText.

Lemma range_split (n k : Z) :
  0 <= k < n ->
  range n = range k ++ k :: map Z.of_nat (seq (S (Z.to_nat k)) (Z.to_nat n - S (Z.to_nat k))).
Proof.
  intros Hk. unfold range.
  replace (Z.to_nat n) with (Z.to_nat k + S (Z.to_nat n - S (Z.to_nat k)))%nat by lia.
  rewrite seq_app, map_app. cbn [seq map Nat.add].
  replace (Z.to_nat k + S (Z.to_nat n - S (Z.to_nat k)) - S (Z.to_nat k))%nat
    with (Z.to_nat n - S (Z.to_nat k))%nat by lia.
  rewrite Z2Nat.id by lia. reflexivity.
Qed.

Lemma range_lt (n i : Z) : In i (range n) -> 0 <= i < n.
Proof.
  unfold range. rewrite in_map_iff. intros (j & <- & Hj). apply in_seq in Hj. lia.
Qed.

(** The loop over chunks that are all handled, followed by further chunks:
    the handled ones are reported and the loop goes on with the rest. *)
Lemma transcribe_chunks_app (resolve : str -> str) (a : audio) (C chunks : Z)
    (pre rest : list Z) (full_transcript : list str) (out : list message)
    (fs : filesystem) :
  Forall (fun i => handled (heard_in a (chunk_window (length_ms a) C i)) = true) pre ->
  exists fs' out',
    transcribe_chunks resolve a C chunks (pre ++ rest) full_transcript out fs
    = transcribe_chunks resolve a C chunks rest
        (full_transcript
         ++ recognized_texts a (map (chunk_window (length_ms a) C) pre))
        (out ++ out') fs'
    /\ List.length out' = List.length pre.
Proof.
  revert full_transcript out fs.
  induction pre as [|i pre IH]; intros full_transcript out fs Hall.
  - exists fs, []. cbn. rewrite !List.app_nil_r. split; reflexivity.
  - inversion Hall as [|? ? Hi Hrest]; subst.
    cbn [app transcribe_chunks map recognized_texts flat_map].
    unfold heard_in in Hi. unfold heard_in at 1.
    destruct (chunk_window (length_ms a) C i) as [start_time end_time] eqn:Hw.
    cbn [fst snd] in *.
    destruct (heard a start_time end_time) as [text|e] eqn:Hh; cbn [recognized_text].
    + edestruct (IH (full_transcript ++ [text])
                   (out ++ [ProcessedChunk (i + 1) chunks]))
        as (fs' & out' & Heq & Hlen); [exact Hrest|].
      exists fs', (ProcessedChunk (i + 1) chunks :: out').
      rewrite Heq, <- !app_assoc. cbn [app List.length]. split; [reflexivity | lia].
    + destruct e; cbn [handled] in Hi; try discriminate.
      * edestruct (IH full_transcript (out ++ [CouldNotUnderstand (i + 1)]))
          as (fs' & out' & Heq & Hlen); [exact Hrest|].
        exists fs', (CouldNotUnderstand (i + 1) :: out').
        rewrite Heq, <- !app_assoc. cbn [app List.length]. split; [reflexivity | lia].
      * edestruct (IH full_transcript (out ++ [ServiceErrorInChunk (i + 1) msg]))
          as (fs' & out' & Heq & Hlen); [exact Hrest|].
        exists fs', (ServiceErrorInChunk (i + 1) msg :: out').
        rewrite Heq, <- !app_assoc. cbn [app List.length]. split; [reflexivity | lia].
Qed.

(** An outcome that is not handled ends the loop; the chunk file of that
    iteration is not removed. *)
Lemma transcribe_chunks_unhandled (resolve : str -> str) (a : audio)
    (C chunks i : Z) (rest : list Z) (full_transcript : list str)
    (out : list message) (fs : filesystem) (e : exn) :
  heard_in a (chunk_window (length_ms a) C i) = Failed e ->
  handled (Failed e) = false ->
  exists fs',
    transcribe_chunks resolve a C chunks (i :: rest) full_transcript out fs
    = (fs', out, Raise e)
    /\ exists_ resolve fs' (chunk_path i) = true.
Proof.
  intros Hh Hu. cbn [transcribe_chunks]. unfold heard_in in Hh.
  destruct (chunk_window (length_ms a) C i) as [start_time end_time].
  cbn [fst snd] in Hh. rewrite Hh.
  exists (export resolve fs (chunk_path i) (audio_slice a start_time end_time)).
  split.
  - destruct e; cbn [handled] in Hu; try discriminate; reflexivity.
  - unfold exists_, export. rewrite lookup_insert_eq. reflexivity.
Qed.

(** X1: an exception of the recogniser other than the two that
    [transcribe_audio] catches ends the file at that chunk: the exception
    leaves [transcribe_audio], the texts recognised so far are dropped, only
    the chunks before it were reported, and the chunk file of that chunk is
    left behind. *)
Theorem transcribe_audio_unexpected_exception (resolve : str -> str)
    (fs : filesystem) (audio_path : str) (a : audio) (C k : Z) (e : exn) :
  from_file resolve fs audio_path = Ok a ->
  0 < C ->
  0 <= k < chunk_count (length_ms a) C ->
  (forall i, 0 <= i < k ->
     handled (heard_in a (chunk_window (length_ms a) C i)) = true) ->
  heard_in a (chunk_window (length_ms a) C k) = Failed e ->
  handled (Failed e) = false ->
  snd (transcribe_audio resolve fs audio_path C) = Raise e
  /\ Z.of_nat (List.length (snd (fst (transcribe_audio resolve fs audio_path C))))
     = k
  /\ exists_ resolve (fst (fst (transcribe_audio resolve fs audio_path C)))
       (chunk_path k)
     = true.
Proof.
  intros Hload HC Hk Hpre Hh Hu.
  unfold transcribe_audio. rewrite Hload. unfold transcribe_segment.
  destruct (Z.eqb_spec C 0) as [->|_]; [lia|].
  rewrite (range_split _ k Hk).
  assert (Hall : Forall (fun i => handled (heard_in a (chunk_window (length_ms a) C i)) = true)
                   (range k)).
  { apply List.Forall_forall. intros i Hi. apply Hpre, range_lt, Hi. }
  destruct (transcribe_chunks_app resolve a C (chunk_count (length_ms a) C) (range k)
              (k :: map Z.of_nat (seq (S (Z.to_nat k))
                                    (Z.to_nat (chunk_count (length_ms a) C)
                                     - S (Z.to_nat k))))
              [] [] fs Hall) as (fs1 & out' & Heq & Hlen).
  rewrite Heq.
  destruct (transcribe_chunks_unhandled resolve a C (chunk_count (length_ms a) C) k
              (map Z.of_nat (seq (S (Z.to_nat k))
                               (Z.to_nat (chunk_count (length_ms a) C)
                                - S (Z.to_nat k))))
              ([] ++ recognized_texts a
                       (map (chunk_window (length_ms a) C) (range k)))
              ([] ++ out') fs1 e Hh Hu) as (fs2 & -> & Hleft).
  cbn [fst snd bind app]. split; [reflexivity|]. split; [|exact Hleft].
  rewrite Hlen. apply range_length. lia.
Qed.

Lemma transcribe_audio_unexpected_exception_witness :
  snd (transcribe_audio literally {[ lit "temp.wav" := Media poisoned_audio ]}
         (lit "temp.wav") 30)
  = Raise (OSError (lit "timed out"))
  /\ snd (fst (transcribe_audio literally
                 {[ lit "temp.wav" := Media poisoned_audio ]} (lit "temp.wav") 30))
     = [ProcessedChunk 1 3].
Proof.
  pose proof (transcribe_audio_unexpected_exception literally
                {[ lit "temp.wav" := Media poisoned_audio ]} (lit "temp.wav")
                poisoned_audio 30 1 (OSError (lit "timed out"))) as H.
  destruct H as (Hres & _).
  - vm_compute. reflexivity.
  - lia.
  - vm_compute. split; [discriminate | reflexivity].
  - intros i Hi. assert (i = 0) as -> by lia. vm_compute. reflexivity.
  - vm_compute. reflexivity.
  - reflexivity.
  - split; [exact Hres | vm_compute; reflexivity].
Defined.

Lemma recognized_texts_none (a : audio) (ws : list (Z * Z)) :
  Forall (fun w => recognized_text (heard_in a w) = None) ws ->
  recognized_texts a ws = [].
Proof.
  induction 1 as [|w ws Hw _ IH]; [reflexivity|].
  cbn [recognized_texts flat_map]. rewrite Hw. exact IH.
Qed.

(** X3: a chunk duration of zero makes [transcribe_audio] raise
    [ZeroDivisionError]; a negative one gives no chunk at all, so that the
    empty transcript is returned, nothing is reported and no file is
    touched. *)
Theorem transcribe_audio_degenerate_duration (resolve : str -> str)
    (fs : filesystem) (audio_path : str) (a : audio) (C : Z) :
  from_file resolve fs audio_path = Ok a ->
  0 <= length_ms a ->
  C <= 0 ->
  transcribe_audio resolve fs audio_path C
  = if C =? 0 then (fs, [], Raise ZeroDivisionError) else (fs, [], Ok []).
Proof.
  intros Hload Hlen HC. unfold transcribe_audio. rewrite Hload.
  unfold transcribe_segment.
  destruct (Z.eqb_spec C 0) as [_|Hne]; [reflexivity|].
  assert (Hn : chunk_count (length_ms a) C <= 0).
  { unfold chunk_count, ceil_quot.
    assert (0 <= - length_ms a / (1000 * C)); [|lia].
    replace (1000 * C) with (- (- (1000 * C))) by lia.
    rewrite Z.div_opp_opp by lia. apply Z.div_pos; lia. }
  unfold range. replace (Z.to_nat (chunk_count (length_ms a) C)) with 0%nat by lia.
  reflexivity.
Qed.

Lemma transcribe_audio_degenerate_duration_witness :
  snd (transcribe_audio literally {[ lit "temp.wav" := Media sample_audio ]}
         (lit "temp.wav") (-30)) = Ok []
  /\ snd (transcribe_audio literally {[ lit "temp.wav" := Media sample_audio ]}
            (lit "temp.wav") 0) = Raise ZeroDivisionError.
Proof.
  split.
  - rewrite (transcribe_audio_degenerate_duration literally
               {[ lit "temp.wav" := Media sample_audio ]} (lit "temp.wav")
               sample_audio (-30)).
    + reflexivity.
    + vm_compute. reflexivity.
    + vm_compute. discriminate.
    + lia.
  - rewrite (transcribe_audio_degenerate_duration literally
               {[ lit "temp.wav" := Media sample_audio ]} (lit "temp.wav")
               sample_audio 0).
    + reflexivity.
    + vm_compute. reflexivity.
    + vm_compute. discriminate.
    + lia.
Defined.

End TranscriberMore.

Section DriverMore.
Import Py AudioToText.
Variable resolve : str -> str.

Abbreviation temp := default_output_file.

Lemma errors_logged_app (x y : list message) :
  errors_logged (x ++ y) = errors_logged x ++ errors_logged y.
Proof. unfold errors_logged. apply flat_map_app. Qed.

Lemma transcribe_chunks_no_error (a : audio) (C chunks : Z) (todo : list Z)
    (full_transcript : list str) (out : list message) (fs : filesystem) :
  errors_logged
    (snd (fst (transcribe_chunks resolve a C chunks todo full_transcript out fs)))
  = errors_logged out.
Proof.
  revert full_transcript out fs.
  induction todo as [|i todo IH]; intros full_transcript out fs; [reflexivity|].
  cbn [transcribe_chunks].
  destruct (chunk_window (length_ms a) C i) as [start_time end_time].
  destruct (heard a start_time end_time) as [text|e].
  - rewrite IH, errors_logged_app. cbn. apply List.app_nil_r.
  - destruct e; try reflexivity; rewrite IH, errors_logged_app; cbn;
      apply List.app_nil_r.
Qed.

Lemma transcribe_segment_no_error (fs : filesystem) (a : audio) (C : Z) :
  errors_logged (snd (fst (transcribe_segment resolve fs a C))) = [].
Proof.
  unfold transcribe_segment. destruct (C =? 0); [reflexivity|].
  pose proof (transcribe_chunks_no_error a C (chunk_count (length_ms a) C)
                (range (chunk_count (length_ms a) C)) [] [] fs) as H.
  destruct (transcribe_chunks resolve a C _ _ [] [] fs) as [[fs' out] r]. exact H.
Qed.

(** One iteration logs an error for its file exactly when the file
    contributes no section. *)
Lemma process_file_errors (fs0 : filesystem) (input_folder : str) (n i : Z)
    (audio_file : str) (st : state) :
  only_scratch_touched resolve fs0 st ->
  ~ scratch resolve (resolve (PosixPath.join input_folder audio_file)) ->
  errors_logged (console (fst (process_file resolve input_folder n i audio_file st)))
  = errors_logged (console st)
    ++ (if no_section (section_of resolve fs0 input_folder audio_file)
        then [audio_file] else []).
Proof.
  intros (Hw & Hr & Hf) Hne. unfold process_file, try_file, section_of.
  cbn [wav_file all_transcripts files console removed].
  set (full_path := PosixPath.join input_folder audio_file) in *.
  assert (Hload : from_file resolve (files st) full_path
                  = from_file resolve fs0 full_path).
  { unfold from_file. rewrite Hf by exact Hne. reflexivity. }
  unfold convert_to_wav. rewrite Hload.
  destruct (from_file resolve fs0 full_path) as [a|e] eqn:Hfrom.
  - rewrite transcribe_audio_temp.
    destruct (transcribe_segment_frame resolve (export resolve (files st) temp a)
                fs0 a default_chunk_duration) as (Hres & _).
    rewrite <- Hres.
    pose proof (transcribe_segment_no_error (export resolve (files st) temp a) a
                  default_chunk_duration) as Hquiet.
    destruct (transcribe_segment resolve (export resolve (files st) temp a) a
                default_chunk_duration) as [[fs2 out] [t|e]];
      cbn [fst snd finally_file wav_file all_transcripts files console removed] in *;
      destruct (negb (str_eqb temp full_path) && exists_ resolve _ temp);
      cbn [fst console no_section];
      rewrite !errors_logged_app, Hquiet; cbn; rewrite ?List.app_nil_r; reflexivity.
  - unfold finally_file. cbn [wav_file all_transcripts files console removed].
    destruct (wav_file st) as [w|]; cbn [fst console no_section].
    + destruct (negb (str_eqb w full_path) && exists_ resolve (files st) w);
        cbn [fst console]; rewrite !errors_logged_app; cbn;
        rewrite ?List.app_nil_r; reflexivity.
    + rewrite !errors_logged_app. cbn. rewrite ?List.app_nil_r. reflexivity.
Qed.

Lemma process_files_errors (fs0 : filesystem) (input_folder : str) (n : Z)
    (todo : list str) (i : Z) (st : state) :
  only_scratch_touched resolve fs0 st ->
  (forall f, In f todo ->
     ~ scratch resolve (resolve (PosixPath.join input_folder f))) ->
  snd (process_files resolve input_folder n i todo st) = Ok tt ->
  errors_logged (console (fst (process_files resolve input_folder n i todo st)))
  = errors_logged (console st)
    ++ List.filter (fun f => no_section (section_of resolve fs0 input_folder f)) todo.
Proof.
  revert i st. induction todo as [|f todo IH]; intros i st Hinv Hne Hok.
  - cbn. symmetry. apply List.app_nil_r.
  - cbn [process_files List.filter] in *.
    pose proof (process_file_errors fs0 input_folder n i f st Hinv
                  (Hne f (or_introl eq_refl))) as Hstep.
    pose proof (process_file_touches resolve fs0 input_folder n i f st Hinv) as Hinv'.
    destruct (process_file resolve input_folder n i f st) as [st' [[]|e]];
      cbn [fst snd] in *; [|discriminate].
    rewrite (IH (i + 1) st' Hinv' (fun g Hg => Hne g (or_intror Hg)) Hok), Hstep.
    rewrite <- app_assoc.
    destruct (no_section (section_of resolve fs0 input_folder f)); reflexivity.
Qed.

(** X5: when [main] runs to its end, and no input file is the temporary
    copy or a chunk file of the script, the files it reported with "An
    error occurred with ..." are exactly the files that contribute no
    section, in the order of the listing: no file is dropped from the
    transcript without a message. *)
Theorem main_errors_logged (input_folder : str) (listing : list node)
    (fs : filesystem) :
  (forall f, In f (scan_audio listing) ->
     ~ scratch resolve (resolve (PosixPath.join input_folder f))) ->
  snd (main resolve input_folder listing fs) = Ok tt ->
  errors_logged (console (fst (main resolve input_folder listing fs)))
  = List.filter (fun f => no_section (section_of resolve fs input_folder f))
      (scan_audio listing).
Proof.
  intros Hne. unfold main.
  destruct (scan_audio listing) as [|f rest] eqn:Hscan; [reflexivity|].
  pose proof (process_files_errors fs input_folder
                (Z.of_nat (List.length (f :: rest))) (f :: rest) 0 (initial fs)
                (initial_touches resolve fs) Hne) as Herr.
  destruct (process_files resolve input_folder _ 0 (f :: rest) (initial fs))
    as [st [[]|e]]; cbn [fst snd] in *; [|discriminate].
  intros _. cbn [console]. rewrite errors_logged_app, (Herr eq_refl).
  cbn. apply List.app_nil_r.
Qed.

(** After an iteration that ends normally the temporary copy is gone. *)
Lemma process_file_cleans (fs0 : filesystem) (input_folder : str) (n i : Z)
    (audio_file : str) (st : state) :
  only_scratch_touched resolve fs0 st ->
  PosixPath.join input_folder audio_file <> temp ->
  snd (process_file resolve input_folder n i audio_file st) = Ok tt ->
  files (fst (process_file resolve input_folder n i audio_file st)) !! resolve temp
  = None.
Proof.
  intros (Hw & Hr & Hf) Hne. unfold process_file.
  set (full_path := PosixPath.join input_folder audio_file) in *.
  match goal with
  | |- context [try_file resolve full_path audio_file ?s0] =>
      pose proof (try_file_touches resolve fs0 full_path audio_file s0) as Hinv
  end.
  cbn [wav_file removed files] in Hinv.
  specialize (Hinv (conj Hw (conj Hr Hf))). destruct Hinv as (Hw1 & _ & _).
  destruct (try_file resolve full_path audio_file _) as [w1 tr1 fs1 out1 rm1].
  cbn [wav_file] in Hw1. unfold finally_file. cbn [wav_file files].
  destruct w1 as [w|]; cbn [fst snd]; [|discriminate].
  rewrite (Hw1 w eq_refl).
  rewrite (str_eqb_neq temp full_path) by congruence. cbn [negb andb].
  unfold exists_.
  destruct (fs1 !! resolve temp) as [c|] eqn:Hc; cbn [fst snd files]; intros _.
  - unfold remove. apply lookup_delete_eq.
  - exact Hc.
Qed.

Lemma process_files_cleans (fs0 : filesystem) (input_folder : str) (n : Z)
    (todo : list str) (i : Z) (st : state) :
  only_scratch_touched resolve fs0 st ->
  (forall f, In f todo -> PosixPath.join input_folder f <> temp) ->
  todo <> [] \/ files st !! resolve temp = None ->
  snd (process_files resolve input_folder n i todo st) = Ok tt ->
  files (fst (process_files resolve input_folder n i todo st)) !! resolve temp = None.
Proof.
  revert i st. induction todo as [|f todo IH]; intros i st Hinv Hne Hstart Hok.
  - destruct Hstart as [Hstart|Hstart]; [contradiction | exact Hstart].
  - cbn [process_files] in *.
    pose proof (process_file_cleans fs0 input_folder n i f st Hinv
                  (Hne f (or_introl eq_refl))) as Hstep.
    pose proof (process_file_touches resolve fs0 input_folder n i f st Hinv) as Hinv'.
    destruct (process_file resolve input_folder n i f st) as [st' [[]|e]];
      cbn [fst snd] in *; [|discriminate].
    apply (IH (i + 1) st' Hinv' (fun g Hg => Hne g (or_intror Hg))
             (or_intror (Hstep eq_refl)) Hok).
Qed.

(** X6: when [main] has found audio files and runs to its end, no
    [temp.wav] is left in the working directory, whether or not one was
    there before the run. *)
Theorem main_removes_temp (input_folder : str) (listing : list node)
    (fs : filesystem) :
  scan_audio listing <> [] ->
  (forall f, In f (scan_audio listing) -> PosixPath.join input_folder f <> temp) ->
  resolve (PosixPath.join input_folder (lit "combined_transcript.txt"))
  <> resolve temp ->
  snd (main resolve input_folder listing fs) = Ok tt ->
  exists_ resolve (files (fst (main resolve input_folder listing fs))) temp = false.
Proof.
  intros Hsome Hne Hout. unfold main.
  destruct (scan_audio listing) as [|f rest] eqn:Hscan; [contradiction|].
  assert (Hcons : f :: rest <> [] \/ files (initial fs) !! resolve temp = None)
    by (left; discriminate).
  pose proof (process_files_cleans fs input_folder
                (Z.of_nat (List.length (f :: rest))) (f :: rest) 0 (initial fs)
                (initial_touches resolve fs) Hne Hcons) as Hclean.
  destruct (process_files resolve input_folder _ 0 (f :: rest) (initial fs))
    as [st [[]|e]]; cbn [fst snd] in *; [|discriminate].
  intros _. unfold exists_. cbn [files].
  rewrite lookup_insert_ne by exact Hout.
  rewrite (Hclean eq_refl). reflexivity.
Qed.


(** X2: a file in which no chunk is recognised, every chunk being
    unintelligible or hit by a service error, does not fail:
    [transcribe_audio] returns the empty string for it, and [main], run on
    a folder that holds it, adds its section, which is the bare header, and
    reports no error for it. *)
Theorem nothing_recognized_section (input_folder : str) (listing : list node)
    (fs : filesystem) (audio_file : str) (a first : audio) :
  In audio_file (scan_audio listing) ->
  (forall f, In f (scan_audio listing) ->
     ~ scratch resolve (resolve (PosixPath.join input_folder f))) ->
  from_file resolve fs (PosixPath.join input_folder (hd [] (scan_audio listing)))
  = Ok first ->
  from_file resolve fs (PosixPath.join input_folder audio_file) = Ok a ->
  Forall (fun w => handled (heard_in a w) = true
                   /\ recognized_text (heard_in a w) = None)
    (chunk_windows (length_ms a) default_chunk_duration) ->
  snd (transcribe_audio resolve fs (PosixPath.join input_folder audio_file)
         default_chunk_duration)
  = Ok []
  /\ snd (main resolve input_folder listing fs) = Ok tt
  /\ In (header audio_file) (all_transcripts (fst (main resolve input_folder listing fs)))
  /\ ~ In audio_file
         (errors_logged (console (fst (main resolve input_folder listing fs)))).
Proof.
  intros Hin Hne Hfirst Hload Hall.
  assert (Hres : snd (transcribe_audio resolve fs
                        (PosixPath.join input_folder audio_file)
                        default_chunk_duration) = Ok []).
  { destruct (transcribe_audio_handled resolve fs _ a default_chunk_duration Hload
                ltac:(discriminate)) as (Hres & _).
    - eapply List.Forall_impl; [|exact Hall]. cbn. intros w [Hw _]. exact Hw.
    - rewrite Hres, recognized_texts_none; [reflexivity|].
      eapply List.Forall_impl; [|exact Hall]. cbn. intros w [_ Hw]. exact Hw. }
  assert (Hsec : section_of resolve fs input_folder audio_file = [header audio_file]).
  { unfold section_of. rewrite Hload.
    unfold transcribe_audio in Hres. rewrite Hload in Hres. rewrite Hres.
    rewrite List.app_nil_r. reflexivity. }
  split; [exact Hres|]. unfold main.
  destruct (scan_audio listing) as [|f rest] eqn:Hscan; [destruct Hin|].
  cbn [hd] in Hfirst.
  destruct (process_files_bound resolve fs input_folder
              (Z.of_nat (List.length (f :: rest))) (f :: rest) 0 (initial fs)
              (initial_touches resolve fs) Hne
              (or_intror (or_intror (ex_intro _ first Hfirst)))) as (Hr & Ha).
  pose proof (process_files_errors fs input_folder
                (Z.of_nat (List.length (f :: rest))) (f :: rest) 0 (initial fs)
                (initial_touches resolve fs) Hne Hr) as Herr.
  destruct (process_files resolve input_folder _ 0 (f :: rest) (initial fs))
    as [st r]. cbn [fst snd] in *. subst r.
  cbn [fst snd all_transcripts console]. split; [reflexivity|]. split.
  - rewrite Ha. cbn [all_transcripts initial app]. apply in_flat_map.
    exists audio_file. split; [exact Hin|]. rewrite Hsec. left. reflexivity.
  - rewrite errors_logged_app, Herr. cbn [console initial errors_logged flat_map app].
    rewrite List.app_nil_r. intros Hlogged. apply filter_In in Hlogged.
    destruct Hlogged as (_ & Hnone). rewrite Hsec in Hnone. discriminate Hnone.
Qed.

End DriverMore.

Section DriverMoreExamples.
Import Py AudioToText.

Ltac literal_input :=
  match goal with
  | |- ~ scratch literally ?x =>
      let v := eval vm_compute in x in
      change x with v; apply not_scratch_literally; discriminate
  end.

Lemma main_sections_witness :
  all_transcripts
    (fst (main literally (lit "in")
            [File (lit "good.mp3"); File (lit "bad.mp3"); File (lit "hum.mp3")]
            {[ lit "in/good.mp3" := Media sample_audio;
               lit "in/bad.mp3" := Unreadable;
               lit "in/hum.mp3" := Media mumbled_audio ]}))
  = [header (lit "good.mp3") ++ lit "hello world"; header (lit "hum.mp3")].
Proof.
  destruct (main_sections literally (lit "in")
              [File (lit "good.mp3"); File (lit "bad.mp3"); File (lit "hum.mp3")]
              {[ lit "in/good.mp3" := Media sample_audio;
                 lit "in/bad.mp3" := Unreadable;
                 lit "in/hum.mp3" := Media mumbled_audio ]}
              (lit "good.mp3") [lit "bad.mp3"; lit "hum.mp3"] sample_audio)
    as (_ & Hsec & _).
  - vm_compute. reflexivity.
  - intros g Hg. destruct Hg as [<-|[<-|[<-|[]]]]; literal_input.
  - vm_compute. reflexivity.
  - cbv zeta in Hsec. rewrite Hsec. vm_compute. reflexivity.
Defined.

Lemma main_errors_logged_witness :
  errors_logged
    (console
       (fst (main literally (lit "in")
               [File (lit "good.mp3"); File (lit "bad.mp3"); File (lit "hum.mp3")]
               {[ lit "in/good.mp3" := Media sample_audio;
                  lit "in/bad.mp3" := Unreadable;
                  lit "in/hum.mp3" := Media mumbled_audio ]})))
  = [lit "bad.mp3"].
Proof.
  rewrite (main_errors_logged literally (lit "in")
             [File (lit "good.mp3"); File (lit "bad.mp3"); File (lit "hum.mp3")]
             {[ lit "in/good.mp3" := Media sample_audio;
                lit "in/bad.mp3" := Unreadable;
                lit "in/hum.mp3" := Media mumbled_audio ]}).
  - vm_compute. reflexivity.
  - intros f Hf. vm_compute in Hf.
    destruct Hf as [<-|[<-|[<-|[]]]]; literal_input.
  - vm_compute. reflexivity.
Defined.

Lemma main_removes_temp_witness :
  exists_ literally
    (files (fst (main literally (lit "in") [File (lit "good.mp3")]
                   {[ lit "in/good.mp3" := Media sample_audio;
                      lit "temp.wav" := Text (lit "a file of the user") ]})))
    (lit "temp.wav")
  = false.
Proof.
  apply (main_removes_temp literally (lit "in") [File (lit "good.mp3")]
           {[ lit "in/good.mp3" := Media sample_audio;
              lit "temp.wav" := Text (lit "a file of the user") ]}).
  - vm_compute. discriminate.
  - intros f Hf. vm_compute in Hf. destruct Hf as [<-|[]]. vm_compute. discriminate.
  - vm_compute. discriminate.
  - vm_compute. reflexivity.
Defined.


Lemma nothing_recognized_section_witness :
  In (header (lit "hum.mp3"))
    (all_transcripts
       (fst (main literally (lit "in") [File (lit "good.mp3"); File (lit "hum.mp3")]
               {[ lit "in/good.mp3" := Media sample_audio;
                  lit "in/hum.mp3" := Media mumbled_audio ]}))).
Proof.
  refine (proj1 (proj2 (proj2
    (nothing_recognized_section literally (lit "in")
       [File (lit "good.mp3"); File (lit "hum.mp3")]
       {[ lit "in/good.mp3" := Media sample_audio;
          lit "in/hum.mp3" := Media mumbled_audio ]}
       (lit "hum.mp3") mumbled_audio sample_audio _ _ _ _ _)))).
  - vm_compute. right. left. reflexivity.
  - intros f Hf. vm_compute in Hf. destruct Hf as [<-|[<-|[]]]; literal_input.
  - vm_compute. reflexivity.
  - vm_compute. reflexivity.
  - assert (Hws : chunk_windows (length_ms mumbled_audio) default_chunk_duration
                  = [(0, 30000); (30000, 45000)]) by (vm_compute; reflexivity).
    rewrite Hws. repeat constructor.
Defined.

(** An input file that is the chunk file of an earlier file's first chunk:
    the transcription of [a.wav] writes over it and removes it, so that its
    own conversion fails. *)
Example chunk_file_input_lost :
  let run :=
    main in_cwd (lit ".") [File (lit "a.wav"); File (lit "temp_chunk_0.wav")]
      {[ lit "a.wav" := Media sample_audio;
         lit "temp_chunk_0.wav" := Media sample_audio ]} in
  snd run = Ok tt
  /\ all_transcripts (fst run) = [header (lit "a.wav") ++ lit "hello world"]
  /\ errors_logged (console (fst run)) = [lit "temp_chunk_0.wav"]
  /\ exists_ in_cwd (files (fst run)) (lit "./temp_chunk_0.wav") = false.
Proof. cbv zeta. repeat split; vm_compute; reflexivity. Qed.

End DriverMoreExamples.

(* ===================================================================== *)
(** * Further properties of [VideoToAudio.py]                             *)
(* ===================================================================== *)

Section ExtractMore.
Import Py VideoToAudio.
Context {FL : PyFloat}.

Lemma sum_updates_app (a b : list event) :
  sum_updates (a ++ b) = sum_updates a + sum_updates b.
Proof.
  induction a as [|e a IH]; [reflexivity|].
  cbn [app sum_updates fold_right]. fold (sum_updates (a ++ b)). fold (sum_updates a).
  rewrite IH. destruct e; lia.
Qed.

Lemma printed_app (a b : list event) : printed (a ++ b) = printed a ++ printed b.
Proof. unfold printed. apply flat_map_app. Qed.

Lemma commands_run_app (a b : list event) :
  commands_run (a ++ b) = commands_run a ++ commands_run b.
Proof. unfold commands_run. apply flat_map_app. Qed.

(** Events that are all progress bar updates print nothing, run nothing
    and hold no line of the summary. *)
Lemma updates_silent (ev : list event) :
  forallb is_update ev = true ->
  printed ev = [] /\ commands_run ev = [] /\ existsb is_summary ev = false.
Proof.
  induction ev as [|e ev IH]; [repeat split|].
  cbn [forallb]. intros H. apply andb_prop in H. destruct H as (He & Hev).
  destruct (IH Hev) as (Hp & Hc & Hs).
  destruct e; try discriminate He.
  cbn [printed commands_run flat_map existsb is_summary app orb].
  fold (printed ev). fold (commands_run ev). repeat split; assumption.
Qed.

(** The progress loop sends positive increments only; from the estimate
    [last_progress] on they add up to the final estimate. *)
Lemma track_progress_updates (duration : pynum) (lines : list str) (last_progress : Z) :
  0 <= last_progress <= 100 ->
  let run := track_progress duration last_progress lines in
  updates_positive (fst (fst run))
  /\ forallb is_update (fst (fst run)) = true
  /\ last_progress <= last_progress + sum_updates (fst (fst run)) <= 100
  /\ forall final, snd run = Ok final ->
       final = last_progress + sum_updates (fst (fst run)).
Proof.
  revert last_progress. induction lines as [|line lines IH]; intros last_progress Hb.
  - cbn. split; [constructor|]. split; [reflexivity|]. split; [lia|].
    intros final [= <-]. lia.
  - cbn [track_progress].
    destruct (track_line duration last_progress line) as [[p evs]|e] eqn:Ht.
    + pose proof (track_line_bounds _ _ _ _ _ Hb Ht) as Hp.
      specialize (IH p ltac:(lia)). cbv zeta in IH.
      destruct (track_progress duration p lines) as [[evs' ps] r].
      cbn [fst snd] in *. destruct IH as (Hpos & Hupd & Hsum & Hfin).
      destruct (track_line_cases _ _ _ _ _ Ht) as [[-> ->]|(Hlt & _ & ->)].
      * cbn [app]. split; [exact Hpos|]. split; [exact Hupd|]. split; [exact Hsum|].
        exact Hfin.
      * cbn [app sum_updates fold_right forallb is_update andb].
        fold (sum_updates evs').
        split; [constructor; [lia | exact Hpos]|]. split; [exact Hupd|].
        split; [lia|]. intros final Hr. rewrite (Hfin final Hr). lia.
    + cbn. split; [constructor|]. split; [reflexivity|]. split; [lia|]. discriminate.
Qed.

(** What [get_video_duration] does to the outside. *)
Lemma get_video_duration_events (t : tools) (video_path : str) :
  commands_run (fst (get_video_duration t video_path)) = [ffprobe_cmd video_path]
  /\ sum_updates (fst (get_video_duration t video_path)) = 0
  /\ updates_positive (fst (get_video_duration t video_path))
  /\ existsb is_summary (fst (get_video_duration t video_path)) = false
  /\ ((printed (fst (get_video_duration t video_path)) = []
       /\ probe_status (ffprobe t (ffprobe_cmd video_path)) = 0)
      \/ (printed (fst (get_video_duration t video_path))
          = [ErrorGettingDuration video_path]
          /\ snd (get_video_duration t video_path) = Ok (PInt 0))).
Proof.
  unfold get_video_duration.
  destruct (Z.eqb_spec (probe_status (ffprobe t (ffprobe_cmd video_path))) 0) as [Hz|Hnz].
  - destruct (float_of_str _); cbn [fst snd];
      (split; [reflexivity|]); (split; [reflexivity|]);
      (split; [repeat constructor|]); (split; [reflexivity|]);
      left; split; [reflexivity | exact Hz | reflexivity | exact Hz].
  - cbn [fst snd]. split; [reflexivity|]. split; [reflexivity|].
    split; [repeat constructor|]. split; [reflexivity|].
    right. split; reflexivity.
Qed.

(** X8: what a call of [extract_audio] that returns has done.  It returns
    [True] only after ffprobe and then ffmpeg were run, once each, ffmpeg
    exited with status 0, and the one line printed reports the output file.
    It returns [False] either without starting ffmpeg, after the error line
    of the probe or after no line at all (a probed duration of zero), or
    after ffmpeg exited with a nonzero status, and then the error line and
    the diagnostics of ffmpeg are printed. *)
Theorem extract_audio_outcome (t : tools)
    (video_path output_path audio_format audio_bitrate : str) (ok : bool) :
  snd (extract_audio t video_path output_path audio_format audio_bitrate) = Ok ok ->
  let cmd := ffmpeg_cmd video_path output_path audio_format audio_bitrate in
  let ev := fst (extract_audio t video_path output_path audio_format audio_bitrate) in
  if ok then
    returncode (ffmpeg t cmd) = 0
    /\ commands_run ev = [ffprobe_cmd video_path; cmd]
    /\ printed ev = [Extracted output_path (output_size (ffmpeg t cmd))]
  else
    (commands_run ev = [ffprobe_cmd video_path]
     /\ (printed ev = [ErrorGettingDuration video_path] \/ printed ev = []))
    \/ (returncode (ffmpeg t cmd) <> 0
        /\ commands_run ev = [ffprobe_cmd video_path; cmd]
        /\ printed ev
           = [ErrorExtracting video_path;
              ToolDiagnostics (stderr_rest (ffmpeg t cmd))]).
Proof.
  cbv zeta. rewrite extract_audio_eq. cbv zeta.
  destruct (get_video_duration_events t video_path) as (Hc & _ & _ & _ & Hp).
  destruct (get_video_duration t video_path) as [ev1 [duration|e]];
    cbn [fst snd] in *; [|discriminate].
  destruct (num_is_zero duration) eqn:Hzero.
  - cbn [fst snd]. intros [= <-]. left.
    rewrite commands_run_app, printed_app, Hc. cbn [commands_run printed flat_map app].
    split; [reflexivity|].
    destruct Hp as [(-> & _)|(-> & _)]; [right | left]; reflexivity.
  - assert (Hquiet : printed ev1 = []).
    { destruct Hp as [(Hq & _)|(_ & Hd)]; [exact Hq|].
      injection Hd as ->. cbn in Hzero. discriminate Hzero. }
    pose proof (track_progress_updates duration
                  (stderr_lines (ffmpeg t (ffmpeg_cmd video_path output_path
                                              audio_format audio_bitrate)))
                  0 ltac:(lia)) as (_ & Hupd & _).
    destruct (track_progress duration 0 _) as [[ev3 ps] [final|e]];
      cbn [fst snd] in *; [|discriminate].
    destruct (updates_silent ev3 Hupd) as (Hp3 & Hc3 & _).
    destruct (Z.eqb_spec (returncode (ffmpeg t (ffmpeg_cmd video_path output_path
                                                 audio_format audio_bitrate))) 0)
      as [Hrc|Hrc]; cbn [negb fst snd]; intros [= <-].
    + split; [exact Hrc|].
      rewrite !commands_run_app, !printed_app, Hc, Hquiet, Hp3, Hc3.
      split; reflexivity.
    + right. split; [exact Hrc|].
      rewrite !commands_run_app, !printed_app, Hc, Hquiet, Hp3, Hc3.
      split; reflexivity.
Qed.

(** X9: when ffprobe exits with status 0 but its output is no number,
    [float()] raises [ValueError], which [get_video_duration] does not
    catch: the exception leaves [extract_audio] before ffmpeg is started
    and with nothing printed. *)
Theorem unparseable_duration_escapes (t : tools)
    (video_path output_path audio_format audio_bitrate : str) :
  probe_status (ffprobe t (ffprobe_cmd video_path)) = 0 ->
  float_of_str (strip (probe_stdout (ffprobe t (ffprobe_cmd video_path)))) = None ->
  snd (get_video_duration t video_path) = Raise ValueError
  /\ snd (extract_audio t video_path output_path audio_format audio_bitrate)
     = Raise ValueError
  /\ commands_run
       (fst (extract_audio t video_path output_path audio_format audio_bitrate))
     = [ffprobe_cmd video_path]
  /\ printed (fst (extract_audio t video_path output_path audio_format audio_bitrate))
     = [].
Proof.
  intros Hst Hout. rewrite extract_audio_eq. unfold get_video_duration.
  rewrite Hst, Hout. cbn [Z.eqb fst snd]. repeat split.
Qed.

(** X10: the increments [extract_audio] sends to the progress bar are all
    positive and never add up to more than the total of 100 the bar was
    opened with; when the progress loop returns, they add up to the final
    estimate. *)
Theorem progress_bar_within_total (t : tools)
    (video_path output_path audio_format audio_bitrate : str) :
  let ev := fst (extract_audio t video_path output_path audio_format audio_bitrate) in
  updates_positive ev
  /\ 0 <= sum_updates ev <= 100
  /\ (forall duration lines final,
        snd (track_progress duration 0 lines) = Ok final ->
        sum_updates (fst (fst (track_progress duration 0 lines))) = final).
Proof.
  cbv zeta. split; [|split].
  - rewrite extract_audio_eq. cbv zeta. unfold updates_positive.
    destruct (get_video_duration_events t video_path) as (_ & _ & Hpos & _).
    destruct (get_video_duration t video_path) as [ev1 [duration|e]]; cbn [fst] in *.
    + destruct (num_is_zero duration); cbn [fst].
      * apply Forall_app. split; [repeat constructor | exact Hpos].
      * pose proof (track_progress_updates duration
                      (stderr_lines (ffmpeg t (ffmpeg_cmd video_path output_path
                                                  audio_format audio_bitrate)))
                      0 ltac:(lia)) as (Hpos3 & _).
        destruct (track_progress duration 0 _) as [[ev3 ps] [final|e]];
          cbn [fst] in *; [destruct (negb (returncode _ =? 0)); cbn [fst]|];
          repeat (apply Forall_app; split); try exact Hpos; try exact Hpos3;
          repeat constructor.
    + apply Forall_app. split; [repeat constructor | exact Hpos].
  - rewrite extract_audio_eq. cbv zeta.
    destruct (get_video_duration_events t video_path) as (_ & Hsum & _).
    destruct (get_video_duration t video_path) as [ev1 [duration|e]]; cbn [fst] in *.
    + destruct (num_is_zero duration); cbn [fst].
      * rewrite sum_updates_app, Hsum. cbn. lia.
      * pose proof (track_progress_updates duration
                      (stderr_lines (ffmpeg t (ffmpeg_cmd video_path output_path
                                                  audio_format audio_bitrate)))
                      0 ltac:(lia)) as (_ & _ & Hsum3 & _).
        destruct (track_progress duration 0 _) as [[ev3 ps] [final|e]];
          cbn [fst] in *; [destruct (negb (returncode _ =? 0)); cbn [fst]|];
          rewrite !sum_updates_app, Hsum; cbn [sum_updates fold_right]; lia.
    + rewrite sum_updates_app, Hsum. cbn. lia.
  - intros duration lines final Hr.
    destruct (track_progress_updates duration lines 0 ltac:(lia)) as (_ & _ & _ & Hfin).
    rewrite (Hfin final Hr). lia.
Qed.

End ExtractMore.

Section BatchMore.
Import Py VideoToAudio.
Context {FL : PyFloat}.

Lemma existsb_is_summary_app (a b : list event) :
  existsb is_summary (a ++ b) = existsb is_summary a || existsb is_summary b.
Proof. apply existsb_app. Qed.

(** [extract_audio] prints no line of the summary. *)
Lemma extract_audio_no_summary (t : tools)
    (video_path output_path audio_format audio_bitrate : str) :
  existsb is_summary
    (fst (extract_audio t video_path output_path audio_format audio_bitrate))
  = false.
Proof.
  rewrite extract_audio_eq. cbv zeta.
  destruct (get_video_duration_events t video_path) as (_ & _ & _ & Hs & _).
  destruct (get_video_duration t video_path) as [ev1 [duration|e]]; cbn [fst] in *.
  - destruct (num_is_zero duration); cbn [fst].
    + rewrite existsb_is_summary_app, Hs. reflexivity.
    + pose proof (track_progress_updates duration
                    (stderr_lines (ffmpeg t (ffmpeg_cmd video_path output_path
                                                audio_format audio_bitrate)))
                    0 ltac:(lia)) as (_ & Hupd & _).
      destruct (track_progress duration 0 _) as [[ev3 ps] [final|e]];
        cbn [fst] in *; destruct (updates_silent ev3 Hupd) as (_ & _ & Hs3);
        [destruct (negb (returncode _ =? 0)); cbn [fst]|];
        rewrite !existsb_is_summary_app, Hs, Hs3; reflexivity.
  - rewrite existsb_is_summary_app, Hs. reflexivity.
Qed.

Section Loop.
Variables (cwd : str) (t : tools).
Variables (input_folder output_folder audio_format audio_bitrate : str).

Abbreviation result_of :=
  (extraction_result cwd t input_folder output_folder audio_format audio_bitrate).

Abbreviation failures vs :=
  (Z.of_nat (List.length (List.filter (fun v => extraction_failed (result_of v)) vs))).

(** The loop up to the first video whose extraction raises. *)
Lemma process_videos_abort (n : Z) (pre : list str) (v : str) (post : list str)
    (e : exn) (i : Z) (c : tally) :
  output_folder <> [] ->
  Forall (fun u => is_ok (result_of u) = true) pre ->
  result_of v = Raise e ->
  let run :=
    process_videos cwd t input_folder output_folder audio_format audio_bitrate
      n i (pre ++ v :: post) c in
  snd run = Raise e
  /\ failed (snd (fst run)) = failed c + failures pre
  /\ successful (snd (fst run))
     = successful c + (Z.of_nat (List.length pre) - failures pre)
  /\ announced (fst (fst run)) = announcements n i (pre ++ [v])
  /\ existsb is_summary (fst (fst run)) = false.
Proof.
  intros Hout. revert i c. induction pre as [|u pre IH]; intros i c Hall Hv.
  - change ([] ++ v :: post) with (v :: post). change ([] ++ [v]) with [v].
    cbn [process_videos List.filter List.length announcements].
    unfold extraction_result in Hv.
    destruct (output_path_of cwd input_folder output_folder audio_format v)
      as [output_path|e'] eqn:Hpath.
    + cbn [bind] in Hv. rewrite (output_path_dir _ _ _ _ _ _ Hout Hpath).
      pose proof (extract_audio_quiet t v output_path audio_format audio_bitrate) as Hq.
      pose proof (extract_audio_no_summary t v output_path audio_format audio_bitrate)
        as Hs.
      destruct (extract_audio t v output_path audio_format audio_bitrate)
        as [ev2 [ok|e']]; cbn [fst snd] in *; [discriminate|].
      injection Hv as ->.
      rewrite !announced_app, Hq, !existsb_is_summary_app, Hs.
      cbn. repeat split; lia.
    + cbn [bind] in Hv. injection Hv as ->. cbn. repeat split; lia.
  - inversion Hall as [|? ? Hu Hrest]; subst.
    rewrite <- !app_comm_cons.
    cbn [process_videos List.filter announcements].
    assert (Hres : exists ok, result_of u = Ok ok)
      by (destruct (result_of u) as [ok|e']; [exists ok; reflexivity | discriminate]).
    destruct Hres as (ok' & Hres). rewrite Hres. clear Hu.
    unfold extraction_result in Hres.
    destruct (output_path_of cwd input_folder output_folder audio_format u)
      as [output_path|e'] eqn:Hpath; [|discriminate].
    cbn [bind] in Hres. rewrite (output_path_dir _ _ _ _ _ _ Hout Hpath).
    pose proof (extract_audio_quiet t u output_path audio_format audio_bitrate) as Hq.
    pose proof (extract_audio_no_summary t u output_path audio_format audio_bitrate)
      as Hs.
    destruct (extract_audio t u output_path audio_format audio_bitrate)
      as [ev2 [ok|e']]; cbn [fst snd] in *; [|discriminate].
    injection Hres as <-.
    match goal with
    | |- context [process_videos _ _ _ _ _ _ n (i + 1) (pre ++ v :: post) ?c'] =>
        specialize (IH (i + 1) c' Hrest Hv)
    end.
    cbv zeta in IH.
    destruct (process_videos cwd t input_folder output_folder audio_format
                audio_bitrate n (i + 1) (pre ++ v :: post) _) as [[ev3 c''] r].
    cbn [fst snd] in *. destruct IH as (Hr & Hf & Hsu & Ha & Hno).
    split; [exact Hr|].
    rewrite !announced_app, Hq, Ha, !existsb_is_summary_app, Hs, Hno.
    destruct ok; cbn [extraction_failed failed successful List.length] in *;
      (split; [|split; [|split; reflexivity]]); lia.
Qed.

End Loop.


End BatchMore.

Section VideoMoreExamples.
Import Py VideoToAudio.

Lemma extract_audio_outcome_witness :
  commands_run
    (fst (extract_audio (FL := B64.binary64) sample_tools (lit "in/clip.mp4")
            (lit "out/clip.mp3") (lit "mp3") (lit "192k")))
  = [ffprobe_cmd (lit "in/clip.mp4");
     ffmpeg_cmd (lit "in/clip.mp4") (lit "out/clip.mp3") (lit "mp3") (lit "192k")]
  /\ printed
       (fst (extract_audio (FL := B64.binary64) tools_failing_transcode
               (lit "in/clip.mp4") (lit "out/clip.mp3") (lit "mp3") (lit "192k")))
     <> [].
Proof.
  split.
  - refine (proj1 (proj2 (extract_audio_outcome (FL := B64.binary64) sample_tools
                            (lit "in/clip.mp4") (lit "out/clip.mp3") (lit "mp3")
                            (lit "192k") true _))).
    vm_compute. reflexivity.
  - destruct (extract_audio_outcome (FL := B64.binary64) tools_failing_transcode
                (lit "in/clip.mp4") (lit "out/clip.mp3") (lit "mp3") (lit "192k")
                false) as [(_ & [Hp|Hp])|(_ & _ & Hp)].
    + vm_compute. reflexivity.
    + rewrite Hp. discriminate.
    + vm_compute in Hp. discriminate Hp.
    + rewrite Hp. discriminate.
Defined.

Lemma unparseable_duration_escapes_witness :
  snd (extract_audio (FL := B64.binary64) tools_without_duration (lit "in/clip.mp4")
         (lit "out/clip.mp3") (lit "mp3") (lit "192k"))
  = Raise ValueError.
Proof.
  refine (proj1 (proj2 (unparseable_duration_escapes (FL := B64.binary64)
                          tools_without_duration (lit "in/clip.mp4")
                          (lit "out/clip.mp3") (lit "mp3") (lit "192k") _ _))).
  - reflexivity.
  - vm_compute. reflexivity.
Defined.


End VideoMoreExamples.

Section StatusLines.
Import Py VideoToAudio.

Abbreviation marker := (lit "time=").

Lemma contains_unfold (sub s : str) :
  contains sub s
  = startswith sub s || match s with [] => false | _ :: t => contains sub t end.
Proof. destruct s; reflexivity. Qed.

Lemma contains_app (sub pre t : str) : contains sub (pre ++ sub ++ t) = true.
Proof.
  induction pre as [|a pre IH]; rewrite contains_unfold.
  - cbn [app]. rewrite (proj2 (startswith_spec sub (sub ++ t))); [reflexivity|].
    exists t. reflexivity.
  - cbn [app]. rewrite IH. apply orb_true_r.
Qed.

Lemma contains_char_notin (c : ascii) (s : str) :
  ~ In c s -> contains [c] s = false.
Proof.
  induction s as [|a s IH]; intros Hn; [reflexivity|].
  rewrite contains_unfold. cbn [startswith].
  rewrite (ascii_eqb_neq c a) by (intros ->; apply Hn; left; reflexivity).
  cbn [andb orb]. apply IH. intros Hin. apply Hn. right. exact Hin.
Qed.

Lemma split_on_cons (sep cur : str) (a : ascii) (t : str) :
  split_on sep 0 cur (a :: t)
  = if startswith sep (a :: t)
    then cur :: split_on sep (Nat.pred (List.length sep)) [] t
    else split_on sep 0 (cur ++ [a]) t.
Proof. reflexivity. Qed.

Lemma split_on_skip (sep x cur s : str) :
  split_on sep (List.length x) cur (x ++ s) = split_on sep 0 cur s.
Proof.
  induction x as [|a x IH]; [destruct s; reflexivity|].
  cbn [app List.length split_on]. exact IH.
Qed.

(** At an occurrence of the separator the piece collected so far is closed. *)
Lemma split_on_at (c : ascii) (sep' cur s : str) :
  split_on (c :: sep') 0 cur ((c :: sep') ++ s)
  = cur :: split_on (c :: sep') 0 [] s.
Proof.
  cbn [app]. rewrite split_on_cons.
  rewrite (proj2 (startswith_spec (c :: sep') (c :: sep' ++ s)))
    by (exists s; reflexivity).
  cbn [List.length Nat.pred]. rewrite split_on_skip. reflexivity.
Qed.

(** The first piece starts with what was collected so far. *)
Lemma split_on_head (sep : str) (s : str) (skip : nat) (cur : str) :
  exists y l, split_on sep skip cur s = (cur ++ y) :: l.
Proof.
  revert skip cur. induction s as [|a s IH]; intros skip cur.
  - exists [], []. cbn. rewrite List.app_nil_r. reflexivity.
  - destruct skip as [|k].
    + rewrite split_on_cons. destruct (startswith sep (a :: s)).
      * exists [], (split_on sep (Nat.pred (List.length sep)) [] s).
        rewrite List.app_nil_r. reflexivity.
      * destruct (IH 0%nat (cur ++ [a])) as (y & l & ->).
        exists (a :: y), l. rewrite <- app_assoc. reflexivity.
    + cbn [split_on]. apply IH.
Qed.

Ltac split_conjuncts H :=
  repeat (let H' := fresh "Hc" in
          apply andb_prop in H; destruct H as [H' H]).

(** No occurrence of the marker starts before another one and runs into
    it: no end of [time=] is a beginning of it. *)
Lemma marker_no_overlap (x r : str) :
  x <> [] -> startswith marker (x ++ marker ++ r) = true ->
  startswith marker x = true.
Proof.
  intros Hx H.
  destruct x as [|a [|b [|c [|d [|e x]]]]]; [contradiction| | | | |];
    cbn in H |- *; try exact H; split_conjuncts H; discriminate.
Qed.

(** Nor does an occurrence of the marker run over white space. *)
Lemma marker_before_space (x r : str) (w : ascii) :
  isspace w = true -> startswith marker (x ++ w :: r) = true ->
  startswith marker x = true.
Proof.
  intros Hw H.
  destruct x as [|a [|b [|c [|d [|e x]]]]];
    cbn [startswith app lit list_ascii_of_string] in H |- *; try exact H;
    split_conjuncts H;
    repeat match goal with
           | Hc : ascii_eqb _ w = true |- _ =>
               apply ascii_eqb_eq in Hc; subst w; vm_compute in Hw; discriminate Hw
           end.
Qed.

(** The scan passes over a text that does not hold the marker and closes
    the piece at the marker that follows it. *)
Lemma split_on_marker_before (before cur rest : str) :
  contains marker before = false ->
  split_on marker 0 cur (before ++ marker ++ rest)
  = (cur ++ before) :: split_on marker 0 [] rest.
Proof.
  revert cur. induction before as [|a before IH]; intros cur Hc.
  - rewrite List.app_nil_r.
    exact (split_on_at "t"%char (lit "ime=") cur rest).
  - rewrite contains_unfold in Hc. apply orb_false_elim in Hc.
    destruct Hc as (Hhere & Hlater).
    change ((a :: before) ++ marker ++ rest) with (a :: before ++ marker ++ rest).
    rewrite split_on_cons.
    destruct (startswith marker (a :: before ++ marker ++ rest)) eqn:Hs.
    + apply (marker_no_overlap (a :: before) rest) in Hs; [|discriminate].
      congruence.
    + rewrite (IH (cur ++ [a]) Hlater), <- app_assoc. reflexivity.
Qed.

(** After the marker the first piece opens with the time stamp, and white
    space or nothing follows the stamp in it. *)
Lemma split_on_marker_stamp (stamp cur tail : str) :
  contains marker stamp = false -> ends_token tail = true ->
  exists y l,
    split_on marker 0 cur (stamp ++ tail) = (cur ++ stamp ++ y) :: l
    /\ ends_token y = true.
Proof.
  revert cur. induction stamp as [|a stamp IH]; intros cur Hc Htail.
  - cbn [app]. destruct tail as [|w rest].
    + exists [], []. rewrite List.app_nil_r. split; reflexivity.
    + cbn [ends_token] in Htail. rewrite split_on_cons.
      destruct (startswith marker (w :: rest)) eqn:Hs.
      * apply (marker_before_space [] rest w Htail) in Hs. discriminate Hs.
      * destruct (split_on_head marker rest 0 (cur ++ [w])) as (y & l & ->).
        exists (w :: y), l. rewrite <- app_assoc. split; [reflexivity | exact Htail].
  - rewrite contains_unfold in Hc. apply orb_false_elim in Hc.
    destruct Hc as (Hhere & Hlater).
    change ((a :: stamp) ++ tail) with (a :: stamp ++ tail).
    rewrite split_on_cons.
    destruct (startswith marker (a :: stamp ++ tail)) eqn:Hs.
    + exfalso. destruct tail as [|w rest].
      * rewrite List.app_nil_r in Hs. congruence.
      * cbn [ends_token] in Htail.
        apply (marker_before_space (a :: stamp) rest w Htail) in Hs. congruence.
    + destruct (IH (cur ++ [a]) Hlater Htail) as (y & l & -> & Hy).
      exists y, l. rewrite <- app_assoc. split; [reflexivity | exact Hy].
Qed.

Lemma split_ws_from_pass (x cur s : str) :
  Forall (fun c => isspace c = false) x ->
  split_ws_from cur (x ++ s) = split_ws_from (cur ++ x) s.
Proof.
  intros Hx. revert cur. induction Hx as [|a x Ha Hx IH]; intros cur.
  - rewrite List.app_nil_r. reflexivity.
  - cbn [app split_ws_from]. rewrite Ha, IH, <- app_assoc. reflexivity.
Qed.

(** A token that is not empty and holds no white space is the first piece
    of the text it opens, when white space or nothing follows it. *)
Lemma split_ws_first (stamp rest : str) :
  stamp <> [] -> Forall (fun c => isspace c = false) stamp ->
  ends_token rest = true ->
  exists toks, split_ws (stamp ++ rest) = stamp :: toks.
Proof.
  intros Hne Hns Hrest. unfold split_ws.
  rewrite split_ws_from_pass by exact Hns. cbn [app].
  destruct stamp as [|a stamp]; [contradiction|].
  destruct rest as [|w rest]; cbn [split_ws_from].
  - exists []. reflexivity.
  - cbn [ends_token] in Hrest. rewrite Hrest. eexists. reflexivity.
Qed.

(** What the characters of a field are not. *)
Lemma is_field_spec (x : str) :
  is_field x = true ->
  Forall (fun c => isspace c = false) x /\ ~ In ":"%char x.
Proof.
  unfold is_field. induction x as [|a x IH]; cbn [forallb].
  - intros _. split; [constructor | intros []].
  - intros H. apply andb_prop in H. destruct H as (Ha & Hx).
    destruct (IH Hx) as (Hs & Hc).
    unfold field_char in Ha.
    apply andb_prop in Ha. destruct Ha as (Has & Hac).
    apply negb_true_iff in Has, Hac.
    split; [constructor; assumption|].
    intros [->|Hin]; [|exact (Hc Hin)].
    rewrite ascii_eqb_refl in Hac. discriminate Hac.
Qed.

(** The three fields of a time stamp, the fraction of the seconds dropped. *)
Lemma stamp_fields_parts (hours minutes seconds : str) (fraction : option str) :
  ~ In ":"%char hours -> ~ In ":"%char minutes ->
  ~ In ":"%char (seconds_text seconds fraction) ->
  ~ In PosixPath.extsep seconds ->
  stamp_fields (hours ++ ":"%char :: minutes ++ ":"%char
                  :: seconds_text seconds fraction)
  = Some (hours, minutes, seconds).
Proof.
  intros Hh Hm Hs Hd. unfold stamp_fields.
  rewrite split_char_app, (split_char_notin _ hours Hh).
  rewrite split_char_app, (split_char_notin _ minutes Hm).
  rewrite (split_char_notin _ _ Hs). cbn [app].
  destruct fraction as [f|]; cbn [seconds_text].
  - change (seconds ++ PosixPath.extsep :: f) with (seconds ++ lit "." ++ f) at 1.
    rewrite contains_app.
    change "."%char with PosixPath.extsep.
    rewrite split_char_app, (split_char_notin _ seconds Hd). reflexivity.
  - change (lit ".") with [PosixPath.extsep].
    rewrite (contains_char_notin _ _ Hd). reflexivity.
Qed.

(** X12: how a status line is read.  On a line whose first marker [time=]
    is followed by a time stamp [hours:minutes:seconds], with or without a
    fraction of the seconds, and then by white space or by nothing, the
    progress is the clamped percentage of these three fields against the
    duration: the fraction of the seconds is dropped, and neither what
    precedes the first marker nor what follows the time stamp has any
    effect. *)
Theorem status_line_progress {FL : PyFloat} (duration : pynum)
    (before hours minutes seconds : str) (fraction : option str) (tail : str) :
  contains marker before = false ->
  contains marker
    (hours ++ ":"%char :: minutes ++ ":"%char :: seconds_text seconds fraction)
  = false ->
  is_field hours = true -> is_field minutes = true ->
  is_field (seconds_text seconds fraction) = true ->
  ~ In PosixPath.extsep seconds ->
  ends_token tail = true ->
  progress_of_line duration
    (before ++ marker ++ hours ++ ":"%char :: minutes ++ ":"%char
       :: seconds_text seconds fraction ++ tail)
  = clamp (percent_of duration hours minutes seconds).
Proof.
  intros Hb Hst Hh Hm Hs Hd Htail.
  destruct (is_field_spec _ Hh) as (Hhs & Hhc).
  destruct (is_field_spec _ Hm) as (Hms & Hmc).
  destruct (is_field_spec _ Hs) as (Hss & Hsc).
  set (stamp := hours ++ ":"%char :: minutes ++ ":"%char
                  :: seconds_text seconds fraction) in *.
  assert (Hline : hours ++ ":"%char :: minutes ++ ":"%char
                    :: seconds_text seconds fraction ++ tail
                  = stamp ++ tail).
  { subst stamp. rewrite <- app_assoc. cbn [app]. rewrite <- app_assoc. reflexivity. }
  rewrite Hline.
  assert (Hne : stamp <> []) by (subst stamp; destruct hours; discriminate).
  assert (Hns : Forall (fun c => isspace c = false) stamp).
  { subst stamp. apply Forall_app. split; [exact Hhs|]. constructor; [reflexivity|].
    apply Forall_app. split; [exact Hms|]. constructor; [reflexivity | exact Hss]. }
  assert (Hfields : stamp_fields stamp = Some (hours, minutes, seconds))
    by (apply stamp_fields_parts; assumption).
  unfold progress_of_line. rewrite contains_app. unfold split.
  rewrite (split_on_marker_before before [] (stamp ++ tail) Hb). cbn [app].
  destruct (split_on_marker_stamp stamp [] tail Hst Htail) as (y & l & -> & Hy).
  cbn [app].
  destruct (split_ws_first stamp y Hne Hns Hy) as (toks & ->).
  rewrite Hfields. reflexivity.
Qed.

Lemma status_line_progress_witness :
  progress_of_line duration_180
    (lit "bitrate= 127.4kbits/s " ++ marker ++ lit "00" ++ ":"%char :: lit "01"
       ++ ":"%char :: seconds_text (lit "30") (Some (lit "50"))
       ++ lit " speed=45x")
  = Ok (Some 50).
Proof.
  rewrite (status_line_progress (FL := B64.binary64) duration_180
             (lit "bitrate= 127.4kbits/s ") (lit "00") (lit "01") (lit "30")
             (Some (lit "50")) (lit " speed=45x")).
  - vm_compute. reflexivity.
  - reflexivity.
  - reflexivity.
  - reflexivity.
  - reflexivity.
  - reflexivity.
  - vm_compute. intros H. repeat (destruct H as [H|H]; [discriminate H|]). exact H.
  - reflexivity.
Defined.

End StatusLines.

Section OutputPathMore.
Import Py VideoToAudio.

Lemma walk_path_last (top : str) (ds : list str) (name : str) :
  walk_path top ds name = PosixPath.join (PosixPath.join_all top ds) name.
Proof. unfold walk_path, PosixPath.join_all. rewrite fold_left_app. reflexivity. Qed.

(** Joining two different names to one directory gives two paths. *)
Lemma join_name_inj (a n1 n2 : str) :
  ~ In PosixPath.sep n1 -> ~ In PosixPath.sep n2 ->
  PosixPath.join a n1 = PosixPath.join a n2 -> n1 = n2.
Proof.
  intros H1 H2. unfold PosixPath.join.
  rewrite (startswith_sep_name n1 H1), (startswith_sep_name n2 H2).
  destruct a as [|c a]; [intros H; exact H|].
  destruct (endswith [PosixPath.sep] (c :: a)); intros H.
  - apply app_inv_head in H. exact H.
  - apply app_inv_head in H. apply app_inv_head in H. exact H.
Qed.

(** A file that [os.walk] reaches sits at some place under the folder, and
    its path is the one formed for that place. *)
Lemma file_under_at (top : str) (entries : list node) (path f : str) :
  file_under top entries path f ->
  forallb names_ok entries = true ->
  exists ds,
    file_at entries ds f
    /\ Forall (fun d => is_name d = true) ds
    /\ is_name f = true
    /\ path = walk_path top ds f.
Proof.
  induction 1 as [top entries f Hin | top entries d children path f Hd Hu IH];
    intros Hok; rewrite List.forallb_forall in Hok.
  - exists []. pose proof (Hok _ Hin) as Hf. cbn [names_ok] in Hf.
    split; [constructor; exact Hin|]. split; [constructor|].
    split; [exact Hf | reflexivity].
  - pose proof (Hok _ Hd) as H. cbn [names_ok] in H.
    apply andb_prop in H. destruct H as (Hdn & Hch).
    destruct (IH Hch) as (ds & Hat & Hds & Hf & ->).
    exists (d :: ds).
    split; [apply (file_at_below entries d children ds f Hd Hat)|].
    split; [constructor; assumption|]. split; [exact Hf | reflexivity].
Qed.

(** X13: two videos of one directory whose names differ in the extension
    only, such as [b.mov] and [b.mp4], are two discovered paths with one and
    the same output path: the second extraction writes over the audio file
    of the first, since ffmpeg is started with [-y]. *)
Theorem same_stem_same_output (cwd input_folder output_folder audio_format : str)
    (ds : list str) (b ext1 ext2 : str) :
  PosixPath.isabs cwd = true ->
  Forall (fun d => is_name d = true) ds ->
  is_name (b ++ lit "." ++ ext1) = true ->
  is_name (b ++ lit "." ++ ext2) = true ->
  has_stem b = true ->
  ~ In PosixPath.extsep ext1 -> ~ In PosixPath.extsep ext2 ->
  ext1 <> ext2 ->
  let video1 := walk_path input_folder ds (b ++ lit "." ++ ext1) in
  let video2 := walk_path input_folder ds (b ++ lit "." ++ ext2) in
  let output_path :=
    PosixPath.join output_folder (rel_path ds (b ++ lit "." ++ audio_format)) in
  video1 <> video2
  /\ output_path_of cwd input_folder output_folder audio_format video1
     = Ok output_path
  /\ output_path_of cwd input_folder output_folder audio_format video2
     = Ok output_path
  /\ forall audio_bitrate,
       exists args,
         ffmpeg_cmd video2 output_path audio_format audio_bitrate
         = args ++ [lit "-y"; output_path].
Proof.
  intros Hcwd Hds Hn1 Hn2 Hstem He1 He2 Hne video1 video2 output_path.
  destruct (is_name_spec _ Hn1) as (_ & Hs1 & _).
  destruct (is_name_spec _ Hn2) as (_ & Hs2 & _).
  assert (Hout : forall ext,
            is_name (b ++ lit "." ++ ext) = true -> ~ In PosixPath.extsep ext ->
            output_path_of cwd input_folder output_folder audio_format
              (walk_path input_folder ds (b ++ lit "." ++ ext))
            = Ok output_path).
  { intros ext Hn He. destruct (is_name_spec _ Hn) as (_ & Hs & _).
    unfold output_path_of.
    rewrite (relpath_walk_path cwd input_folder ds _ Hcwd Hds Hn). cbn [bind].
    change (lit "." ++ ext) with (PosixPath.extsep :: ext) in *.
    rewrite rel_path_prefix, splitext_stem_ext.
    - cbn [fst]. subst output_path. rewrite rel_path_prefix, <- app_assoc. reflexivity.
    - apply dir_prefix_shape.
    - intros Hin. apply Hs, in_or_app. left. exact Hin.
    - intros Hin. apply Hs, in_or_app. right. right. exact Hin.
    - exact He.
    - exact Hstem. }
  split; [|split; [exact (Hout ext1 Hn1 He1)|split; [exact (Hout ext2 Hn2 He2)|]]].
  - subst video1 video2. rewrite !walk_path_last. intros Heq.
    apply (join_name_inj _ _ _ Hs1 Hs2) in Heq.
    apply app_inv_head in Heq. apply app_inv_head in Heq. exact (Hne Heq).
  - intros audio_bitrate. eexists. unfold ffmpeg_cmd.
    change [lit "ffmpeg"; lit "-i"; video2; lit "-vn"; lit "-acodec";
            codec_of audio_format; lit "-ab"; audio_bitrate; lit "-ar"; lit "44100";
            lit "-y"; output_path]
      with ([lit "ffmpeg"; lit "-i"; video2; lit "-vn"; lit "-acodec";
             codec_of audio_format; lit "-ab"; audio_bitrate; lit "-ar"; lit "44100"]
            ++ [lit "-y"; output_path]).
    reflexivity.
Qed.

(** X14: in a folder whose entries all have proper names, every video the
    scan discovers lies at some place [ds]/[name] under the input folder,
    [relpath] gives that place back, and the derivation of the output path
    returns: line 152 raises for no discovered video. *)
Theorem discovered_video_has_output_path
    (cwd input_folder output_folder audio_format : str) (entries : list node)
    (video_path : str) :
  PosixPath.isabs cwd = true ->
  forallb names_ok entries = true ->
  In video_path (scan_videos input_folder entries) ->
  exists ds name,
    file_at entries ds name
    /\ is_video_name name = true
    /\ video_path = walk_path input_folder ds name
    /\ PosixPath.relpath cwd video_path input_folder = Ok (rel_path ds name)
    /\ output_path_of cwd input_folder output_folder audio_format video_path
       = Ok (PosixPath.join output_folder
               (fst (PosixPath.splitext (rel_path ds name))
                ++ lit "." ++ audio_format)).
Proof.
  intros Hcwd Hok Hin. apply scan_videos_In in Hin.
  destruct Hin as (f & Hunder & Hvideo).
  destruct (file_under_at _ _ _ _ Hunder Hok) as (ds & Hat & Hds & Hf & ->).
  exists ds, f. split; [exact Hat|]. split; [exact Hvideo|]. split; [reflexivity|].
  pose proof (relpath_walk_path cwd input_folder ds f Hcwd Hds Hf) as Hrel.
  split; [exact Hrel|]. unfold output_path_of. rewrite Hrel. reflexivity.
Qed.

Lemma same_stem_same_output_witness :
  output_path_of (lit "/home/u") (lit "R") (lit "O") (lit "mp3") (lit "R/a/b.mov")
  = output_path_of (lit "/home/u") (lit "R") (lit "O") (lit "mp3") (lit "R/a/b.mp4").
Proof.
  destruct (same_stem_same_output (lit "/home/u") (lit "R") (lit "O") (lit "mp3")
              [lit "a"] (lit "b") (lit "mov") (lit "mp4"))
    as (_ & H1 & H2 & _).
  - reflexivity.
  - repeat constructor.
  - reflexivity.
  - reflexivity.
  - reflexivity.
  - vm_compute. intros H. repeat (destruct H as [H|H]; [discriminate H|]). exact H.
  - vm_compute. intros H. repeat (destruct H as [H|H]; [discriminate H|]). exact H.
  - discriminate.
  - cbv zeta in H1, H2.
    change (walk_path (lit "R") [lit "a"] (lit "b" ++ lit "." ++ lit "mov"))
      with (lit "R/a/b.mov") in H1.
    change (walk_path (lit "R") [lit "a"] (lit "b" ++ lit "." ++ lit "mp4"))
      with (lit "R/a/b.mp4") in H2.
    rewrite H1, H2. reflexivity.
Defined.

Lemma discovered_video_has_output_path_witness :
  is_ok (output_path_of (lit "/home/u") (lit "in") (lit "out") (lit "mp3")
           (lit "in/sub/b.mov"))
  = true.
Proof.
  destruct (discovered_video_has_output_path (lit "/home/u") (lit "in") (lit "out")
              (lit "mp3") sample_videos (lit "in/sub/b.mov"))
    as (ds & name & _ & _ & _ & _ & Hout).
  - reflexivity.
  - reflexivity.
  - assert (Hscan : scan_videos (lit "in") sample_videos
                    = [lit "in/broken.mp4"; lit "in/clip.MP4"; lit "in/sub/b.mov"])
      by (vm_compute; reflexivity).
    rewrite Hscan. right. right. left. reflexivity.
  - rewrite Hout. reflexivity.
Defined.

End OutputPathMore.
